(** * typed-uri-template: a shallow embedding of [src/index.ts] and
    [src/matchers.ts], and the properties of its compiler and expansion
    engine.

    JavaScript strings are modelled by [string]: every [ascii] is one UTF-16
    code unit in the range U+0000..U+00FF, so that [template[index]],
    [length], [substring] and the offsets recorded in the parts are exact.
    On such strings [encodeURIComponent] and [encodeURI] do not throw: the
    [URIError] of a lone surrogate is outside the model.  The records of
    matchers and of parameters are maps of their own properties, read
    through [Object.prototype].  Thrown [YError]s are values of the
    [result] type. *)

From Stdlib Require Import String Ascii ZArith Lia DecimalString.
From stdpp Require Import gmap strings list.

Local Open Scope string_scope.

(** String concatenation computes under [simpl], as in the Standard Library. *)
#[local] Arguments String.append !_ _ / : simpl nomatch.

(** ** Results of computations that may throw *)

Inductive result (E A : Type) : Type :=
| OK (a : A)
| Throw (e : E).
Arguments OK {E A} a.
Arguments Throw {E A} e.

Definition bind {E A B} (m : result E A) (k : A -> result E B) : result E B :=
  match m with
  | OK a => k a
  | Throw e => Throw e
  end.

Notation "'let*' x ':=' m 'in' k" := (bind m (fun x => k))
  (at level 10, x name, m at level 100, k at level 200).

(** [Array.prototype.map] with a callback that may throw: the callback runs
    on the elements from left to right with their index, the first exception
    aborts the whole map. *)
Fixpoint mapi_result {E A B} (f : A -> nat -> result E B) (i : nat) (l : list A)
  : result E (list B) :=
  match l with
  | [] => OK []
  | x :: l' =>
      let* y := f x i in
      let* ys := mapi_result f (S i) l' in
      OK (y :: ys)
  end.

(** [Array.prototype.reduce] with the index passed to the callback. *)
Fixpoint reduce_from {A B} (f : B -> A -> nat -> B) (i : nat) (l : list A) (acc : B) : B :=
  match l with
  | [] => acc
  | x :: l' => reduce_from f (S i) l' (f acc x i)
  end.

Definition reduce {A B} (f : B -> A -> nat -> B) (l : list A) (init : B) : B :=
  reduce_from f 0 l init.

(** ** JavaScript string primitives used by the sources *)

Definition isDigit (c : ascii) : bool :=
  (48 <=? nat_of_ascii c)%nat && (nat_of_ascii c <=? 57)%nat.

Definition isAlpha (c : ascii) : bool :=
  ((65 <=? nat_of_ascii c)%nat && (nat_of_ascii c <=? 90)%nat)
  || ((97 <=? nat_of_ascii c)%nat && (nat_of_ascii c <=? 122)%nat).

(** [s[s.length - 1]]: [None] stands for [undefined] (empty string). *)
Fixpoint lastChar (s : string) : option ascii :=
  match s with
  | EmptyString => None
  | String c EmptyString => Some c
  | String _ s' => lastChar s'
  end.

(** [s.slice(0, -1)] *)
Fixpoint sliceInit (s : string) : string :=
  match s with
  | EmptyString => EmptyString
  | String _ EmptyString => EmptyString
  | String c s' => String c (sliceInit s')
  end.

(** [s.indexOf(c) !== -1] *)
Fixpoint includesChar (c : ascii) (s : string) : bool :=
  match s with
  | EmptyString => false
  | String d s' => Ascii.eqb d c || includesChar c s'
  end.

(** [s.split(c)] for a one-character separator: every occurrence of [c]
    cuts, and the result always has at least one segment. *)
Fixpoint split (c : ascii) (s : string) : list string :=
  match s with
  | EmptyString => [EmptyString]
  | String d s' =>
      if Ascii.eqb d c then EmptyString :: split c s'
      else match split c s' with
           | [] => [String d EmptyString]
           | seg :: segs => String d seg :: segs
           end
  end.

(** [/^[0-9]+$/] *)
Fixpoint allDigits (s : string) : bool :=
  match s with
  | EmptyString => true
  | String c s' => isDigit c && allDigits s'
  end.

Definition matchDigits (s : string) : bool :=
  match s with
  | EmptyString => false
  | _ => allDigits s
  end.

(** [parseInt(s, 10)] on a string of decimal digits, as an exact integer.
    The number that [parseInt] returns is this integer for strings of up to
    fifteen digits; from 2^53 on it is a double near it, which
    [substring(0, n)] does not tell from it on any string. *)
Definition digitValue (c : ascii) : Z := Z.of_nat (nat_of_ascii c) - 48.

Fixpoint parseDigits (acc : Z) (s : string) : Z :=
  match s with
  | EmptyString => acc
  | String c s' => parseDigits (10 * acc + digitValue c) s'
  end.

Definition parseInt10 (s : string) : Z := parseDigits 0 s.

(** [s.substring(0, n)]: a negative [n] is clamped to 0. *)
Fixpoint takeString (n : nat) (s : string) : string :=
  match n, s with
  | S n', String c s' => String c (takeString n' s')
  | _, _ => EmptyString
  end.

Definition substring0 (n : Z) (s : string) : string := takeString (Z.to_nat n) s.

(** [s.replace(/c/g, r)] for a single character [c]. *)
Fixpoint replaceChar (c : ascii) (r : string) (s : string) : string :=
  match s with
  | EmptyString => EmptyString
  | String d s' =>
      if Ascii.eqb d c then r ++ replaceChar c r s'
      else String d (replaceChar c r s')
  end.

(** [l.join(sep)] *)
Definition join (sep : string) (l : list string) : string := String.concat sep l.

(** ** Percent-encoding: [encodeURIComponent] and [encodeURI] *)

Definition hexDigit (n : nat) : ascii :=
  if (n <? 10)%nat then ascii_of_nat (48 + n) else ascii_of_nat (55 + n).

Definition percentByte (b : nat) : string :=
  String "%" (String (hexDigit (b / 16)) (String (hexDigit (b mod 16)) EmptyString)).

(** The UTF-8 bytes of a code unit below U+0100, percent-encoded. *)
Definition percentEncode (c : ascii) : string :=
  let n := nat_of_ascii c in
  if (n <? 128)%nat then percentByte n
  else percentByte (192 + n / 64) ++ percentByte (128 + n mod 64).

(** uriUnescaped: letters, digits and the marks - _ . ! ~ * ' ( ) *)
Definition uriMark (c : ascii) : bool :=
  includesChar c "-_.!~*'()".

Definition uriUnescaped (c : ascii) : bool :=
  isAlpha c || isDigit c || uriMark c.

(** uriReserved of ECMA-262, with the number sign that [encodeURI] adds. *)
Definition uriReservedPlusHash (c : ascii) : bool :=
  includesChar c ";/?:@&=+$,#".

Fixpoint encodeWith (keep : ascii -> bool) (s : string) : string :=
  match s with
  | EmptyString => EmptyString
  | String c s' =>
      if keep c then String c (encodeWith keep s')
      else percentEncode c ++ encodeWith keep s'
  end.

Definition encodeURIComponent (s : string) : string := encodeWith uriUnescaped s.

Definition encodeURI (s : string) : string :=
  encodeWith (fun c => uriUnescaped c || uriReservedPlusHash c) s.

(** ** src/index.ts: the two escaping functions

    Both are total here, as [encodeURIComponent] and [encodeURI] are on
    code units up to U+00FF. *)

Definition escape (str : string) : string :=
  replaceChar "!" "%21" (encodeURIComponent str).

(** [.replace(/%25[0-9][0-9]/g, m => '%' + m.substring(3))]: the matches are
    taken from left to right without overlap. *)
Fixpoint undoubleEncode (s : string) : string :=
  match s with
  | EmptyString => EmptyString
  | String c rest =>
      match rest with
      | String c2 (String c5 (String d1 (String d2 rest'))) =>
          if Ascii.eqb c "%" && Ascii.eqb c2 "2" && Ascii.eqb c5 "5"
             && isDigit d1 && isDigit d2
          then String "%" (String d1 (String d2 (undoubleEncode rest')))
          else String c (undoubleEncode rest)
      | _ => String c (undoubleEncode rest)
      end
  end.

Definition doNotEscape (str : string) : string := undoubleEncode (encodeURI str).

(** ** JavaScript numbers

    IEEE-754 doubles are not modelled.  The number type and the three
    built-ins that [src/matchers.ts] calls on it are the fields of a class;
    the development is parametric in it. *)

Class JsNumber := {
  number : Type;
  parseFloat : string -> number;
  Number_isNaN : number -> bool;
  Number_toString : number -> string
}.

(** An instance for concrete evaluation: decimal literals kept exactly, as
    sign, decimal mantissa and decimal exponent.  It agrees with the
    built-ins on every literal that a double represents with the same
    digits. *)
Inductive decimal : Type :=
| DNaN
| DInfinity (neg : bool)
| DFinite (neg : bool) (m : N) (e : Z).

Definition isStrWhiteSpace (c : ascii) : bool :=
  let n := nat_of_ascii c in
  ((9 <=? n)%nat && (n <=? 13)%nat) || (n =? 32)%nat || (n =? 160)%nat.

Fixpoint trimStart (s : string) : string :=
  match s with
  | EmptyString => EmptyString
  | String c s' => if isStrWhiteSpace c then trimStart s' else s
  end.

Fixpoint spanDigits (s : string) : string * string :=
  match s with
  | EmptyString => (EmptyString, EmptyString)
  | String c s' =>
      if isDigit c then let (ds, r) := spanDigits s' in (String c ds, r)
      else (EmptyString, s)
  end.

Definition takeSign (s : string) : bool * string :=
  match s with
  | String c s' =>
      if Ascii.eqb c "-" then (true, s')
      else if Ascii.eqb c "+" then (false, s')
      else (false, s)
  | EmptyString => (false, s)
  end.

Definition exponentPart (s : string) : Z :=
  match s with
  | String c s' =>
      if Ascii.eqb c "e" || Ascii.eqb c "E" then
        let (neg, r) := takeSign s' in
        let (ds, _) := spanDigits r in
        if String.eqb ds "" then 0%Z
        else if neg then (- parseInt10 ds)%Z else parseInt10 ds
      else 0%Z
  | EmptyString => 0%Z
  end.

Definition decimal_parseFloat (s : string) : decimal :=
  let (neg, s1) := takeSign (trimStart s) in
  if String.prefix "Infinity" s1 then DInfinity neg
  else
    let (ip, r1) := spanDigits s1 in
    let (fp, r2) :=
      match r1 with
      | String c r => if Ascii.eqb c "." then spanDigits r else (EmptyString, r1)
      | EmptyString => (EmptyString, r1)
      end in
    if String.eqb ip "" && String.eqb fp "" then DNaN
    else DFinite neg (Z.to_N (parseInt10 (ip ++ fp)))
                 (exponentPart r2 - Z.of_nat (String.length fp)).

Definition decimal_isNaN (x : decimal) : bool :=
  match x with
  | DNaN => true
  | _ => false
  end.

Fixpoint zeros (n : nat) : string :=
  match n with
  | O => EmptyString
  | S n' => String "0" (zeros n')
  end.

Fixpoint dropString (n : nat) (s : string) : string :=
  match n, s with
  | S n', String _ s' => dropString n' s'
  | _, _ => s
  end.

Definition digitsOfN (m : N) : string := NilZero.string_of_uint (N.to_uint m).

(** Trailing zeros of the mantissa move into the exponent. *)
Fixpoint stripZeros (fuel : nat) (m : N) (e : Z) : N * Z :=
  match fuel with
  | O => (m, e)
  | S fuel' =>
      if (N.eqb (m mod 10) 0 && negb (N.eqb m 0))%N
      then stripZeros fuel' (m / 10)%N (e + 1)%Z
      else (m, e)
  end.

(** Number::toString of ECMA-262 on the digits [ds] and the position [n] of
    the decimal point. *)
Definition decimal_toString (x : decimal) : string :=
  match x with
  | DNaN => "NaN"
  | DInfinity neg => if neg then "-Infinity" else "Infinity"
  | DFinite neg m e =>
      if N.eqb m 0 then "0"
      else
        let (m', e') := stripZeros (String.length (digitsOfN m)) m e in
        let ds := digitsOfN m' in
        let k := Z.of_nat (String.length ds) in
        let n := (k + e')%Z in
        let body :=
          if ((k <=? n) && (n <=? 21))%Z then ds ++ zeros (Z.to_nat (n - k))
          else if ((0 <? n) && (n <=? 21))%Z
            then takeString (Z.to_nat n) ds ++ "." ++ dropString (Z.to_nat n) ds
          else if ((-6 <? n) && (n <=? 0))%Z
            then "0." ++ zeros (Z.to_nat (- n)) ++ ds
          else
            (if (k =? 1)%Z then ds
             else takeString 1 ds ++ "." ++ dropString 1 ds)
            ++ "e" ++ (if (n - 1 <? 0)%Z then "-" else "+")
            ++ digitsOfN (Z.to_N (Z.abs (n - 1))) in
        if neg then "-" ++ body else body
  end.

Definition decimalNumber : JsNumber := {|
  number := decimal;
  parseFloat := decimal_parseFloat;
  Number_isNaN := decimal_isNaN;
  Number_toString := decimal_toString
|}.

(** ** Values, errors and matchers (src/matchers.ts) *)

Inductive ErrorCode : Type :=
| E_BAD_SUBSTITUTION_OPENING
| E_UNEXPECTED_SUBSTITUTION_CLOSING
| E_EXPECTED_SUBSTITUTION_CLOSING
| E_EMPTY_SUBSTITUTION_NAME
| E_BAD_SUBSTITUTION_NAME
| E_BAD_SUBSTITUTION_TRUNCATE
| E_NO_SUBSTITUTION_MATCHER_FOUND
| E_EXPECTED_A_RECORD
| E_EXPECTED_A_LIST
| E_EXPECTED_A_LITERAL_VALUE
| E_INVALID_VARIABLE_VALUE
| E_NOT_A_NUMBER
| E_NOT_A_CANONICAL_NUMBER_REPRESENTATION
| E_CANNOT_PARSE_BOOLEAN
| TypeError.

Inductive MatcherType : Type :=
| type_value
| type_list
| type_record.

Inductive Modifier : Type :=
| mod_plus
| mod_dot
| mod_slash
| mod_hash
| mod_semicolon
| mod_question
| mod_ampersand.

Record ModifierSpec : Type := {
  prefix : string;
  separator : string;
  noEscape : bool;
  named : bool;
  trimEmptyString : bool
}.

Record TemplateVariable : Type := {
  name : string;
  explode : bool;
  truncate : option Z
}.

#[local] Set Warnings "-register-all".

Section Model.
Context `{JsNumber}.

(** A JavaScript value.  An object lists its own enumerable string-keyed
    properties in the order of [Object.keys]; a function is named by the
    property that holds it. *)
Inductive JsValue : Type :=
| JsUndefined
| JsNull
| JsString (s : string)
| JsNumberValue (n : number)
| JsBoolean (b : bool)
| JsArray (l : list JsValue)
| JsObject (l : list (string * JsValue))
| JsFunction (name : string).

Inductive YArg : Type :=
| ArgString (s : string)
| ArgIndex (n : nat)
| ArgValue (v : JsValue).

Record YError : Type := {
  code : ErrorCode;
  errorParams : list YArg
}.

Definition throw {A} (c : ErrorCode) (args : list YArg) : result YError A :=
  Throw {| code := c; errorParams := args |}.

Record ParameterMatcher : Type := {
  parse : string -> result YError JsValue;
  serialize : JsValue -> string;
  isValid : JsValue -> bool;
  type : MatcherType
}.

Definition withType (m : ParameterMatcher) (t : MatcherType) : ParameterMatcher :=
  {| parse := parse m; serialize := serialize m; isValid := isValid m; type := t |}.

(** [v.toString()] on the primitives that own the method. *)
Definition toStringMethod (v : JsValue) : string :=
  match v with
  | JsString s => s
  | JsNumberValue n => Number_toString n
  | JsBoolean b => if b then "true" else "false"
  | _ => EmptyString
  end.

(** [serialize] is the identity: [isValid] has refused every value that is
    not a string before it is called. *)
Definition asString : ParameterMatcher := {|
  parse := fun s => OK (JsString s);
  serialize := fun s => match s with JsString s' => s' | _ => EmptyString end;
  isValid := fun s => match s with JsString _ => true | _ => false end;
  type := type_value
|}.

Definition asStrings : ParameterMatcher := withType asString type_list.
Definition asKeyedStrings : ParameterMatcher := withType asString type_record.

Definition asNumber : ParameterMatcher := {|
  parse := fun s =>
    let x := parseFloat s in
    if Number_isNaN (parseFloat s) then
      throw E_NOT_A_NUMBER [ArgString s]
    else if negb (String.eqb (toStringMethod (JsString s)) s) then
      throw E_NOT_A_CANONICAL_NUMBER_REPRESENTATION
            [ArgString s; ArgString (toStringMethod (JsString s))]
    else OK (JsNumberValue x);
  serialize := fun n => toStringMethod n;
  isValid := fun n => match n with JsNumberValue _ => true | _ => false end;
  type := type_value
|}.

Definition asNumbers : ParameterMatcher := withType asNumber type_list.
Definition asKeyedNumbers : ParameterMatcher := withType asNumber type_record.

Definition asBoolean : ParameterMatcher := {|
  parse := fun s =>
    if existsb (String.eqb s) ["true"; "false"] then
      throw E_CANNOT_PARSE_BOOLEAN [ArgString s]
    else OK (JsBoolean (String.eqb s "true"));
  serialize := fun b => toStringMethod b;
  isValid := fun b => match b with JsBoolean _ => true | _ => false end;
  type := type_value
|}.

Definition asBooleans : ParameterMatcher := withType asBoolean type_list.
Definition asKeyedBooleans : ParameterMatcher := withType asBoolean type_record.

(** ** The modifier table (src/index.ts) *)

Definition EXPLODE : ascii := "*".
Definition TRUNCATE_SEPARATOR : ascii := ":".

Definition DEFAULT_SPECS : ModifierSpec := {|
  prefix := ""; separator := ","; noEscape := false; named := false;
  trimEmptyString := false
|}.

Definition MODIFIERS : list Modifier :=
  [mod_plus; mod_dot; mod_slash; mod_hash; mod_semicolon; mod_question; mod_ampersand].

Definition modifierChar (m : Modifier) : ascii :=
  match m with
  | mod_plus => "+"
  | mod_dot => "."
  | mod_slash => "/"
  | mod_hash => "#"
  | mod_semicolon => ";"
  | mod_question => "?"
  | mod_ampersand => "&"
  end.

(** [MODIFIERS.includes(c)], with the modifier found. *)
Definition modifierOfChar (c : ascii) : option Modifier :=
  find (fun m => Ascii.eqb (modifierChar m) c) MODIFIERS.

Definition MODIFIERS_SPECS (m : Modifier) : ModifierSpec :=
  match m with
  | mod_plus =>
      {| prefix := ""; separator := ","; noEscape := true; named := false;
         trimEmptyString := false |}
  | mod_hash =>
      {| prefix := "#"; separator := ","; noEscape := true; named := false;
         trimEmptyString := false |}
  | mod_dot =>
      {| prefix := "."; separator := "."; noEscape := false; named := false;
         trimEmptyString := false |}
  | mod_slash =>
      {| prefix := "/"; separator := "/"; noEscape := false; named := false;
         trimEmptyString := false |}
  | mod_semicolon =>
      {| prefix := ";"; separator := ";"; noEscape := false; named := true;
         trimEmptyString := true |}
  | mod_question =>
      {| prefix := "?"; separator := "&"; noEscape := false; named := true;
         trimEmptyString := false |}
  | mod_ampersand =>
      {| prefix := "&"; separator := "&"; noEscape := false; named := true;
         trimEmptyString := false |}
  end.

(** [part.modifier ? MODIFIERS_SPECS[part.modifier] : DEFAULT_SPECS] *)
Definition specsOf (modifier : option Modifier) : ModifierSpec :=
  match modifier with
  | Some m => MODIFIERS_SPECS m
  | None => DEFAULT_SPECS
  end.

(** ** Properties read through the prototype chain *)

(** The records of matchers and of parameters are plain objects, as the
    default [{}] of the constructor is: a property that such an object does
    not own is read from [Object.prototype].  These are the names of its
    properties. *)
Definition objectPrototypeNames : list string :=
  ["constructor"; "__defineGetter__"; "__defineSetter__"; "hasOwnProperty";
   "__lookupGetter__"; "__lookupSetter__"; "isPrototypeOf";
   "propertyIsEnumerable"; "toString"; "valueOf"; "__proto__"; "toLocaleString"].

Definition isInherited (name : string) : bool :=
  existsb (String.eqb name) objectPrototypeNames.

(** [o[name]] on a plain object [o] that does not own [name]: a function of
    [Object.prototype]; under [__proto__] the prototype itself, an object
    without enumerable property; [undefined] under any other name. *)
Definition inheritedProperty (name : string) : JsValue :=
  if String.eqb name "__proto__" then JsObject []
  else if isInherited name then JsFunction name
  else JsUndefined.

(** [!matchers[name]] is false: the record owns a matcher under [name], or
    [Object.prototype] has a property under it, none of which is falsy. *)
Definition hasMatcherProperty (matchers : gmap string ParameterMatcher) (name : string)
  : bool :=
  match matchers !! name with
  | Some _ => true
  | None => isInherited name
  end.

(** ** The template compiler: [templateParser] *)

(** A compiled part.  An entry of [matchers] is what [matchers[variable.name]]
    was when the part was closed: the matcher that the record owns, or
    [None] for a property of [Object.prototype], which has none of the
    properties of a matcher. *)
Inductive TemplatePart : Type :=
| LiteralPart (index : nat) (value : string)
| SubstitutionPart (index : nat) (variables : list TemplateVariable)
    (matchers : list (option ParameterMatcher)) (modifier : option Modifier).

(** The part under construction, [currentPart]. *)
Inductive OpenPart : Type :=
| OpenLiteral (index : nat) (value : string)
| OpenSubstitution (index : nat) (variables : list TemplateVariable)
    (modifier : option Modifier).

Record ParserState : Type := {
  parts : list TemplatePart;
  currentPart : option OpenPart
}.

Definition partIndex (p : TemplatePart) : nat :=
  match p with
  | LiteralPart i _ => i
  | SubstitutionPart i _ _ _ => i
  end.

Definition throwAt {A} (c : ErrorCode) (template : string) (offsets : list nat)
  : result YError A :=
  throw c (ArgString template :: map ArgIndex offsets).

Definition isWordChar (c : ascii) : bool :=
  isAlpha c || isDigit c || Ascii.eqb c "_".

(** [/^(?:[A-Za-z0-9_]|%[0-9]{2}){1,}$/] *)
Fixpoint matchNameUnits (s : string) : bool :=
  match s with
  | EmptyString => true
  | String c rest =>
      if isWordChar c then matchNameUnits rest
      else if Ascii.eqb c "%" then
        match rest with
        | String d1 (String d2 rest') =>
            isDigit d1 && isDigit d2 && matchNameUnits rest'
        | _ => false
        end
      else false
  end.

Definition matchVariableName (s : string) : bool :=
  match s with
  | EmptyString => false
  | _ => matchNameUnits s
  end.

Definition newVariable : TemplateVariable :=
  {| name := ""; explode := false; truncate := None |}.

(** [variables[variables.length - 1]] and [variables[0]]; reading [.name] of
    [undefined] is a [TypeError]. *)
Definition lastVariable (variables : list TemplateVariable) : result YError TemplateVariable :=
  match last variables with
  | Some v => OK v
  | None => throw TypeError []
  end.

Definition firstVariable (variables : list TemplateVariable) : result YError TemplateVariable :=
  match variables with
  | v :: _ => OK v
  | [] => throw TypeError []
  end.

(** [variables[variables.length - 1].name += c] *)
Fixpoint appendToLastName (c : ascii) (variables : list TemplateVariable)
  : list TemplateVariable :=
  match variables with
  | [] => []
  | [v] => [{| name := name v ++ String c EmptyString; explode := explode v;
               truncate := truncate v |}]
  | v :: vs => v :: appendToLastName c vs
  end.

(** The body of [for (const variable of currentPart.variables)], one
    definition for each [if] of the source.  [matchers] holds the own
    properties of the record of matchers. *)

Definition applyExplode (variable : TemplateVariable) : TemplateVariable :=
  match lastChar (name variable) with
  | Some c =>
      if Ascii.eqb EXPLODE c then
        {| name := sliceInit (name variable); explode := true;
           truncate := truncate variable |}
      else variable
  | None => variable
  end.

Definition applyTruncate (template : string) (start index : nat)
    (variable : TemplateVariable) : result YError TemplateVariable :=
  if includesChar TRUNCATE_SEPARATOR (name variable) then
    match split ":" (name variable) with
    | first :: second :: _ =>
        if negb (matchDigits second) then
          throwAt E_BAD_SUBSTITUTION_TRUNCATE template [start; index]
        else
          OK {| name := first; explode := explode variable;
                truncate := Some (parseInt10 second) |}
    | _ => throw TypeError []
    end
  else OK variable.

Definition hasTruncate (variable : TemplateVariable) : bool :=
  match truncate variable with
  | Some _ => true
  | None => false
  end.

Definition resolveVariable (template : string) (matchers : gmap string ParameterMatcher)
    (start index : nat) (variable : TemplateVariable) : result YError TemplateVariable :=
  let variable := applyExplode variable in
  let* variable := applyTruncate template start index variable in
  if hasTruncate variable && explode variable then
    throwAt E_BAD_SUBSTITUTION_TRUNCATE template [start; index]
  else if negb (matchVariableName (name variable)) then
    throwAt E_BAD_SUBSTITUTION_NAME template [start; index]
  else
    if negb (hasMatcherProperty matchers (name variable)) then
      throwAt E_NO_SUBSTITUTION_MATCHER_FOUND template [start; index]
    else OK variable.

(** [!('modifier' in currentPart) && currentPart.variables[0].name === ''
    && MODIFIERS.includes(c)], with the modifier when it holds; the
    conjunction stops at its first false operand. *)
Definition modifierHere (c : ascii) (variables : list TemplateVariable)
    (modifier : option Modifier) : result YError (option Modifier) :=
  match modifier with
  | Some _ => OK None
  | None =>
      let* firstV := firstVariable variables in
      if String.eqb (name firstV) "" then OK (modifierOfChar c) else OK None
  end.

(** One iteration of the [for] loop over the template's code units. *)
Definition parserStep (template : string) (matchers : gmap string ParameterMatcher)
    (index : nat) (c : ascii) (st : ParserState) : result YError ParserState :=
  if Ascii.eqb c "{" then
    let* parts' :=
      match currentPart st with
      | Some (OpenSubstitution _ _ _) =>
          throwAt E_BAD_SUBSTITUTION_OPENING template [index]
      | Some (OpenLiteral i v) => OK (parts st ++ [LiteralPart i v])%list
      | None => OK (parts st)
      end in
    OK {| parts := parts';
          currentPart := Some (OpenSubstitution index [newVariable] None) |}
  else if Ascii.eqb c "}" then
    match currentPart st with
    | None => throwAt E_UNEXPECTED_SUBSTITUTION_CLOSING template [index]
    | Some (OpenLiteral _ _) =>
        throwAt E_UNEXPECTED_SUBSTITUTION_CLOSING template [index]
    | Some (OpenSubstitution start variables modifier) =>
        let* lastV := lastVariable variables in
        if String.eqb (name lastV) "" then
          throwAt E_BAD_SUBSTITUTION_NAME template [start; index]
        else
          let* variables' :=
            mapi_result (fun v _ => resolveVariable template matchers start index v)
                        0 variables in
          OK {| parts :=
                  (parts st ++
                   [SubstitutionPart start variables'
                      (map (fun v => matchers !! name v) variables') modifier])%list;
                currentPart := None |}
    end
  else
    match currentPart st with
    | Some (OpenSubstitution start variables modifier) =>
        let* found := modifierHere c variables modifier in
        match found with
        | Some m =>
            OK {| parts := parts st;
                  currentPart := Some (OpenSubstitution start variables (Some m)) |}
        | None =>
            if Ascii.eqb c "," then
              let* lastV := lastVariable variables in
              if String.eqb (name lastV) "" then
                throwAt E_EMPTY_SUBSTITUTION_NAME template [start; index]
              else
                OK {| parts := parts st;
                      currentPart :=
                        Some (OpenSubstitution start (variables ++ [newVariable])%list
                                               modifier) |}
            else
              OK {| parts := parts st;
                    currentPart :=
                      Some (OpenSubstitution start (appendToLastName c variables)
                                             modifier) |}
        end
    | None =>
        OK {| parts := parts st;
              currentPart := Some (OpenLiteral index (String c EmptyString)) |}
    | Some (OpenLiteral i v) =>
        OK {| parts := parts st;
              currentPart := Some (OpenLiteral i (v ++ String c EmptyString)) |}
    end.

(** The loop, from code unit [index] on; [chars] is the rest of the template. *)
Fixpoint parserLoop (template : string) (matchers : gmap string ParameterMatcher)
    (chars : string) (index : nat) (st : ParserState) : result YError ParserState :=
  match chars with
  | EmptyString => OK st
  | String c rest =>
      let* st' := parserStep template matchers index c st in
      parserLoop template matchers rest (S index) st'
  end.

Definition templateParser (template : string) (matchers : gmap string ParameterMatcher)
  : result YError (list TemplatePart) :=
  let* st := parserLoop template matchers template 0
                        {| parts := []; currentPart := None |} in
  match currentPart st with
  | Some (OpenLiteral i v) => OK (parts st ++ [LiteralPart i v])%list
  | Some (OpenSubstitution start _ _) =>
      throwAt E_EXPECTED_SUBSTITUTION_CLOSING template [start; String.length template]
  | None => OK (parts st)
  end.

(** ** The [URITemplate] class *)

Record URITemplate : Type := {
  _template : string;
  _matchers : gmap string ParameterMatcher;
  _parts : list TemplatePart
}.

(** [new URITemplate(template, matchers)]: no object exists when
    [templateParser] throws. *)
Definition newURITemplate (template : string) (matchers : gmap string ParameterMatcher)
  : result YError URITemplate :=
  let* ps := templateParser template matchers in
  OK {| _template := template; _matchers := matchers; _parts := ps |}.

Definition doubleQuote : ascii := ascii_of_nat 34.
Definition backslash : ascii := ascii_of_nat 92.

Definition toString (t : URITemplate) : string :=
  "[" ++ String doubleQuote
           (replaceChar doubleQuote (String backslash (String doubleQuote EmptyString))
                        (_template t))
      ++ String doubleQuote " URITemplate]".

(** *** [serialize] *)

(** [params[name]]: the property that the record owns, or else the one of
    [Object.prototype]; a name that neither has reads as [undefined]. *)
Definition paramOf (params : gmap string JsValue) (name : string) : JsValue :=
  match params !! name with
  | Some v => v
  | None => inheritedProperty name
  end.

(** [v == null] *)
Definition isNullOrUndefined (v : JsValue) : bool :=
  match v with
  | JsUndefined | JsNull => true
  | _ => false
  end.

(** [typeof v === 'object'] *)
Definition typeofObject (v : JsValue) : bool :=
  match v with
  | JsNull | JsArray _ | JsObject _ => true
  | _ => false
  end.

(** [Array.isArray(v)] *)
Definition isArray (v : JsValue) : bool :=
  match v with
  | JsArray _ => true
  | _ => false
  end.

(** [Object.keys(v)] of a value that is not nullish. *)
Definition objectKeys (v : JsValue) : list string :=
  match v with
  | JsObject l => map fst l
  | JsArray l => map (fun i => NilZero.string_of_uint (Nat.to_uint i)) (seq 0 (length l))
  | _ => []
  end.

Fixpoint lookupProperty (key : string) (l : list (string * JsValue)) : JsValue :=
  match l with
  | [] => JsUndefined
  | (k, v) :: l' => if String.eqb k key then v else lookupProperty key l'
  end.

(** [v[key]] on an object. *)
Definition getProperty (v : JsValue) (key : string) : JsValue :=
  match v with
  | JsObject l => lookupProperty key l
  | _ => JsUndefined
  end.

(** [keys[index]], turned into a string where it is used as one:
    [undefined] reads "undefined". *)
Definition keyAt (keys : list string) (index : nat) : string :=
  nth index keys "undefined".

(** [part.matchers[index]] where it is a matcher.  Reading a property of
    [undefined], the entry past the end of the array, is a [TypeError]. *)
Definition matcherAt (matchers : list (option ParameterMatcher)) (index : nat)
  : result YError ParameterMatcher :=
  match matchers !! index with
  | Some (Some m) => OK m
  | _ => throw TypeError []
  end.

(** [part.matchers[index]] is a property of [Object.prototype]. *)
Definition inheritedAt (matchers : list (option ParameterMatcher)) (index : nat) : bool :=
  match matchers !! index with
  | Some None => true
  | _ => false
  end.

(** The constants of the callback of [part.variables.map], in the order of
    the source. *)

Definition matcherHasType (matcher : ParameterMatcher) (t : MatcherType) : bool :=
  match type matcher, t with
  | type_value, type_value | type_list, type_list | type_record, type_record => true
  | _, _ => false
  end.

Definition valueIsAnObject (param : JsValue) : bool := typeofObject param.

Definition valueIsAnArray (param : JsValue) : bool :=
  valueIsAnObject param && isArray param.

Definition valueIsARecord (param : JsValue) : bool :=
  valueIsAnObject param && negb (valueIsAnArray param).

Definition valuesOf (param : JsValue) : list JsValue :=
  if valueIsAnObject param then
    if valueIsAnArray param then
      match param with JsArray l => l | _ => [] end
    else map (fun key => getProperty param key) (objectKeys param)
  else [param].

Definition serializeValues (matcher : ParameterMatcher) (variable : TemplateVariable)
    (values : list JsValue) : result YError (list string) :=
  mapi_result
    (fun value valueIndex =>
       if negb (isValid matcher value) then
         throw E_INVALID_VARIABLE_VALUE
               [ArgString (name variable); ArgIndex valueIndex; ArgValue value]
       else OK (serialize matcher value))
    0 values.

(** ['truncate' in variable ? serializedValue.substring(0, variable.truncate)
    : serializedValue] *)
Definition truncateOne (variable : TemplateVariable) (serializedValue : string) : string :=
  match truncate variable with
  | Some n => substring0 n serializedValue
  | None => serializedValue
  end.

Definition truncateValues (variable : TemplateVariable) (serializedValues : list string)
  : list string :=
  map (truncateOne variable) serializedValues.

Definition escapeWith (spec : ModifierSpec) (s : string) : string :=
  if noEscape spec then doNotEscape s else escape s.

(** The [reduce] that puts each key before its value. *)
Definition interleaveKeys (keys : list string) (truncatedValues : list string)
  : list string :=
  reduce (fun acc truncatedValue index =>
            acc ++ [keyAt keys index; truncatedValue])%list
         truncatedValues [].

Definition escapeValues (spec : ModifierSpec) (variable : TemplateVariable)
    (param : JsValue) (truncatedValues : list string) : list string :=
  map (escapeWith spec)
      (if valueIsARecord param && negb (explode variable)
       then interleaveKeys (objectKeys param) truncatedValues
       else truncatedValues).

Definition isEmptyValues (truncatedValues : list string) : bool :=
  (length truncatedValues =? 0)%nat
  || forallb (fun value => String.eqb value EmptyString) truncatedValues.

Definition variableNamesOf (spec : ModifierSpec) (variable : TemplateVariable)
    (param : JsValue) (truncatedValues : list string) : list string :=
  imap (fun index _ =>
          let variableName :=
            if valueIsARecord param && explode variable
            then keyAt (objectKeys param) index
            else name variable in
          if (named spec || (explode variable && valueIsARecord param))
             && ((index =? 0)%nat || explode variable)
          then escapeWith spec variableName
               ++ (if trimEmptyString spec && isEmptyValues truncatedValues
                   then EmptyString else "=")
          else EmptyString)
       truncatedValues.

(** The final [reduce] over the escaped values. *)
Definition joinValues (spec : ModifierSpec) (variable : TemplateVariable)
    (variableNames escapedValues : list string) : string :=
  reduce (fun str escapedValue index =>
            str
            ++ (if (0 <? index)%nat
                then (if explode variable then separator spec else ",")
                else EmptyString)
            ++ nth index variableNames EmptyString
            ++ escapedValue)
         escapedValues EmptyString.

(** The callback of [part.variables.map]: [None] is the [null] that the
    filter removes.  Where [part.matchers[index]] is a property of
    [Object.prototype], its [type] is [undefined] and none of the three
    checks fires, and its [isValid] is not a function: the call on the first
    value is a [TypeError]. *)
Definition serializeVariable (spec : ModifierSpec) (params : gmap string JsValue)
    (matchers : list (option ParameterMatcher)) (variable : TemplateVariable)
    (index : nat) : result YError (option string) :=
  let param := paramOf params (name variable) in
  if isNullOrUndefined param then OK None
  else if inheritedAt matchers index then
    let* serializedValues :=
      mapi_result (fun (_ : JsValue) (_ : nat) => throw (A := string) TypeError [])
                  0 (valuesOf param) in
    let truncatedValues := truncateValues variable serializedValues in
    let escapedValues := escapeValues spec variable param truncatedValues in
    let variableNames := variableNamesOf spec variable param truncatedValues in
    if isEmptyValues truncatedValues && valueIsARecord param then OK None
    else OK (Some (joinValues spec variable variableNames escapedValues))
  else
    let* matcher := matcherAt matchers index in
    if matcherHasType matcher type_record && negb (valueIsARecord param) then
      throw E_EXPECTED_A_RECORD [ArgString (name variable); ArgValue param]
    else if matcherHasType matcher type_list && negb (valueIsAnArray param) then
      throw E_EXPECTED_A_LIST [ArgString (name variable); ArgValue param]
    else if matcherHasType matcher type_value && valueIsAnObject param then
      throw E_EXPECTED_A_LITERAL_VALUE [ArgString (name variable); ArgValue param]
    else
      let* serializedValues := serializeValues matcher variable (valuesOf param) in
      let truncatedValues := truncateValues variable serializedValues in
      let escapedValues := escapeValues spec variable param truncatedValues in
      let variableNames := variableNamesOf spec variable param truncatedValues in
      if isEmptyValues truncatedValues && valueIsARecord param then OK None
      else OK (Some (joinValues spec variable variableNames escapedValues)).

(** The callback of [this._parts.map]. *)
Definition serializePart (params : gmap string JsValue) (part : TemplatePart)
  : result YError string :=
  match part with
  | LiteralPart _ value => OK value
  | SubstitutionPart _ variables matchers modifier =>
      let spec := specsOf modifier in
      let* mapped := mapi_result (serializeVariable spec params matchers) 0 variables in
      let results := omap id mapped in
      if (length results =? 0)%nat then OK EmptyString
      else OK (prefix spec ++ join (separator spec) results)
  end.

Definition URITemplate_serialize (t : URITemplate) (params : gmap string JsValue)
  : result YError string :=
  let* strs := mapi_result (fun part _ => serializePart params part) 0 (_parts t) in
  OK (join EmptyString strs).

(** ** Definitions used by the statements *)

(** What a reader of the description does to get the text back: the
    backslash before a double quote goes. *)
Fixpoint unescapeQuotes (s : string) : string :=
  match s with
  | EmptyString => EmptyString
  | String c rest =>
      match rest with
      | String d rest' =>
          if Ascii.eqb c backslash && Ascii.eqb d doubleQuote
          then String doubleQuote (unescapeQuotes rest')
          else String c (unescapeQuotes rest)
      | EmptyString => String c EmptyString
      end
  end.

Definition descriptionSuffix : string := String doubleQuote " URITemplate]".

(** The text between the bracket and quote that open a description and the
    quote and words that close it, unescaped. *)
Definition describedText (d : string) : option string :=
  match d with
  | String b (String q rest) =>
      let n := (String.length rest - String.length descriptionSuffix)%nat in
      if Ascii.eqb b "[" && Ascii.eqb q doubleQuote
         && String.eqb (dropString n rest) descriptionSuffix
      then Some (unescapeQuotes (takeString n rest))
      else None
  | _ => None
  end.

Definition escapeQuotes (s : string) : string :=
  replaceChar doubleQuote (String backslash (String doubleQuote EmptyString)) s.

(** [new URITemplate(template, matchers).serialize(params)] *)
Definition compileAndSerialize (template : string)
    (matchers : gmap string ParameterMatcher) (params : gmap string JsValue)
  : result YError string :=
  let* t := newURITemplate template matchers in
  URITemplate_serialize t params.

(** The sign after an emitted name: it is left out under [;] when every
    truncated value of the variable is the empty string. *)
Definition equalsSign (m : Modifier) (truncatedValues : list string) : string :=
  match m with
  | mod_semicolon => if isEmptyValues truncatedValues then EmptyString else "="
  | _ => "="
  end.

(** The match of [/%25[0-9][0-9]/] at the head of a string: its two digits
    and what follows it. *)
Definition startsDoubleEncoded (s : string) : option (ascii * ascii * string) :=
  match s with
  | String c (String c2 (String c5 (String d1 (String d2 rest)))) =>
      if Ascii.eqb c "%" && Ascii.eqb c2 "2" && Ascii.eqb c5 "5"
         && isDigit d1 && isDigit d2
      then Some (d1, d2, rest)
      else None
  | _ => None
  end.

(** The characters of the reserved set that [encodeURI] keeps. *)
Definition reservedKept : string := ":/?#@!$&'()*+,;=".

(** A code unit that neither opens, closes nor separates. *)
Definition plainChar (c : ascii) : bool :=
  negb (Ascii.eqb c "{") && negb (Ascii.eqb c "}") && negb (Ascii.eqb c ",").

(** *** The shape of a compiled part sequence *)

Definition isLiteral (p : TemplatePart) : bool :=
  match p with
  | LiteralPart _ _ => true
  | SubstitutionPart _ _ _ _ => false
  end.

Definition partVariables (p : TemplatePart) : list TemplateVariable :=
  match p with
  | LiteralPart _ _ => []
  | SubstitutionPart _ variables _ _ => variables
  end.

Definition literalNonEmpty (p : TemplatePart) : Prop :=
  match p with
  | LiteralPart _ value => value <> EmptyString
  | SubstitutionPart _ _ _ _ => True
  end.

(** No variable both explodes and truncates; a truncate length is not
    negative. *)
Definition variableWellFormed (v : TemplateVariable) : Prop :=
  (explode v = true -> truncate v = None)
  /\ (forall n, truncate v = Some n -> (0 <= n)%Z).

(** A variable as the scanner holds it before the closing brace. *)
Definition rawVariable (v : TemplateVariable) : Prop :=
  explode v = false /\ truncate v = None.

Definition offsetsIncrease (ps : list TemplatePart) : Prop :=
  forall i j p q, (i < j)%nat -> ps !! i = Some p -> ps !! j = Some q ->
                  (partIndex p < partIndex q)%nat.

Definition noAdjacentLiterals (ps : list TemplatePart) : Prop :=
  forall i p q, ps !! i = Some p -> ps !! S i = Some q ->
                ~ (isLiteral p = true /\ isLiteral q = true).

Definition lastIsLiteral (ps : list TemplatePart) : bool :=
  match last ps with
  | Some p => isLiteral p
  | None => false
  end.

(** The invariant of the pushed parts; [bound] is above every offset. *)
Record partsInv (bound : nat) (ps : list TemplatePart) : Prop := {
  inv_offsets : offsetsIncrease ps;
  inv_bound : Forall (fun p => (partIndex p < bound)%nat) ps;
  inv_nonempty : Forall literalNonEmpty ps;
  inv_adjacent : noAdjacentLiterals ps;
  inv_variables : Forall (fun p => Forall variableWellFormed (partVariables p)) ps
}.

(** The invariant of the scanner before it reads code unit [index]. *)
Definition stateInv (index : nat) (st : ParserState) : Prop :=
  match currentPart st with
  | None => partsInv index (parts st) /\ lastIsLiteral (parts st) = false
  | Some (OpenLiteral i v) =>
      partsInv i (parts st) /\ lastIsLiteral (parts st) = false
      /\ (i < index)%nat /\ v <> EmptyString
  | Some (OpenSubstitution i variables _) =>
      partsInv i (parts st) /\ (i < index)%nat /\ Forall rawVariable variables
  end.

(** *** The contributions of the variables of a substitution *)






(** *** Definitions used by the further properties *)

(** A text without brace. *)
Definition braceFree (s : string) : bool :=
  negb (includesChar "{" s) && negb (includesChar "}" s).

(** The modifier that opens the body of a substitution, and the rest. *)
Definition splitModifier (body : string) : option Modifier * string :=
  match body with
  | EmptyString => (None, body)
  | String c rest =>
      match modifierOfChar c with
      | Some m => (Some m, rest)
      | None => (None, body)
      end
  end.

(** The literal part of a text at an offset: none for the empty text. *)
Definition literalParts (index : nat) (text : string) : list TemplatePart :=
  match text with
  | EmptyString => []
  | _ => [LiteralPart index text]
  end.

(** A variable as it stands between the braces, before it is resolved. *)
Definition rawNamed (n : string) : TemplateVariable :=
  {| name := n; explode := false; truncate := None |}.

(** What [templateParser] promises of a substitution part. *)
Definition substitutionWellFormed (matchers : gmap string ParameterMatcher)
    (p : TemplatePart) : Prop :=
  match p with
  | LiteralPart _ _ => True
  | SubstitutionPart _ variables ms _ =>
      variables <> []
      /\ ms = map (fun v => matchers !! name v) variables
      /\ Forall (fun v => matchVariableName (name v) = true
                          /\ hasMatcherProperty matchers (name v) = true) variables
  end.

(** What the offsets of a part say about the template. *)
Definition partInTemplate (template : string) (p : TemplatePart) : Prop :=
  match p with
  | LiteralPart i value =>
      substring i (String.length value) template = value
      /\ braceFree value = true
  | SubstitutionPart i _ _ _ => String.get i template = Some "{"%char
  end.

(** The value of an upper-case hexadecimal digit. *)
Definition hexValue (c : ascii) : option nat :=
  let n := nat_of_ascii c in
  if isDigit c then Some (n - 48)%nat
  else if (65 <=? n)%nat && (n <=? 70)%nat then Some (n - 55)%nat
  else None.

(** The byte of a percent triplet whose [%] is read. *)
Definition tripletByte (h1 h2 : ascii) : option nat :=
  match hexValue h1, hexValue h2 with
  | Some a, Some b => Some (16 * a + b)%nat
  | _, _ => None
  end.

(** Percent-decoding of the output of [encodeURIComponent] for code units
    below U+0100: a triplet is one byte, and the bytes [C2] and [C3] open a
    sequence of two; [None] where the text is not such an output. *)
Fixpoint percentDecode (s : string) : option string :=
  match s with
  | EmptyString => Some EmptyString
  | String c rest =>
      if Ascii.eqb c "%" then
        match rest with
        | String h1 (String h2 rest1) =>
            match tripletByte h1 h2 with
            | Some b =>
                if (b <? 128)%nat then
                  option_map (String (ascii_of_nat b)) (percentDecode rest1)
                else if (194 <=? b)%nat && (b <=? 195)%nat then
                  match rest1 with
                  | String p (String h3 (String h4 rest2)) =>
                      match tripletByte h3 h4 with
                      | Some b2 =>
                          if Ascii.eqb p "%" && (128 <=? b2)%nat && (b2 <? 192)%nat then
                            option_map
                              (String (ascii_of_nat ((b - 192) * 64 + (b2 - 128))))
                              (percentDecode rest2)
                          else None
                      | None => None
                      end
                  | _ => None
                  end
                else None
            | None => None
            end
        | _ => None
        end
      else option_map (String c) (percentDecode rest)
  end.

(** The characters that [escape] lets through or writes. *)
Definition escapeAlphabet (c : ascii) : bool :=
  isAlpha c || isDigit c || includesChar c "-_.~*'()%".

(** The current part after a text without brace is read from the start of
    a literal. *)
Definition afterLiteral (index : nat) (text : string) : option OpenPart :=
  match text with
  | EmptyString => None
  | _ => Some (OpenLiteral index text)
  end.

(** The text of an optional modifier. *)
Definition modifierText (modifier : option Modifier) : string :=
  match modifier with
  | Some m => String (modifierChar m) EmptyString
  | None => EmptyString
  end.

(** A code unit of a variable name: [A-Za-z0-9_] or the percent sign. *)
Definition nameChar (c : ascii) : bool := isWordChar c || Ascii.eqb c "%".

(** The invariant of the scanner on the texts of the parts, [consumed]
    being the code units read so far. *)
Definition contentInv (template consumed : string) (st : ParserState) : Prop :=
  Forall (partInTemplate template) (parts st)
  /\ match currentPart st with
     | None => True
     | Some (OpenLiteral i v) =>
         exists pre, consumed = pre ++ v /\ String.length pre = i /\ braceFree v = true
     | Some (OpenSubstitution i _ _) => String.get i consumed = Some "{"%char
     end.

(** The text that a part contributes when no parameter is given. *)
Definition literalText (p : TemplatePart) : string :=
  match p with
  | LiteralPart _ value => value
  | SubstitutionPart _ _ _ _ => EmptyString
  end.

(** A value that is neither nullish nor an object for [typeof]: a string, a
    number or a boolean, and a function too. *)
Definition isPrimitive (v : JsValue) : bool :=
  match v with
  | JsString _ | JsNumberValue _ | JsBoolean _ | JsFunction _ => true
  | _ => false
  end.

(** What [escape] writes for one code unit. *)
Definition escapeChar (c : ascii) : string :=
  replaceChar "!" "%21"
              (if uriUnescaped c then String c EmptyString else percentEncode c).

(** The nine matchers of [src/matchers.ts]. *)
Definition builtinMatchers : list ParameterMatcher :=
  [asString; asStrings; asKeyedStrings;
   asNumber; asNumbers; asKeyedNumbers;
   asBoolean; asBooleans; asKeyedBooleans].

(** *** Templates as they are written *)

(** What follows the name of a variable: nothing, the star, or a colon and
    digits. *)
Inductive VariableSuffix : Type :=
| NoSuffix
| ExplodeSuffix
| TruncateSuffix (digits : string).

Record WrittenVariable : Type := {
  writtenName : string;
  writtenSuffix : VariableSuffix
}.

(** A substitution with the literal text that stands before it. *)
Record WrittenSubstitution : Type := {
  textBefore : string;
  writtenModifier : option Modifier;
  writtenVariables : list WrittenVariable
}.

Definition suffixText (s : VariableSuffix) : string :=
  match s with
  | NoSuffix => EmptyString
  | ExplodeSuffix => "*"
  | TruncateSuffix digits => String ":" digits
  end.

Definition variableText (w : WrittenVariable) : string :=
  writtenName w ++ suffixText (writtenSuffix w).

Definition substitutionText (w : WrittenSubstitution) : string :=
  String "{" (modifierText (writtenModifier w)
              ++ join "," (map variableText (writtenVariables w))
              ++ "}").

Fixpoint itemsText (items : list WrittenSubstitution) : string :=
  match items with
  | [] => EmptyString
  | w :: items' => (textBefore w ++ substitutionText w) ++ itemsText items'
  end.

(** The variable that a written variable stands for. *)
Definition variableOf (w : WrittenVariable) : TemplateVariable :=
  {| name := writtenName w;
     explode := match writtenSuffix w with ExplodeSuffix => true | _ => false end;
     truncate := match writtenSuffix w with
                 | TruncateSuffix digits => Some (parseInt10 digits)
                 | _ => None
                 end |}.

(** The parts that written substitutions stand for, from an offset on. *)
Fixpoint itemParts (matchers : gmap string ParameterMatcher) (index : nat)
    (items : list WrittenSubstitution) : list TemplatePart :=
  match items with
  | [] => []
  | w :: items' =>
      (literalParts index (textBefore w)
       ++ SubstitutionPart (index + String.length (textBefore w))
            (map variableOf (writtenVariables w))
            (map (fun v => matchers !! writtenName v) (writtenVariables w))
            (writtenModifier w)
          :: itemParts matchers
               (index + String.length (textBefore w ++ substitutionText w)) items')%list
  end.

(** The digits of a truncate length are at most fifteen: up to there
    [parseInt] is exact. *)
Definition wellWrittenVariable (matchers : gmap string ParameterMatcher)
    (w : WrittenVariable) : Prop :=
  matchVariableName (writtenName w) = true
  /\ hasMatcherProperty matchers (writtenName w) = true
  /\ match writtenSuffix w with
     | TruncateSuffix digits =>
         matchDigits digits = true /\ (String.length digits <= 15)%nat
     | _ => True
     end.

Definition wellWritten (matchers : gmap string ParameterMatcher)
    (w : WrittenSubstitution) : Prop :=
  braceFree (textBefore w) = true
  /\ writtenVariables w <> []
  /\ Forall (wellWrittenVariable matchers) (writtenVariables w).

(** A code unit of the text of a variable. *)
Definition variableChar (c : ascii) : bool :=
  nameChar c || Ascii.eqb c "*" || Ascii.eqb c ":".

(** *** The errors that are thrown *)

(** The codes of [templateParser] and those of [serialize]. *)
Definition parserCodes : list ErrorCode :=
  [E_BAD_SUBSTITUTION_OPENING; E_UNEXPECTED_SUBSTITUTION_CLOSING;
   E_EXPECTED_SUBSTITUTION_CLOSING; E_EMPTY_SUBSTITUTION_NAME;
   E_BAD_SUBSTITUTION_NAME; E_BAD_SUBSTITUTION_TRUNCATE;
   E_NO_SUBSTITUTION_MATCHER_FOUND].

Definition serializeCodes : list ErrorCode :=
  [E_EXPECTED_A_RECORD; E_EXPECTED_A_LIST; E_EXPECTED_A_LITERAL_VALUE;
   E_INVALID_VARIABLE_VALUE].

(** An error of the compiler: one of its codes, with the template and
    offsets. *)
Definition parseError (template : string) (e : YError) : Prop :=
  In (code e) parserCodes
  /\ exists offsets, errorParams e = ArgString template :: map ArgIndex offsets.

(** An error of the expansion of [variable]: one of its codes, with the name
    of the variable first. *)
Definition expansionError (variable : TemplateVariable) (e : YError) : Prop :=
  In (code e) serializeCodes
  /\ exists rest, errorParams e = ArgString (name variable) :: rest.

(** An open substitution has a variable. *)
Definition openNonEmpty (st : ParserState) : Prop :=
  match currentPart st with
  | Some (OpenSubstitution _ variables _) => variables <> []
  | _ => True
  end.
End Model.

(** ** Sample matchers and parameters, after the tests of the repository *)

Section Samples.
#[local] Existing Instance decimalNumber.

Definition sampleMatchers : gmap string ParameterMatcher :=
  {[ "var" := asString; "hello" := asString; "path" := asString;
     "empty" := asString; "list" := asStrings; "keys" := asKeyedStrings;
     "x" := asNumber; "y" := asNumber ]}.

Definition sampleParams : gmap string JsValue :=
  {[ "var" := JsString "value";
     "hello" := JsString "Hello World!";
     "path" := JsString "/foo/bar";
     "empty" := JsString EmptyString;
     "list" := JsArray [JsString "red"; JsString "green"; JsString "blue"];
     "keys" := JsObject [("semi", JsString ";"); ("dot", JsString ".");
                         ("comma", JsString ",")];
     "x" := JsNumberValue (DFinite false 1024 0);
     "y" := JsNumberValue (DFinite false 768 0) ]}.

Definition listVariable : TemplateVariable :=
  {| name := "list"; explode := false; truncate := None |}.

Definition keysVariable : TemplateVariable :=
  {| name := "keys"; explode := false; truncate := None |}.

Definition listExploded : TemplateVariable :=
  {| name := "list"; explode := true; truncate := None |}.


Definition truncatedVariable : TemplateVariable :=
  {| name := "var"; explode := false; truncate := Some 3%Z |}.

(** The parts of [/test/{var:3}{?x,y}]. *)
Definition sampleParts : list TemplatePart :=
  [LiteralPart 0 "/test/";
   SubstitutionPart 6 [truncatedVariable] [Some asString] None;
   SubstitutionPart 13
     [{| name := "x"; explode := false; truncate := None |};
      {| name := "y"; explode := false; truncate := None |}]
     [Some asNumber; Some asNumber] (Some mod_question)].

Definition pingTemplate : URITemplate :=
  {| _template := "/ping"; _matchers := ∅; _parts := [LiteralPart 0 "/ping"] |}.

End Samples.

(** * Properties *)

Section Properties.
Context `{JsNumber}.

(** ** Strings *)

Lemma append_nil_r (s : string) : s ++ EmptyString = s.
Proof. induction s as [|c s IH]; simpl; [reflexivity | now rewrite IH]. Qed.

Lemma append_assoc (a b c : string) : (a ++ b) ++ c = a ++ (b ++ c).
Proof. induction a as [|x a IH]; simpl; [reflexivity | now rewrite IH]. Qed.

Lemma length_append (a b : string) :
  String.length (a ++ b) = (String.length a + String.length b)%nat.
Proof. induction a as [|x a IH]; simpl; [reflexivity | now rewrite IH]. Qed.

Lemma takeString_append (a b : string) : takeString (String.length a) (a ++ b) = a.
Proof. induction a as [|x a IH]; simpl; [now destruct b | now rewrite IH]. Qed.

Lemma dropString_append (a b : string) : dropString (String.length a) (a ++ b) = b.
Proof. induction a as [|x a IH]; simpl; [now destruct b | exact IH]. Qed.

(** ** The built-in matchers *)

Lemma asBoolean_parse_eq (s : string) :
  parse asBoolean s =
  if String.eqb s "true" || String.eqb s "false"
  then throw E_CANNOT_PARSE_BOOLEAN [ArgString s]
  else OK (JsBoolean false).
Proof.
  cbn [parse asBoolean existsb].
  destruct (String.eqb s "true") eqn:Etrue; cbn [orb]; [reflexivity |].
  now destruct (String.eqb s "false").
Qed.

Lemma asBoolean_parse_never_true (s : string) :
  parse asBoolean s <> OK (JsBoolean true).
Proof.
  rewrite asBoolean_parse_eq.
  destruct (String.eqb s "true" || String.eqb s "false"); discriminate.
Qed.

Lemma asNumber_parse_eq (s : string) :
  parse asNumber s =
  if Number_isNaN (parseFloat s)
  then throw E_NOT_A_NUMBER [ArgString s]
  else OK (JsNumberValue (parseFloat s)).
Proof.
  cbn [parse asNumber toStringMethod].
  destruct (Number_isNaN (parseFloat s)); [reflexivity |].
  now rewrite String.eqb_refl.
Qed.

Lemma asNumber_parse_code (s : string) (e : YError) :
  parse asNumber s = Throw e -> code e = E_NOT_A_NUMBER.
Proof.
  rewrite asNumber_parse_eq.
  destruct (Number_isNaN (parseFloat s)); [| discriminate].
  unfold throw. intros [= <-]. reflexivity.
Qed.

(** ** The description of a template *)

Lemma escapeQuotes_head (s : string) (r : string) :
  escapeQuotes s <> String doubleQuote r.
Proof.
  destruct s as [|c s]; [discriminate |].
  unfold escapeQuotes. cbn [replaceChar].
  destruct (Ascii.eqb c doubleQuote) eqn:E.
  - discriminate.
  - intros [= -> _]. now rewrite Ascii.eqb_refl in E.
Qed.

Lemma unescape_escapeQuotes (s : string) : unescapeQuotes (escapeQuotes s) = s.
Proof.
  induction s as [|c s IH]; [reflexivity |].
  unfold escapeQuotes in *. cbn [replaceChar].
  destruct (Ascii.eqb c doubleQuote) eqn:E.
  - apply Ascii.eqb_eq in E as ->.
    change (unescapeQuotes (String backslash (String doubleQuote
              (replaceChar doubleQuote (String backslash (String doubleQuote EmptyString)) s)))
            = String doubleQuote s).
    cbn [unescapeQuotes]. rewrite !Ascii.eqb_refl. cbn [andb]. now rewrite IH.
  - cbn [unescapeQuotes].
    destruct (replaceChar doubleQuote _ s) as [|d r] eqn:R.
    + destruct s as [|c' s]; [reflexivity |].
      cbn [replaceChar] in R. destruct (Ascii.eqb c' doubleQuote); discriminate.
    + destruct (Ascii.eqb c backslash && Ascii.eqb d doubleQuote) eqn:B.
      * apply andb_prop in B as [_ B]. apply Ascii.eqb_eq in B as ->.
        now apply (escapeQuotes_head s) in R.
      * now rewrite IH.
Qed.

Lemma escapeQuotes_no_quote (s : string) :
  includesChar doubleQuote s = false -> escapeQuotes s = s.
Proof.
  unfold escapeQuotes.
  induction s as [|c s IH]; [reflexivity |].
  cbn [includesChar replaceChar]. intros Hs.
  apply orb_false_elim in Hs as [-> Hs]. now rewrite IH.
Qed.

Lemma toString_eq (t : URITemplate) :
  toString t =
  String "[" (String doubleQuote (escapeQuotes (_template t) ++ descriptionSuffix)).
Proof. reflexivity. Qed.

Lemma describedText_toString (t : URITemplate) :
  describedText (toString t) = Some (_template t).
Proof.
  rewrite toString_eq. unfold describedText.
  rewrite length_append, Nat.add_sub, dropString_append, takeString_append.
  rewrite !Ascii.eqb_refl, String.eqb_refl. cbn [andb].
  now rewrite unescape_escapeQuotes.
Qed.

Lemma newURITemplate_template (template : string)
    (matchers : gmap string ParameterMatcher) (t : URITemplate) :
  newURITemplate template matchers = OK t -> _template t = template.
Proof.
  unfold newURITemplate.
  destruct (templateParser template matchers); cbn [bind]; [| discriminate].
  now intros [= <-].
Qed.

(** C8: the description of a compiled template is its text between [["]
    and [" URITemplate]] with a backslash put before every double quote;
    a text without double quote stands there verbatim, and the text is
    recovered from the description. *)
Theorem toString_roundtrip (template : string)
    (matchers : gmap string ParameterMatcher) (t : URITemplate) :
  newURITemplate template matchers = OK t ->
  toString t
    = String "[" (String doubleQuote (escapeQuotes template ++ descriptionSuffix))
  /\ (includesChar doubleQuote template = false ->
      toString t = String "[" (String doubleQuote (template ++ descriptionSuffix)))
  /\ describedText (toString t) = Some template.
Proof.
  intros Hnew. pose proof (newURITemplate_template _ _ _ Hnew) as Ht.
  repeat split.
  - now rewrite toString_eq, Ht.
  - intros Hq. now rewrite toString_eq, Ht, escapeQuotes_no_quote.
  - now rewrite describedText_toString, Ht.
Qed.

(** ** The compiler *)

Lemma bind_OK {E A B} (m : result E A) (k : A -> result E B) (b : B) :
  bind m k = OK b -> exists a, m = OK a /\ k a = OK b.
Proof. destruct m as [a|e]; cbn [bind]; [eauto | discriminate]. Qed.

Lemma mapi_result_Forall {E A B} (P : A -> Prop) (Q : B -> Prop)
    (f : A -> nat -> result E B) :
  (forall x i y, P x -> f x i = OK y -> Q y) ->
  forall l i l', Forall P l -> mapi_result f i l = OK l' -> Forall Q l'.
Proof.
  intros Hf l. induction l as [|x l IH]; intros i l' HP; cbn [mapi_result].
  - intros [= <-]. constructor.
  - intros (y & Hy & Hrest)%bind_OK. apply bind_OK in Hrest as (ys & Hys & [= <-]).
    apply Forall_cons in HP as [Hx HP]. constructor; eauto.
Qed.

Lemma mapi_result_length {E A B} (f : A -> nat -> result E B) (l : list A) :
  forall i l', mapi_result f i l = OK l' -> length l' = length l.
Proof.
  induction l as [|x l IH]; intros i l'; cbn [mapi_result].
  - now intros [= <-].
  - intros (y & Hy & Hrest)%bind_OK. apply bind_OK in Hrest as (ys & Hys & [= <-]).
    cbn [length]. f_equal. eauto.
Qed.

Lemma isDigit_digitValue (c : ascii) : isDigit c = true -> (0 <= digitValue c <= 9)%Z.
Proof.
  unfold isDigit, digitValue. intros [H1 H2]%andb_prop.
  apply Nat.leb_le in H1, H2. lia.
Qed.

Lemma parseDigits_nonneg (s : string) :
  forall acc, allDigits s = true -> (0 <= acc)%Z -> (0 <= parseDigits acc s)%Z.
Proof.
  induction s as [|c s IH]; intros acc; cbn [allDigits parseDigits]; [easy |].
  intros [Hc Hs]%andb_prop Hacc. apply IH; [exact Hs |].
  apply isDigit_digitValue in Hc. lia.
Qed.

Lemma parseInt10_nonneg (s : string) : matchDigits s = true -> (0 <= parseInt10 s)%Z.
Proof.
  intros Hs. apply parseDigits_nonneg; [| lia].
  destruct s; [discriminate | exact Hs].
Qed.

Lemma split_cons (c : ascii) (s : string) : exists seg segs, split c s = seg :: segs.
Proof.
  induction s as [|d s (seg & segs & IH)]; cbn [split]; [eauto |].
  destruct (Ascii.eqb d c); [eauto |]. rewrite IH. eauto.
Qed.

Lemma split_includes (c : ascii) (s : string) :
  includesChar c s = true -> exists first second rest, split c s = first :: second :: rest.
Proof.
  induction s as [|d s IH]; cbn [includesChar split]; [discriminate |].
  destruct (Ascii.eqb d c); cbn [orb].
  - intros _. destruct (split_cons c s) as (seg & segs & ->). eauto.
  - intros (first & second & rest & ->)%IH. eauto.
Qed.

Lemma sliceInit_includes (c x : ascii) (s : string) :
  lastChar s = Some x -> x <> c ->
  includesChar c s = true -> includesChar c (sliceInit s) = true.
Proof.
  intros Hlast Hx. induction s as [|d s IH]; [discriminate |].
  destruct s as [|d' s].
  - cbn in Hlast |- *. injection Hlast as ->.
    destruct (Ascii.eqb x c) eqn:E; [apply Ascii.eqb_eq in E; contradiction | easy].
  - change (sliceInit (String d (String d' s))) with (String d (sliceInit (String d' s))).
    change (lastChar (String d (String d' s))) with (lastChar (String d' s)) in Hlast.
    cbn [includesChar] in *. destruct (Ascii.eqb d c); cbn [orb] in *; [reflexivity |].
    intros Hs. apply IH; assumption.
Qed.

Lemma applyExplode_truncate (v : TemplateVariable) :
  truncate (applyExplode v) = truncate v.
Proof.
  unfold applyExplode. destruct (lastChar (name v)) as [c|]; [| reflexivity].
  now destruct (Ascii.eqb EXPLODE c).
Qed.

Lemma applyTruncate_OK (template : string) (start index : nat)
    (v v' : TemplateVariable) :
  applyTruncate template start index v = OK v' ->
  explode v' = explode v
  /\ (truncate v' = truncate v
      \/ exists n, truncate v' = Some n /\ (0 <= n)%Z).
Proof.
  unfold applyTruncate.
  destruct (includesChar TRUNCATE_SEPARATOR (name v)).
  - destruct (split ":" (name v)) as [|first [|second rest]]; try discriminate.
    destruct (matchDigits second) eqn:Hd; cbn [negb]; [| discriminate].
    intros [= <-]. cbn [explode truncate]. split; [reflexivity |].
    right. eexists. split; [reflexivity |]. now apply parseInt10_nonneg.
  - intros [= <-]. auto.
Qed.

Lemma resolveVariable_OK (template : string)
    (matchers : gmap string ParameterMatcher) (start index : nat)
    (v v' : TemplateVariable) :
  resolveVariable template matchers start index v = OK v' ->
  applyTruncate template start index (applyExplode v) = OK v'
  /\ hasTruncate v' && explode v' = false
  /\ matchVariableName (name v') = true
  /\ hasMatcherProperty matchers (name v') = true.
Proof.
  unfold resolveVariable.
  intros (w & Hw & Hchecks)%bind_OK.
  destruct (hasTruncate w && explode w) eqn:Hboth; [discriminate |].
  destruct (matchVariableName (name w)) eqn:Hname; cbn [negb] in Hchecks; [| discriminate].
  destruct (hasMatcherProperty matchers (name w)) eqn:Hm; cbn [negb] in Hchecks;
    [| discriminate].
  injection Hchecks as <-. rewrite Hm. auto.
Qed.

Lemma resolveVariable_wellFormed (template : string)
    (matchers : gmap string ParameterMatcher) (start index : nat)
    (v v' : TemplateVariable) :
  rawVariable v ->
  resolveVariable template matchers start index v = OK v' ->
  variableWellFormed v'.
Proof.
  intros [_ Htr] (Htrunc & Hboth & _)%resolveVariable_OK.
  apply applyTruncate_OK in Htrunc as [_ Hcases].
  rewrite applyExplode_truncate, Htr in Hcases.
  unfold hasTruncate in Hboth. split.
  - intros He. rewrite He, andb_true_r in Hboth.
    now destruct (truncate v').
  - intros n Hn. destruct Hcases as [Hnone | (n' & Hn' & Hpos)]; congruence.
Qed.

Lemma resolveVariable_explode_truncate (template : string)
    (matchers : gmap string ParameterMatcher) (start index : nat)
    (v : TemplateVariable) :
  lastChar (name v) = Some EXPLODE ->
  includesChar TRUNCATE_SEPARATOR (name v) = true ->
  resolveVariable template matchers start index v
  = throwAt E_BAD_SUBSTITUTION_TRUNCATE template [start; index].
Proof.
  intros Hlast Hcolon.
  pose proof (sliceInit_includes TRUNCATE_SEPARATOR _ _ Hlast ltac:(discriminate) Hcolon)
    as Hcolon'.
  unfold resolveVariable, applyExplode, applyTruncate. rewrite Hlast.
  rewrite Ascii.eqb_refl. cbn [name explode truncate]. rewrite Hcolon'.
  unfold TRUNCATE_SEPARATOR in Hcolon'.
  destruct (split_includes _ _ Hcolon') as (first & second & rest & ->).
  destruct (matchDigits second); cbn [negb bind]; reflexivity.
Qed.

(** *** The invariant of the scanner *)

Lemma partsInv_nil (bound : nat) : partsInv bound [].
Proof.
  split; try constructor.
  - intros i j p q _ Hp. now rewrite lookup_nil in Hp.
  - intros i p q Hp. now rewrite lookup_nil in Hp.
Qed.

Lemma partsInv_weaken (b b' : nat) (ps : list TemplatePart) :
  (b <= b')%nat -> partsInv b ps -> partsInv b' ps.
Proof.
  intros Hb [Ho Hbd Hne Hadj Hv]. split; try assumption.
  eapply Forall_impl; [exact Hbd |]. cbn. intros p Hp. lia.
Qed.

Lemma lastIsLiteral_snoc (ps : list TemplatePart) (p : TemplatePart) :
  lastIsLiteral (ps ++ [p]) = isLiteral p.
Proof. unfold lastIsLiteral. now rewrite last_snoc. Qed.

Lemma partsInv_snoc (ps : list TemplatePart) (p : TemplatePart) :
  partsInv (partIndex p) ps ->
  literalNonEmpty p ->
  Forall variableWellFormed (partVariables p) ->
  (isLiteral p = true -> lastIsLiteral ps = false) ->
  partsInv (S (partIndex p)) (ps ++ [p]).
Proof.
  intros [Ho Hbd Hne Hadj Hv] Hp Hvars Hlast. split.
  - intros i j x y Hij [[Hi Hx] | [-> ->]]%lookup_snoc_Some
                       [[Hj Hy] | [-> ->]]%lookup_snoc_Some.
    + eauto.
    + eapply Forall_lookup_1 in Hbd; [exact Hbd | exact Hx].
    + lia.
    + lia.
  - apply Forall_app. split.
    + eapply Forall_impl; [exact Hbd |]. cbn. intros q Hq. lia.
    + repeat constructor.
  - apply Forall_app. split; [assumption | now repeat constructor].
  - intros i x y [[Hi Hx] | [-> ->]]%lookup_snoc_Some
                 [[Hj Hy] | [Hj ->]]%lookup_snoc_Some.
    + eauto.
    + intros [Hxl Hyl]. specialize (Hlast Hyl).
      unfold lastIsLiteral in Hlast. rewrite last_lookup, <- Hj in Hlast.
      cbn [pred] in Hlast. rewrite Hx in Hlast. congruence.
    + lia.
    + lia.
  - apply Forall_app. split; [assumption | now repeat constructor].
Qed.

Lemma append_not_empty (s : string) (c : ascii) : s ++ String c EmptyString <> EmptyString.
Proof. destruct s; discriminate. Qed.

Lemma appendToLastName_raw (c : ascii) (variables : list TemplateVariable) :
  Forall rawVariable variables -> Forall rawVariable (appendToLastName c variables).
Proof.
  induction 1 as [|v vs Hv Hvs IH]; [constructor |].
  cbn [appendToLastName]. destruct vs as [|v' vs].
  - repeat constructor; apply Hv.
  - constructor; assumption.
Qed.

Lemma newVariable_raw : rawVariable newVariable.
Proof. split; reflexivity. Qed.

Lemma parserStep_inv (template : string) (matchers : gmap string ParameterMatcher)
    (index : nat) (c : ascii) (st st' : ParserState) :
  stateInv index st ->
  parserStep template matchers index c st = OK st' ->
  stateInv (S index) st'.
Proof.
  unfold stateInv, parserStep. intros Hinv.
  destruct (Ascii.eqb c "{"); [| destruct (Ascii.eqb c "}")].
  - (* an opening brace *)
    destruct (currentPart st) as [[i v | i variables modifier]|];
      cbn [bind]; try discriminate; intros [= <-]; cbn [currentPart parts].
    + destruct Hinv as (Hps & Hlast & Hi & Hv).
      split; [| split; [lia | constructor; [apply newVariable_raw | constructor]]].
      apply (partsInv_weaken (S i)); [lia |].
      now apply (partsInv_snoc _ (LiteralPart i v)).
    + destruct Hinv as (Hps & Hlast).
      split; [assumption | split; [lia | constructor; [apply newVariable_raw | constructor]]].
  - (* a closing brace *)
    destruct (currentPart st) as [[i v | i variables modifier]|]; try discriminate.
    destruct Hinv as (Hps & Hi & Hraw).
    intros (lastV & _ & Hrest)%bind_OK.
    destruct (String.eqb (name lastV) EmptyString); [discriminate |].
    apply bind_OK in Hrest as (variables' & Hvars & [= <-]). cbn [currentPart parts].
    split; [| apply lastIsLiteral_snoc].
    apply (partsInv_weaken (S i)); [lia |].
    apply (partsInv_snoc _ (SubstitutionPart i variables' _ modifier));
      cbn [partIndex literalNonEmpty partVariables isLiteral]; try easy.
    eapply mapi_result_Forall; [| exact Hraw | exact Hvars].
    intros x j y Hx Hy. exact (resolveVariable_wellFormed _ _ _ _ _ _ Hx Hy).
  - (* any other code unit *)
    destruct (currentPart st) as [[i v | i variables modifier]|].
    + intros [= <-]. cbn [currentPart parts].
      destruct Hinv as (Hps & Hlast & Hi & Hv).
      split; [exact Hps | split; [exact Hlast | split; [lia | apply append_not_empty]]].
    + destruct Hinv as (Hps & Hi & Hraw).
      intros (found & _ & Hrest)%bind_OK.
      destruct found as [m|].
      { injection Hrest as <-. cbn [currentPart parts].
        split; [exact Hps | split; [lia | exact Hraw]]. }
      destruct (Ascii.eqb c ",").
      * apply bind_OK in Hrest as (lastV & _ & Hpush).
        destruct (String.eqb (name lastV) EmptyString); [discriminate |].
        injection Hpush as <-. cbn [currentPart parts].
        split; [exact Hps | split; [lia |]].
        apply Forall_app. split; [assumption |].
        constructor; [apply newVariable_raw | constructor].
      * injection Hrest as <-. cbn [currentPart parts].
        split; [exact Hps | split; [lia |]].
        now apply appendToLastName_raw.
    + intros [= <-]. cbn [currentPart parts].
      destruct Hinv as (Hps & Hlast).
      split; [exact Hps | split; [exact Hlast | split; [lia | discriminate]]].
Qed.

Lemma parserLoop_inv (template : string) (matchers : gmap string ParameterMatcher)
    (chars : string) :
  forall index st st',
    stateInv index st ->
    parserLoop template matchers chars index st = OK st' ->
    stateInv (index + String.length chars) st'.
Proof.
  induction chars as [|c chars IH]; intros index st st' Hinv; cbn [parserLoop].
  - intros [= <-]. cbn [String.length]. now rewrite Nat.add_0_r.
  - intros (st1 & Hstep & Hloop)%bind_OK.
    cbn [String.length]. rewrite Nat.add_succ_r.
    apply (IH (S index) st1); [| exact Hloop].
    eapply parserStep_inv; eassumption.
Qed.

Lemma templateParser_inv (template : string) (matchers : gmap string ParameterMatcher)
    (ps : list TemplatePart) :
  templateParser template matchers = OK ps ->
  partsInv (S (String.length template)) ps.
Proof.
  unfold templateParser. intros (st & Hloop & Hend)%bind_OK.
  apply parserLoop_inv in Hloop.
  2:{ split; [apply partsInv_nil | reflexivity]. }
  cbn [Nat.add] in Hloop. unfold stateInv in Hloop.
  destruct (currentPart st) as [[i v | i variables modifier]|]; try discriminate.
  - injection Hend as <-. destruct Hloop as (Hps & Hlast & Hi & Hv).
    apply (partsInv_weaken (S i)); [lia |].
    now apply (partsInv_snoc _ (LiteralPart i v)).
  - injection Hend as <-. destruct Hloop as (Hps & _).
    apply (partsInv_weaken (String.length template)); [lia | assumption].
Qed.

(** C10: in the parts returned for an accepted template the offsets
    increase strictly, no literal has an empty text, and no literal follows
    a literal. *)
Theorem templateParser_parts_shape (template : string)
    (matchers : gmap string ParameterMatcher) (ps : list TemplatePart) :
  templateParser template matchers = OK ps ->
  (forall i j p q, (i < j)%nat -> ps !! i = Some p -> ps !! j = Some q ->
                   (partIndex p < partIndex q)%nat)
  /\ (forall index value, In (LiteralPart index value) ps -> value <> EmptyString)
  /\ (forall i p q, ps !! i = Some p -> ps !! S i = Some q ->
                    ~ (isLiteral p = true /\ isLiteral q = true)).
Proof.
  intros [Ho _ Hne Hadj _]%templateParser_inv. repeat split.
  - exact Ho.
  - intros index value Hin.
    rewrite List.Forall_forall in Hne. exact (Hne _ Hin).
  - exact Hadj.
Qed.

(** *** A substitution with one variable *)

Lemma parserLoop_append (template : string) (matchers : gmap string ParameterMatcher)
    (a b : string) :
  forall index st,
    parserLoop template matchers (a ++ b) index st
    = let* st' := parserLoop template matchers a index st in
      parserLoop template matchers b (index + String.length a) st'.
Proof.
  induction a as [|c a IH]; intros index st.
  - cbn [String.append parserLoop bind String.length]. now rewrite Nat.add_0_r.
  - cbn [String.append parserLoop String.length].
    destruct (parserStep template matchers index c st) as [st1|e]; cbn [bind];
      [| reflexivity].
    rewrite IH. now rewrite Nat.add_succ_r.
Qed.

Lemma plainChar_eqb (c : ascii) :
  plainChar c = true ->
  Ascii.eqb c "{" = false /\ Ascii.eqb c "}" = false /\ Ascii.eqb c "," = false.
Proof.
  unfold plainChar. intros [[H1 H2]%andb_prop H3]%andb_prop.
  now rewrite !negb_true_iff in *.
Qed.

(** Once a modifier or a first code unit is read, plain code units go to the
    name. *)
Lemma parserLoop_name (template : string) (matchers : gmap string ParameterMatcher)
    (ps : list TemplatePart) (start : nat) (modifier : option Modifier) (s : string) :
  forallb plainChar (list_ascii_of_string s) = true ->
  forall index v,
    modifier <> None \/ name v <> EmptyString ->
    parserLoop template matchers s index
      {| parts := ps; currentPart := Some (OpenSubstitution start [v] modifier) |}
    = OK {| parts := ps;
            currentPart :=
              Some (OpenSubstitution start
                      [{| name := name v ++ s; explode := explode v;
                          truncate := truncate v |}] modifier) |}.
Proof.
  induction s as [|c s IH]; intros Hplain index v Hstarted.
  - cbn [parserLoop]. rewrite append_nil_r. now destruct v.
  - cbn [list_ascii_of_string forallb] in Hplain.
    apply andb_prop in Hplain as [Hc Hs].
    destruct (plainChar_eqb c Hc) as (Hopen & Hclose & Hcomma).
    cbn [parserLoop]. unfold parserStep. rewrite Hopen, Hclose.
    cbn [currentPart parts].
    assert (Hnone : modifierHere c [v] modifier = OK None).
    { unfold modifierHere. destruct modifier as [m|]; [reflexivity |].
      cbn [firstVariable bind]. destruct Hstarted as [Hm | Hn]; [contradiction |].
      destruct (String.eqb (name v) EmptyString) eqn:E; [| reflexivity].
      now apply String.eqb_eq in E. }
    rewrite Hnone. cbn [bind]. rewrite Hcomma. cbn [appendToLastName bind].
    rewrite IH; [| exact Hs | right; cbn [name]; apply append_not_empty].
    cbn [name explode truncate]. now rewrite append_assoc.
Qed.

Lemma modifierOfChar_not (c : ascii) (m : Modifier) :
  modifierOfChar c = Some m ->
  Ascii.eqb c EXPLODE = false /\ Ascii.eqb c TRUNCATE_SEPARATOR = false.
Proof.
  destruct c as [[|] [|] [|] [|] [|] [|] [|] [|]]; vm_compute;
    intros Hc; try discriminate Hc; split; reflexivity.
Qed.

Lemma lastChar_cons (c : ascii) (s : string) :
  s <> EmptyString -> lastChar (String c s) = lastChar s.
Proof. destruct s; [contradiction | reflexivity]. Qed.

(** The state before the closing brace of [{body}]. *)
Lemma parserLoop_body (template : string) (matchers : gmap string ParameterMatcher)
    (body : string) :
  forallb plainChar (list_ascii_of_string body) = true ->
  lastChar body = Some EXPLODE ->
  includesChar TRUNCATE_SEPARATOR body = true ->
  exists v modifier,
    parserLoop template matchers body 1
      {| parts := []; currentPart := Some (OpenSubstitution 0 [newVariable] None) |}
    = OK {| parts := []; currentPart := Some (OpenSubstitution 0 [v] modifier) |}
    /\ lastChar (name v) = Some EXPLODE
    /\ includesChar TRUNCATE_SEPARATOR (name v) = true.
Proof.
  intros Hplain Hlast Hcolon.
  destruct body as [|c body]; [discriminate |].
  cbn [list_ascii_of_string forallb] in Hplain.
  apply andb_prop in Hplain as [Hc Hbody].
  destruct (plainChar_eqb c Hc) as (Hopen & Hclose & Hcomma).
  cbn [parserLoop]. unfold parserStep at 1. rewrite Hopen, Hclose.
  cbn [currentPart parts modifierHere firstVariable bind name newVariable].
  cbn [String.eqb]. destruct (modifierOfChar c) as [m|] eqn:Hm.
  - destruct (modifierOfChar_not c m Hm) as [Hstar Hsep].
    cbn [includesChar] in Hcolon. rewrite Hsep in Hcolon. cbn [orb] in Hcolon.
    assert (Hne : body <> EmptyString) by (intros ->; discriminate).
    rewrite lastChar_cons in Hlast by exact Hne.
    exists {| name := EmptyString ++ body; explode := false; truncate := None |}, (Some m).
    split; [| split; assumption].
    exact (parserLoop_name template matchers [] 0 (Some m) body Hbody 2 newVariable
                           ltac:(left; discriminate)).
  - rewrite Hcomma. cbn [appendToLastName name explode truncate String.append].
    exists {| name := String c EmptyString ++ body; explode := false; truncate := None |},
           None.
    split; [| split; assumption].
    exact (parserLoop_name template matchers [] 0 None body Hbody 2
             {| name := String c EmptyString; explode := false; truncate := None |}
             ltac:(right; discriminate)).
Qed.

Lemma templateParser_explode_truncate (matchers : gmap string ParameterMatcher)
    (body : string) :
  forallb plainChar (list_ascii_of_string body) = true ->
  lastChar body = Some EXPLODE ->
  includesChar TRUNCATE_SEPARATOR body = true ->
  templateParser (String "{" (body ++ "}")) matchers
  = throwAt E_BAD_SUBSTITUTION_TRUNCATE (String "{" (body ++ "}"))
            [0%nat; S (String.length body)].
Proof.
  intros Hplain Hlast Hcolon. set (template := String "{" (body ++ "}")).
  destruct (parserLoop_body template matchers body Hplain Hlast Hcolon)
    as (v & modifier & Hloop & Hv1 & Hv2).
  unfold templateParser. unfold template at 2.
  cbn [parserLoop]. unfold parserStep at 1. cbn [Ascii.eqb Bool.eqb currentPart bind parts].
  rewrite parserLoop_append, Hloop. cbn [bind parserLoop].
  unfold parserStep. cbn [Ascii.eqb Bool.eqb currentPart parts lastVariable last bind].
  assert (Hname : String.eqb (name v) EmptyString = false).
  { destruct (name v); [discriminate | reflexivity]. }
  rewrite Hname. cbn [mapi_result].
  rewrite (resolveVariable_explode_truncate template matchers 0
             (1 + String.length body) v Hv1 Hv2).
  reflexivity.
Qed.

(** C4: a variable written with a closing [*] and a [:] is refused with
    [E_BAD_SUBSTITUTION_TRUNCATE], and so is the template made of it, as
    [{hello:2*}] is; in the parts of an accepted template no variable has
    both [explode] and [truncate], and a [truncate] is not negative. *)
Theorem explode_truncate_exclusive :
  (forall template matchers start index v,
      lastChar (name v) = Some EXPLODE ->
      includesChar TRUNCATE_SEPARATOR (name v) = true ->
      resolveVariable template matchers start index v
      = throwAt E_BAD_SUBSTITUTION_TRUNCATE template [start; index])
  /\ (forall matchers body,
         forallb plainChar (list_ascii_of_string body) = true ->
         lastChar body = Some EXPLODE ->
         includesChar TRUNCATE_SEPARATOR body = true ->
         templateParser (String "{" (body ++ "}")) matchers
         = throwAt E_BAD_SUBSTITUTION_TRUNCATE (String "{" (body ++ "}"))
                   [0%nat; S (String.length body)])
  /\ (forall matchers,
         templateParser "{hello:2*}" matchers
         = throwAt E_BAD_SUBSTITUTION_TRUNCATE "{hello:2*}" [0%nat; 9%nat])
  /\ (forall template matchers ps index variables ms modifier v,
         templateParser template matchers = OK ps ->
         In (SubstitutionPart index variables ms modifier) ps ->
         In v variables ->
         ~ (explode v = true /\ truncate v <> None)
         /\ (forall n, truncate v = Some n -> (0 <= n)%Z)).
Proof.
  split; [| split; [| split]].
  - apply resolveVariable_explode_truncate.
  - apply templateParser_explode_truncate.
  - intros matchers. reflexivity.
  - intros template matchers ps index variables ms modifier v
           [_ _ _ _ Hvars]%templateParser_inv Hpart Hv.
    rewrite List.Forall_forall in Hvars. specialize (Hvars _ Hpart).
    cbn [partVariables] in Hvars. rewrite List.Forall_forall in Hvars.
    destruct (Hvars _ Hv) as [Hexcl Hpos]. split; [| exact Hpos].
    intros [He Ht]. auto.
Qed.

(** ** Escaping *)

Lemma encodeWith_append (keep : ascii -> bool) (a b : string) :
  encodeWith keep (a ++ b) = encodeWith keep a ++ encodeWith keep b.
Proof.
  induction a as [|c a IH]; [reflexivity |].
  cbn [encodeWith String.append]. rewrite IH.
  destruct (keep c); [reflexivity | now rewrite append_assoc].
Qed.

Lemma encodeWith_kept (keep : ascii -> bool) (s : string) :
  (forall c, includesChar c s = true -> keep c = true) -> encodeWith keep s = s.
Proof.
  induction s as [|c s IH]; [reflexivity |]. intros Hs.
  cbn [encodeWith]. rewrite (Hs c) by (cbn; now rewrite Ascii.eqb_refl).
  rewrite IH; [reflexivity |].
  intros d Hd. apply Hs. cbn [includesChar]. rewrite Hd. apply orb_true_r.
Qed.

Lemma notDigit_eqb (c d : ascii) :
  isDigit c = false -> isDigit d = true -> Ascii.eqb c d = false.
Proof.
  intros Hc Hd. destruct (Ascii.eqb c d) eqn:E; [| reflexivity].
  apply Ascii.eqb_eq in E as ->. congruence.
Qed.

Lemma undoubleEncode_unfold (c : ascii) (rest : string) :
  undoubleEncode (String c rest)
  = match startsDoubleEncoded (String c rest) with
    | Some (d1, d2, r) => String "%" (String d1 (String d2 (undoubleEncode r)))
    | None => String c (undoubleEncode rest)
    end.
Proof.
  destruct rest as [|c2 [|c5 [|d1 [|d2 r]]]]; try reflexivity.
  cbn [startsDoubleEncoded undoubleEncode].
  now destruct (Ascii.eqb c "%" && Ascii.eqb c2 "2" && Ascii.eqb c5 "5"
                && isDigit d1 && isDigit d2).
Qed.

Lemma undoubleEncode_head (c : ascii) (s : string) :
  Ascii.eqb c "%" = false -> undoubleEncode (String c s) = String c (undoubleEncode s).
Proof.
  intros Hc. rewrite undoubleEncode_unfold.
  destruct s as [|c2 [|c5 [|d1 [|d2 r]]]]; try reflexivity.
  cbn [startsDoubleEncoded]. now rewrite Hc.
Qed.

Ltac falsify_match H :=
  cbn [startsDoubleEncoded String.append]; rewrite ?H, ?andb_false_r; cbn [andb].

(** No match of [%25dd] spans a code unit that is not a digit, unless it
    starts there. *)
Lemma undoubleEncode_cut (c : ascii) (y : string) :
  isDigit c = false ->
  forall n x, (String.length x <= n)%nat ->
    undoubleEncode (x ++ String c y) = undoubleEncode x ++ undoubleEncode (String c y).
Proof.
  intros Hc.
  assert (H2 : Ascii.eqb c "2" = false) by now apply notDigit_eqb.
  assert (H5 : Ascii.eqb c "5" = false) by now apply notDigit_eqb.
  induction n as [|n IH]; intros x Hx.
  - destruct x; [reflexivity | cbn in Hx; lia].
  - destruct x as [|a x]; [reflexivity |].
    cbn [String.length] in Hx.
    change (String a x ++ String c y) with (String a (x ++ String c y)).
    rewrite (undoubleEncode_unfold a (x ++ String c y)), (undoubleEncode_unfold a x).
    destruct x as [|b1 [|b2 [|b3 [|b4 x]]]].
    + assert (startsDoubleEncoded (String a (EmptyString ++ String c y)) = None) as ->.
      { destruct y as [|y1 [|y2 [|y3 y]]]; try reflexivity. now falsify_match H2. }
      reflexivity.
    + assert (startsDoubleEncoded (String a (String b1 EmptyString ++ String c y)) = None)
        as ->.
      { destruct y as [|y1 [|y2 y]]; try reflexivity. now falsify_match H5. }
      cbn [startsDoubleEncoded]. rewrite IH by (cbn in *; lia). reflexivity.
    + assert (startsDoubleEncoded
                (String a (String b1 (String b2 EmptyString) ++ String c y)) = None) as ->.
      { destruct y as [|y1 y]; try reflexivity. now falsify_match Hc. }
      cbn [startsDoubleEncoded]. rewrite IH by (cbn in *; lia). reflexivity.
    + assert (startsDoubleEncoded
                (String a (String b1 (String b2 (String b3 EmptyString)) ++ String c y))
              = None) as ->.
      { now falsify_match Hc. }
      cbn [startsDoubleEncoded]. rewrite IH by (cbn in *; lia). reflexivity.
    + cbn [startsDoubleEncoded String.append].
      destruct (Ascii.eqb a "%" && Ascii.eqb b1 "2" && Ascii.eqb b2 "5"
                && isDigit b3 && isDigit b4).
      * rewrite (IH x) by (cbn in *; lia). reflexivity.
      * change (String b1 (String b2 (String b3 (String b4 (x ++ String c y)))))
          with (String b1 (String b2 (String b3 (String b4 x))) ++ String c y).
        rewrite IH by (cbn in *; lia). reflexivity.
Qed.

Lemma undoubleEncode_append (c : ascii) (x y : string) :
  isDigit c = false ->
  undoubleEncode (x ++ String c y) = undoubleEncode x ++ undoubleEncode (String c y).
Proof. intros Hc. now apply (undoubleEncode_cut c y Hc (String.length x)). Qed.

Lemma reservedKept_facts (c : ascii) :
  includesChar c reservedKept = true ->
  (uriUnescaped c || uriReservedPlusHash c) = true
  /\ isDigit c = false /\ Ascii.eqb c "%" = false.
Proof.
  destruct c as [[|] [|] [|] [|] [|] [|] [|] [|]]; vm_compute;
    intros Hc; try discriminate Hc; repeat split.
Qed.

Lemma doNotEscape_keeps (a b : string) (c : ascii) :
  includesChar c reservedKept = true ->
  doNotEscape (a ++ String c b) = doNotEscape a ++ String c (doNotEscape b).
Proof.
  intros (Hkeep & Hdigit & Hpercent)%reservedKept_facts.
  unfold doNotEscape, encodeURI. rewrite encodeWith_append.
  cbn [encodeWith]. rewrite Hkeep.
  rewrite undoubleEncode_append by assumption.
  now rewrite undoubleEncode_head.
Qed.

Lemma isDigit_kept (d : ascii) :
  isDigit d = true -> (uriUnescaped d || uriReservedPlusHash d) = true.
Proof. intros Hd. unfold uriUnescaped. rewrite Hd. now rewrite orb_true_r. Qed.

Lemma doNotEscape_decimal_triplet (a b : string) (d1 d2 : ascii) :
  isDigit d1 = true -> isDigit d2 = true ->
  doNotEscape (a ++ String "%" (String d1 (String d2 b)))
  = doNotEscape a ++ String "%" (String d1 (String d2 (doNotEscape b))).
Proof.
  intros H1 H2. unfold doNotEscape, encodeURI.
  rewrite encodeWith_append. cbn [encodeWith].
  rewrite (isDigit_kept _ H1), (isDigit_kept _ H2).
  change ((uriUnescaped "%" || uriReservedPlusHash "%")%bool) with false.
  change (percentEncode "%") with "%25". cbn [String.append].
  rewrite undoubleEncode_append by reflexivity.
  rewrite (undoubleEncode_unfold "%"). cbn [startsDoubleEncoded].
  rewrite H1, H2. reflexivity.
Qed.

(** ** The expansion engine *)

(** *** Joining *)

Lemma concat_empty_cons (x : string) (xs : list string) :
  String.concat EmptyString (x :: xs) = x ++ String.concat EmptyString xs.
Proof. destruct xs; cbn [String.concat]; [now rewrite append_nil_r | reflexivity]. Qed.

Lemma join_flat (sep x : string) (xs : list string) :
  join sep (x :: xs) = x ++ String.concat EmptyString (map (fun e => sep ++ e) xs).
Proof.
  unfold join. revert x. induction xs as [|y xs IH]; intros x.
  - cbn. now rewrite append_nil_r.
  - change (String.concat sep (x :: y :: xs)) with (x ++ sep ++ String.concat sep (y :: xs)).
    rewrite IH. cbn [map]. rewrite concat_empty_cons. now rewrite append_assoc.
Qed.

(** The [reduce] of [joinValues] is a concatenation of one piece for each
    escaped value. *)
Lemma reduce_from_pieces (g : nat -> string -> string) (l : list string) :
  forall i acc,
    reduce_from (fun str ev index => str ++ g index ev) i l acc
    = acc ++ String.concat EmptyString (imap (fun k ev => g (i + k)%nat ev) l).
Proof.
  induction l as [|x l IH]; intros i acc; cbn [reduce_from].
  - cbn. now rewrite append_nil_r.
  - rewrite IH, imap_cons, concat_empty_cons, append_assoc, Nat.add_0_r.
    do 3 f_equal. apply imap_ext. intros k y _. cbn. f_equal. lia.
Qed.

Lemma joinValues_pieces (spec : ModifierSpec) (variable : TemplateVariable)
    (variableNames escapedValues : list string) :
  joinValues spec variable variableNames escapedValues
  = String.concat EmptyString
      (imap (fun k ev =>
               (if (0 <? k)%nat
                then (if explode variable then separator spec else ",")
                else EmptyString)
               ++ nth k variableNames EmptyString ++ ev)
            escapedValues).
Proof.
  unfold joinValues, reduce.
  rewrite (reduce_from_pieces
             (fun index ev =>
                (if (0 <? index)%nat
                 then (if explode variable then separator spec else ",")
                 else EmptyString)
                ++ nth index variableNames EmptyString ++ ev)).
  reflexivity.
Qed.

Lemma pieces_join (sep : string) (l : list string) :
  forall h : nat -> string -> string,
    String.concat EmptyString
      (imap (fun k ev => (if (0 <? k)%nat then sep else EmptyString) ++ h k ev) l)
    = join sep (imap h l).
Proof.
  destruct l as [|x l]; intros h; [reflexivity |].
  rewrite !imap_cons, concat_empty_cons, join_flat. cbn [Nat.ltb Nat.leb String.append].
  f_equal. revert h. induction l as [|y l IH]; intros h; [reflexivity |].
  rewrite !imap_cons. cbn [map]. rewrite !concat_empty_cons.
  cbn [compose Nat.ltb Nat.leb]. f_equal.
  apply (IH (fun k ev => h (S k) ev)).
Qed.

(** *** The constants of [serializeVariable] *)

Lemma serializeValues_OK (matcher : ParameterMatcher) (variable : TemplateVariable)
    (values : list JsValue) (l : list string) :
  serializeValues matcher variable values = OK l ->
  l = map (serialize matcher) values /\ Forall (fun v => isValid matcher v = true) values.
Proof.
  unfold serializeValues. generalize 0%nat.
  revert l. induction values as [|v values IH]; intros l i; cbn [mapi_result].
  - intros [= <-]. split; constructor.
  - intros (y & Hy & Hrest)%bind_OK. apply bind_OK in Hrest as (ys & Hys & [= <-]).
    destruct (isValid matcher v) eqn:Hv; cbn [negb] in Hy; [| discriminate].
    injection Hy as <-. destruct (IH _ _ Hys) as [-> Hall].
    split; [reflexivity | now constructor].
Qed.

Lemma variableNamesOf_nth (spec : ModifierSpec) (variable : TemplateVariable)
    (param : JsValue) (truncatedValues : list string) (k : nat) :
  (k < length truncatedValues)%nat ->
  nth k (variableNamesOf spec variable param truncatedValues) EmptyString
  = if (named spec || (explode variable && valueIsARecord param))
       && ((k =? 0)%nat || explode variable)
    then escapeWith spec
           (if valueIsARecord param && explode variable
            then keyAt (objectKeys param) k else name variable)
         ++ (if trimEmptyString spec && isEmptyValues truncatedValues
             then EmptyString else "=")
    else EmptyString.
Proof.
  intros Hk. rewrite nth_lookup. unfold variableNamesOf.
  rewrite list_lookup_imap.
  destruct (lookup_lt_is_Some_2 _ _ Hk) as [x ->]. reflexivity.
Qed.

Lemma variableNamesOf_nth_later (spec : ModifierSpec) (variable : TemplateVariable)
    (param : JsValue) (truncatedValues : list string) (k : nat) :
  explode variable = false -> (0 < k)%nat ->
  nth k (variableNamesOf spec variable param truncatedValues) EmptyString = EmptyString.
Proof.
  intros He Hk. rewrite nth_lookup. unfold variableNamesOf.
  rewrite list_lookup_imap. destruct (truncatedValues !! k); [| reflexivity].
  cbn. rewrite He. destruct k; [lia |]. cbn. now rewrite orb_false_r, andb_false_r.
Qed.

Lemma matcherAt_inheritedAt (matchers : list (option ParameterMatcher)) (index : nat)
    (matcher : ParameterMatcher) :
  matcherAt matchers index = OK matcher -> inheritedAt matchers index = false.
Proof.
  unfold matcherAt, inheritedAt.
  destruct (matchers !! index) as [[m|]|]; [reflexivity | discriminate | reflexivity].
Qed.

Lemma serializeVariable_Some (spec : ModifierSpec) (params : gmap string JsValue)
    (matchers : list (option ParameterMatcher)) (variable : TemplateVariable)
    (index : nat) (out : string) :
  inheritedAt matchers index = false ->
  serializeVariable spec params matchers variable index = OK (Some out) ->
  exists matcher,
    let param := paramOf params (name variable) in
    let truncatedValues :=
      truncateValues variable (map (serialize matcher) (valuesOf param)) in
    matcherAt matchers index = OK matcher
    /\ isNullOrUndefined param = false
    /\ isEmptyValues truncatedValues && valueIsARecord param = false
    /\ out = joinValues spec variable
                        (variableNamesOf spec variable param truncatedValues)
                        (escapeValues spec variable param truncatedValues).
Proof.
  intros Hown. unfold serializeVariable. rewrite Hown.
  destruct (isNullOrUndefined (paramOf params (name variable))) eqn:Hnull; [discriminate |].
  intros (matcher & Hm & Hrest)%bind_OK. exists matcher. cbn zeta.
  destruct (matcherHasType matcher type_record && _); [discriminate |].
  destruct (matcherHasType matcher type_list && _); [discriminate |].
  destruct (matcherHasType matcher type_value && _); [discriminate |].
  apply bind_OK in Hrest as (serialized & Hser & Hout).
  apply serializeValues_OK in Hser as [-> _].
  destruct (isEmptyValues _ && valueIsARecord _) eqn:Hempty; [discriminate |].
  injection Hout as <-. auto.
Qed.

Lemma imap_constant {A B} (g : A -> B) (l : list A) :
  forall h : nat -> A -> B, (forall k x, h k x = g x) -> imap h l = map g l.
Proof.
  induction l as [|x l IH]; intros h Hh; [reflexivity |].
  rewrite imap_cons. cbn [map]. rewrite Hh. f_equal.
  apply IH. intros k y. apply Hh.
Qed.

Lemma joinValues_once (spec : ModifierSpec) (variable : TemplateVariable)
    (param : JsValue) (truncatedValues : list string) (e : string) (es : list string) :
  explode variable = false ->
  joinValues spec variable (variableNamesOf spec variable param truncatedValues) (e :: es)
  = nth 0 (variableNamesOf spec variable param truncatedValues) EmptyString
    ++ join "," (e :: es).
Proof.
  intros He. rewrite joinValues_pieces, imap_cons, concat_empty_cons, join_flat.
  cbn [Nat.ltb Nat.leb String.append]. rewrite append_assoc. do 2 f_equal.
  rewrite He. f_equal. apply imap_constant. intros k ev. cbn [compose].
  rewrite variableNamesOf_nth_later by (assumption || lia). reflexivity.
Qed.

Lemma joinValues_each (spec : ModifierSpec) (variable : TemplateVariable)
    (variableNames escapedValues : list string) :
  explode variable = true ->
  joinValues spec variable variableNames escapedValues
  = join (separator spec)
         (imap (fun k ev => nth k variableNames EmptyString ++ ev) escapedValues).
Proof.
  intros He. rewrite joinValues_pieces, He.
  apply (pieces_join (separator spec) escapedValues
                     (fun k ev => nth k variableNames EmptyString ++ ev)).
Qed.

Lemma escapeValues_exploded (spec : ModifierSpec) (variable : TemplateVariable)
    (param : JsValue) (truncatedValues : list string) :
  explode variable = true ->
  escapeValues spec variable param truncatedValues
  = map (escapeWith spec) truncatedValues.
Proof. intros He. unfold escapeValues. now rewrite He, andb_false_r. Qed.

Lemma imap_map {A B C} (f : nat -> B -> C) (g : A -> B) (l : list A) :
  imap f (map g l) = imap (fun k x => f k (g x)) l.
Proof.
  revert f. induction l as [|x l IH]; intros f; [reflexivity |].
  cbn [map]. rewrite !imap_cons. f_equal. apply IH.
Qed.

Lemma imap_ext_lt {A B} (f g : nat -> A -> B) (l : list A) :
  (forall k x, (k < length l)%nat -> f k x = g k x) -> imap f l = imap g l.
Proof.
  intros Hfg. apply imap_ext. intros k x Hk. apply Hfg.
  now apply lookup_lt_Some in Hk.
Qed.

Lemma named_modifier (m : Modifier) :
  named (MODIFIERS_SPECS m) = true ->
  noEscape (MODIFIERS_SPECS m) = false
  /\ (m = mod_semicolon \/ m = mod_question \/ m = mod_ampersand).
Proof. destruct m; cbn; intros; try discriminate; auto. Qed.

Lemma equalsSign_eq (m : Modifier) (truncatedValues : list string) :
  (if trimEmptyString (MODIFIERS_SPECS m) && isEmptyValues truncatedValues
   then EmptyString else "=")
  = equalsSign m truncatedValues.
Proof. destruct m; reflexivity. Qed.

(** The expansion of one variable under a named operator, in closed form. *)
Lemma serializeVariable_named (m : Modifier) (params : gmap string JsValue)
    (matchers : list (option ParameterMatcher)) (variable : TemplateVariable)
    (index : nat) (matcher : ParameterMatcher) (out : string) :
  named (MODIFIERS_SPECS m) = true ->
  matcherAt matchers index = OK matcher ->
  serializeVariable (MODIFIERS_SPECS m) params matchers variable index = OK (Some out) ->
  let param := paramOf params (name variable) in
  let truncatedValues :=
    truncateValues variable (map (serialize matcher) (valuesOf param)) in
  (explode variable = false -> truncatedValues <> [] ->
   out = escape (name variable) ++ equalsSign m truncatedValues
         ++ join "," (escapeValues (MODIFIERS_SPECS m) variable param truncatedValues))
  /\ (explode variable = true ->
      out = join (separator (MODIFIERS_SPECS m))
                 (imap (fun k value =>
                          escape (if valueIsARecord param
                                  then keyAt (objectKeys param) k
                                  else name variable)
                          ++ equalsSign m truncatedValues ++ escape value)
                       truncatedValues)).
Proof.
  intros Hnamed Hm Hout.
  apply serializeVariable_Some in Hout as (matcher' & Hm' & _ & _ & ->);
    [| exact (matcherAt_inheritedAt _ _ _ Hm)].
  rewrite Hm in Hm'. injection Hm' as <-.
  destruct (named_modifier m Hnamed) as [Hesc _].
  cbn zeta. set (param := paramOf params (name variable)).
  set (tv := truncateValues variable (map (serialize matcher) (valuesOf param))).
  split.
  - intros He Hne.
    destruct (escapeValues (MODIFIERS_SPECS m) variable param tv) as [|e es] eqn:Hev.
    { unfold escapeValues in Hev. apply map_eq_nil in Hev.
      destruct (valueIsARecord param && negb (explode variable)); [| contradiction].
      destruct tv as [|t tv']; [contradiction |].
      unfold interleaveKeys, reduce in Hev. cbn [reduce_from] in Hev.
      assert (Hlen : forall l i (acc : list string),
                 (0 < length acc)%nat ->
                 (0 < length (reduce_from
                    (fun acc0 truncatedValue index0 =>
                       (acc0 ++ [keyAt (objectKeys param) index0; truncatedValue])%list)
                    i l acc))%nat).
      { induction l as [|x l IH]; intros i acc Hacc; cbn [reduce_from]; [exact Hacc |].
        apply IH. rewrite length_app. cbn. lia. }
      specialize (Hlen tv' 1%nat ([] ++ [keyAt (objectKeys param) 0; t])%list).
      rewrite Hev in Hlen. cbn in Hlen. lia. }
    rewrite joinValues_once by exact He.
    rewrite variableNamesOf_nth by (destruct tv; [contradiction | cbn; lia]).
    rewrite Hnamed, He, andb_false_r. cbn [orb andb Nat.eqb].
    unfold escapeWith at 1. rewrite Hesc, equalsSign_eq.
    now rewrite append_assoc.
  - intros He. rewrite joinValues_each by exact He.
    rewrite escapeValues_exploded by exact He.
    rewrite imap_map. f_equal. apply imap_ext_lt. intros k t Hk.
    rewrite variableNamesOf_nth by exact Hk.
    rewrite Hnamed, He, !andb_true_r, orb_true_r. cbn [orb andb].
    unfold escapeWith. rewrite Hesc, equalsSign_eq. now rewrite append_assoc.
Qed.

Lemma equalsSign_empty (m : Modifier) (truncatedValues : list string) :
  equalsSign m truncatedValues = EmptyString
  <-> m = mod_semicolon /\ isEmptyValues truncatedValues = true.
Proof.
  destruct m; cbn [equalsSign]; try (split; [discriminate | now intros [[=] _]]).
  destruct (isEmptyValues truncatedValues); split; easy.
Qed.

(** C6: under a named operator the name of a variable (or the key of an
    exploded record) is followed by [=], except under [;] when the value of
    the variable is empty, that is when every serialized and truncated
    element of it is the empty string; [trimEmptyString] is set for [;]
    alone. *)
Theorem named_equals_sign :
  (forall m, named (MODIFIERS_SPECS m) = true
             <-> m = mod_semicolon \/ m = mod_question \/ m = mod_ampersand)
  /\ (forall m, trimEmptyString (MODIFIERS_SPECS m) = true <-> m = mod_semicolon)
  /\ (forall m truncatedValues,
         (equalsSign m truncatedValues = EmptyString
          <-> m = mod_semicolon /\ isEmptyValues truncatedValues = true)
         /\ (equalsSign m truncatedValues <> EmptyString ->
             equalsSign m truncatedValues = "="))
  /\ (forall m params matchers variable index matcher out,
         named (MODIFIERS_SPECS m) = true ->
         matcherAt matchers index = OK matcher ->
         serializeVariable (MODIFIERS_SPECS m) params matchers variable index
         = OK (Some out) ->
         let param := paramOf params (name variable) in
         let truncatedValues :=
           truncateValues variable (map (serialize matcher) (valuesOf param)) in
         (explode variable = false -> truncatedValues <> [] ->
          out = escape (name variable) ++ equalsSign m truncatedValues
                ++ join "," (escapeValues (MODIFIERS_SPECS m) variable param
                                          truncatedValues))
         /\ (explode variable = true ->
             out = join (separator (MODIFIERS_SPECS m))
                        (imap (fun k value =>
                                 escape (if valueIsARecord param
                                         then keyAt (objectKeys param) k
                                         else name variable)
                                 ++ equalsSign m truncatedValues ++ escape value)
                              truncatedValues)))
  /\ compileAndSerialize "{;empty}" {[ "empty" := asString ]}
                         {[ "empty" := JsString EmptyString ]} = OK ";empty"
  /\ compileAndSerialize "{?empty}" {[ "empty" := asString ]}
                         {[ "empty" := JsString EmptyString ]} = OK "?empty="
  /\ compileAndSerialize "{&empty}" {[ "empty" := asString ]}
                         {[ "empty" := JsString EmptyString ]} = OK "&empty=".
Proof.
  split; [| split; [| split; [| split; [| split; [| split]]]]].
  - intros m. destruct m; cbn; split; try discriminate; auto;
      intros [Hm | [Hm | Hm]]; discriminate Hm.
  - intros m. destruct m; cbn; split; congruence.
  - intros m tv. split; [apply equalsSign_empty |].
    destruct m; cbn [equalsSign]; try reflexivity.
    destruct (isEmptyValues tv); [contradiction | reflexivity].
  - apply serializeVariable_named.
  - vm_compute. reflexivity.
  - vm_compute. reflexivity.
  - vm_compute. reflexivity.
Qed.

(** *** Lists and records that do not explode *)

Lemma lookupProperty_fresh (key : string) (v : JsValue) (l : list (string * JsValue)) :
  ~ In key (map fst l) ->
  forall k, In k (map fst l) ->
            lookupProperty k ((key, v) :: l) = lookupProperty k l.
Proof.
  intros Hfresh k Hk. cbn [lookupProperty].
  destruct (String.eqb key k) eqn:E; [| reflexivity].
  apply String.eqb_eq in E as ->. contradiction.
Qed.

Lemma lookupProperty_keys (kvs : list (string * JsValue)) :
  List.NoDup (map fst kvs) ->
  map (fun k => lookupProperty k kvs) (map fst kvs) = map snd kvs.
Proof.
  induction kvs as [|[key v] kvs IH]; [reflexivity |].
  cbn [map fst snd]. intros Hnd. apply List.NoDup_cons_iff in Hnd as [Hfresh Hnd].
  cbn [lookupProperty]. rewrite String.eqb_refl. f_equal.
  rewrite <- IH by exact Hnd.
  apply List.map_ext_in. intros k Hk.
  now apply (lookupProperty_fresh key v kvs Hfresh).
Qed.

Lemma getProperty_keys (kvs : list (string * JsValue)) :
  List.NoDup (map fst kvs) ->
  map (getProperty (JsObject kvs)) (map fst kvs) = map snd kvs.
Proof. exact (lookupProperty_keys kvs). Qed.

Lemma interleave_from (keys : list string) (h : string * JsValue -> string)
    (kvs : list (string * JsValue)) :
  forall pre acc,
    keys = map fst (pre ++ kvs)%list ->
    reduce_from (fun acc0 truncatedValue index =>
                   (acc0 ++ [keyAt keys index; truncatedValue])%list)
                (length pre) (map h kvs) acc
    = (acc ++ flat_map (fun kv => [fst kv; h kv]) kvs)%list.
Proof.
  induction kvs as [|kv kvs IH]; intros pre acc Hkeys; cbn [map reduce_from flat_map].
  - now rewrite app_nil_r.
  - assert (Hkey : keyAt keys (length pre) = fst kv).
    { unfold keyAt. rewrite Hkeys, List.map_app, List.app_nth2; rewrite List.length_map;
        [| lia]. now rewrite Nat.sub_diag. }
    rewrite Hkey.
    replace (S (length pre)) with (length (pre ++ [kv])%list)
      by (rewrite length_app; cbn; lia).
    rewrite IH by (now rewrite <- List.app_assoc).
    now rewrite <- List.app_assoc.
Qed.

Lemma interleaveKeys_pairs (h : string * JsValue -> string)
    (kvs : list (string * JsValue)) :
  interleaveKeys (map fst kvs) (map h kvs) = flat_map (fun kv => [fst kv; h kv]) kvs.
Proof.
  unfold interleaveKeys, reduce.
  exact (interleave_from (map fst kvs) h kvs [] [] eq_refl).
Qed.

Lemma flat_map_map {A B C} (f : B -> C) (g : A -> list B) (l : list A) :
  map f (flat_map g l) = flat_map (fun x => map f (g x)) l.
Proof.
  induction l as [|x l IH]; [reflexivity |].
  cbn [flat_map]. now rewrite List.map_app, IH.
Qed.

(** C9: a list or a record that does not explode, under a named operator,
    has its name once, before the first element, and its elements (for a
    record its keys and values in turn) separated by commas. *)
Theorem nonexploded_name_once :
  (forall m params matchers variable index matcher out,
      named (MODIFIERS_SPECS m) = true ->
      explode variable = false ->
      matcherAt matchers index = OK matcher ->
      serializeVariable (MODIFIERS_SPECS m) params matchers variable index
      = OK (Some out) ->
      let element := fun v => truncateOne variable (serialize matcher v) in
      (forall l, paramOf params (name variable) = JsArray l -> l <> [] ->
                 out = escape (name variable) ++ equalsSign m (map element l)
                       ++ join "," (map (fun v => escape (element v)) l))
      /\ (forall kvs, paramOf params (name variable) = JsObject kvs ->
                      List.NoDup (map fst kvs) ->
                      out = escape (name variable) ++ "="
                            ++ join "," (flat_map (fun kv => [escape (fst kv);
                                                              escape (element (snd kv))])
                                                  kvs)))
  /\ compileAndSerialize "{;list}" {[ "list" := asStrings ]}
       {[ "list" := JsArray [JsString "red"; JsString "green"; JsString "blue"] ]}
     = OK ";list=red,green,blue"
  /\ compileAndSerialize "{?keys}" {[ "keys" := asKeyedStrings ]}
       {[ "keys" := JsObject [("semi", JsString ";"); ("dot", JsString ".")] ]}
     = OK "?keys=semi,%3B,dot,.".
Proof.
  split; [| split; vm_compute; reflexivity].
  intros m params matchers variable index matcher out Hnamed He Hm Hout.
  destruct (serializeVariable_Some _ _ _ _ _ _ (matcherAt_inheritedAt _ _ _ Hm) Hout)
    as (matcher' & Hm' & _ & Hrec & _).
  rewrite Hm in Hm'. injection Hm' as <-.
  destruct (serializeVariable_named m _ _ _ _ _ _ Hnamed Hm Hout) as [Hclosed _].
  destruct (named_modifier m Hnamed) as [Hesc _].
  specialize (Hclosed He). cbn zeta in *. split.
  - intros l Hparam Hl. rewrite Hparam in Hclosed.
    change (valuesOf (JsArray l)) with l in Hclosed.
    unfold truncateValues, escapeValues in Hclosed.
    change (valueIsARecord (JsArray l)) with false in Hclosed. cbn [andb] in Hclosed.
    rewrite !List.map_map in Hclosed.
    rewrite Hclosed by (destruct l; [contradiction | discriminate]).
    do 3 f_equal. apply List.map_ext. intros v. unfold escapeWith. now rewrite Hesc.
  - intros kvs Hparam Hnd. rewrite Hparam in Hclosed, Hrec.
    change (valueIsARecord (JsObject kvs)) with true in Hrec.
    rewrite andb_true_r in Hrec.
    unfold valuesOf in Hclosed, Hrec.
    change (valueIsAnObject (JsObject kvs)) with true in Hclosed, Hrec.
    change (valueIsAnArray (JsObject kvs)) with false in Hclosed, Hrec.
    cbn [objectKeys] in Hclosed, Hrec.
    rewrite getProperty_keys in Hclosed, Hrec by exact Hnd.
    unfold truncateValues, escapeValues in Hclosed, Hrec.
    change (valueIsARecord (JsObject kvs)) with true in Hclosed.
    rewrite He in Hclosed. cbn [andb negb objectKeys] in Hclosed.
    rewrite !List.map_map in Hclosed, Hrec.
    rewrite (interleaveKeys_pairs
               (fun kv => truncateOne variable (serialize matcher (snd kv)))) in Hclosed.
    rewrite flat_map_map in Hclosed.
    rewrite Hclosed.
    2:{ destruct kvs; [discriminate Hrec | discriminate]. }
    assert (Heq : equalsSign m
                    (map (fun x => truncateOne variable (serialize matcher (snd x))) kvs)
                  = "=").
    { destruct m; cbn [equalsSign]; try reflexivity. now rewrite Hrec. }
    rewrite Heq. do 3 f_equal.
    apply List.flat_map_ext. intros kv. cbn [map]. unfold escapeWith. now rewrite Hesc.
Qed.

(** *** The contributions of the variables of a substitution *)



Lemma serializeVariable_null (spec : ModifierSpec) (params : gmap string JsValue)
    (matchers : list (option ParameterMatcher)) (variable : TemplateVariable)
    (index : nat) :
  isNullOrUndefined (paramOf params (name variable)) = true ->
  serializeVariable spec params matchers variable index = OK None.
Proof. intros Hnull. unfold serializeVariable. now rewrite Hnull. Qed.

Lemma mapi_result_all_null (spec : ModifierSpec) (params : gmap string JsValue)
    (matchers : list (option ParameterMatcher)) (variables : list TemplateVariable) :
  Forall (fun v => isNullOrUndefined (paramOf params (name v)) = true) variables ->
  forall i, mapi_result (serializeVariable spec params matchers) i variables
            = OK (map (fun _ => None) variables).
Proof.
  induction 1 as [|v vs Hv Hvs IH]; intros i; cbn [mapi_result map]; [reflexivity |].
  rewrite serializeVariable_null by exact Hv. cbn [bind]. now rewrite IH.
Qed.

Lemma omap_all_none {A B} (l : list A) :
  omap id (map (fun _ => @None B) l) = [].
Proof. induction l as [|x l IH]; [reflexivity | exact IH]. Qed.







(** ** The claims on the matchers and on the escaping *)

(** C1, at the inputs where the code departs from it: [asBoolean.parse]
    throws on the two tokens and returns [false] on every other string. *)
Theorem asBoolean_parse_inverted :
  parse asBoolean "true" = throw E_CANNOT_PARSE_BOOLEAN [ArgString "true"]
  /\ parse asBoolean "false" = throw E_CANNOT_PARSE_BOOLEAN [ArgString "false"]
  /\ parse asBoolean "yes" = OK (JsBoolean false)
  /\ (forall s,
         parse asBoolean s
         = if String.eqb s "true" || String.eqb s "false"
           then throw E_CANNOT_PARSE_BOOLEAN [ArgString s]
           else OK (JsBoolean false)).
Proof.
  repeat split; try reflexivity. apply asBoolean_parse_eq.
Qed.

(** C5, as the code has it: the characters [: / ? # @ ! $ & ' ( ) * + , ; =]
    stay as they are wherever they stand, the two brackets are
    percent-encoded, and a percent triplet of two decimal digits stays one
    triplet. *)
Theorem doNotEscape_reserved :
  (forall a b c,
      includesChar c reservedKept = true ->
      doNotEscape (a ++ String c b) = doNotEscape a ++ String c (doNotEscape b))
  /\ doNotEscape "[" = "%5B"
  /\ doNotEscape "]" = "%5D"
  /\ compileAndSerialize "{+path}/here" {[ "path" := asString ]}
                         {[ "path" := JsString "/foo/bar" ]}
     = OK "/foo/bar/here"
  /\ (forall a b d1 d2,
         isDigit d1 = true -> isDigit d2 = true ->
         doNotEscape (a ++ String "%" (String d1 (String d2 b)))
         = doNotEscape a ++ String "%" (String d1 (String d2 (doNotEscape b)))).
Proof.
  split; [exact doNotEscape_keeps |].
  split; [reflexivity |]. split; [reflexivity |].
  split; [vm_compute; reflexivity |].
  exact doNotEscape_decimal_triplet.
Qed.


(** * Further properties of the compiler *)

(** ** What holds of every pushed part *)

Section EveryPart.
Variable P : TemplatePart -> Prop.
Variable template : string.
Variable matchers : gmap string ParameterMatcher.
Hypothesis P_literal : forall i v, P (LiteralPart i v).
Hypothesis P_substitution :
  forall start idx vs vs' modifier,
    vs <> [] ->
    mapi_result (fun v _ => resolveVariable template matchers start idx v) 0 vs
    = OK vs' ->
    P (SubstitutionPart start vs' (map (fun v => matchers !! name v) vs') modifier).

Lemma parserStep_Forall (index : nat) (c : ascii) (st st' : ParserState) :
  Forall P (parts st) ->
  parserStep template matchers index c st = OK st' ->
  Forall P (parts st').
Proof.
  intros Hps. unfold parserStep.
  destruct (Ascii.eqb c "{"); [| destruct (Ascii.eqb c "}")].
  - destruct (currentPart st) as [[i v | i variables modifier]|];
      cbn [bind]; try discriminate; intros [= <-]; cbn [parts]; [| exact Hps].
    apply Forall_app. split; [exact Hps | repeat constructor; apply P_literal].
  - destruct (currentPart st) as [[i v | i variables modifier]|]; try discriminate.
    intros (lastV & Hlast & Hrest)%bind_OK.
    destruct (String.eqb (name lastV) EmptyString); [discriminate |].
    apply bind_OK in Hrest as (variables' & Hvars & [= <-]). cbn [parts].
    apply Forall_app. split; [exact Hps |]. constructor; [| constructor].
    apply (P_substitution i index variables); [| exact Hvars].
    intros ->. discriminate Hlast.
  - destruct (currentPart st) as [[i v | i variables modifier]|].
    + now intros [= <-].
    + intros (found & _ & Hrest)%bind_OK. destruct found as [m|].
      { now injection Hrest as <-. }
      destruct (Ascii.eqb c ",").
      * apply bind_OK in Hrest as (lastV & _ & Hpush).
        destruct (String.eqb (name lastV) EmptyString); [discriminate |].
        now injection Hpush as <-.
      * now injection Hrest as <-.
    + now intros [= <-].
Qed.

Lemma parserLoop_Forall (chars : string) :
  forall index st st',
    Forall P (parts st) ->
    parserLoop template matchers chars index st = OK st' ->
    Forall P (parts st').
Proof.
  induction chars as [|c chars IH]; intros index st st' Hps; cbn [parserLoop].
  - now intros [= <-].
  - intros (st1 & Hstep & Hrest)%bind_OK.
    apply (IH (S index) st1); [| exact Hrest].
    now apply (parserStep_Forall index c st).
Qed.

Lemma templateParser_Forall (ps : list TemplatePart) :
  templateParser template matchers = OK ps -> Forall P ps.
Proof.
  unfold templateParser. intros (st & Hloop & Hend)%bind_OK.
  apply parserLoop_Forall in Hloop; [| constructor].
  destruct (currentPart st) as [[i v | i variables modifier]|]; try discriminate;
    injection Hend as <-; [| exact Hloop].
  apply Forall_app. split; [exact Hloop | repeat constructor; apply P_literal].
Qed.

End EveryPart.

Lemma resolved_substitutionWellFormed (template : string)
    (matchers : gmap string ParameterMatcher) (start idx : nat)
    (vs vs' : list TemplateVariable) (modifier : option Modifier) :
  vs <> [] ->
  mapi_result (fun v _ => resolveVariable template matchers start idx v) 0 vs = OK vs' ->
  substitutionWellFormed matchers
    (SubstitutionPart start vs' (map (fun v => matchers !! name v) vs') modifier).
Proof.
  intros Hne Hmap. cbn [substitutionWellFormed]. split; [| split; [reflexivity |]].
  - apply mapi_result_length in Hmap. destruct vs'; [| discriminate].
    destruct vs; [contradiction | discriminate].
  - eapply (mapi_result_Forall (fun _ => True)); [| | exact Hmap].
    + intros x i y _ Hy. cbn beta in Hy.
      exact (proj2 (proj2 (resolveVariable_OK _ _ _ _ _ _ Hy))).
    + clear. induction vs; constructor; auto.
Qed.

(** X1: in the parts of an accepted template a substitution has at least
    one variable, every name of it matches the grammar of names, and
    [matchers] holds, for each variable in the same order, what the record
    of matchers has under the name: the matcher that the record owns, or,
    for a name that it does not own, a property of [Object.prototype], which
    the parser lets through.  Where no name of the substitution is a
    property of [Object.prototype], [serialize] finds a matcher at the index
    of every variable. *)
Theorem templateParser_substitutions (template : string)
    (matchers : gmap string ParameterMatcher) (ps : list TemplatePart)
    (index : nat) (variables : list TemplateVariable)
    (ms : list (option ParameterMatcher)) (modifier : option Modifier) :
  templateParser template matchers = OK ps ->
  In (SubstitutionPart index variables ms modifier) ps ->
  variables <> []
  /\ length ms = length variables
  /\ (forall k v, variables !! k = Some v ->
                  matchVariableName (name v) = true
                  /\ ms !! k = Some (matchers !! name v)
                  /\ ((exists m, matchers !! name v = Some m /\ matcherAt ms k = OK m)
                      \/ (matchers !! name v = None
                          /\ isInherited (name v) = true
                          /\ inheritedAt ms k = true)))
  /\ ((forall v, In v variables -> isInherited (name v) = false) ->
      forall k v, variables !! k = Some v ->
                  exists m, matchers !! name v = Some m /\ matcherAt ms k = OK m).
Proof.
  intros Hparse Hin.
  pose proof (templateParser_Forall (substitutionWellFormed matchers) template matchers
                (fun _ _ => I)
                (resolved_substitutionWellFormed template matchers) ps Hparse) as Hall.
  rewrite List.Forall_forall in Hall. specialize (Hall _ Hin).
  destruct Hall as (Hne & -> & Hvars).
  assert (Hentry : forall k v, variables !! k = Some v ->
            map (fun v0 => matchers !! name v0) variables !! k
            = Some (matchers !! name v)).
  { intros k v Hk.
    change (map (fun v0 : TemplateVariable => matchers !! name v0) variables)
      with ((fun v0 : TemplateVariable => matchers !! name v0) <$> variables).
    now rewrite list_lookup_fmap, Hk. }
  assert (Hall : forall k v, variables !! k = Some v ->
            matchVariableName (name v) = true
            /\ map (fun v0 => matchers !! name v0) variables !! k
               = Some (matchers !! name v)
            /\ ((exists m, matchers !! name v = Some m
                           /\ matcherAt (map (fun v0 => matchers !! name v0) variables) k
                              = OK m)
                \/ (matchers !! name v = None
                    /\ isInherited (name v) = true
                    /\ inheritedAt (map (fun v0 => matchers !! name v0) variables) k
                       = true))).
  { intros k v Hk. pose proof (Forall_lookup_1 _ _ _ _ Hvars Hk) as [Hname Hm].
    split; [exact Hname |]. split; [exact (Hentry k v Hk) |].
    unfold matcherAt, inheritedAt. rewrite (Hentry k v Hk).
    unfold hasMatcherProperty in Hm.
    destruct (matchers !! name v) as [m|]; [left; eauto | right; auto]. }
  split; [exact Hne |]. split; [apply List.length_map |]. split; [exact Hall |].
  intros Hown k v Hk. destruct (Hall k v Hk) as (_ & _ & [Hm | (_ & Hinh & _)]);
    [exact Hm |].
  rewrite Hown in Hinh; [discriminate |].
  apply list_elem_of_In. eapply list_elem_of_lookup_2. exact Hk.
Qed.

(** ** The scanner on texts of a known shape *)

Lemma braceFree_cons (c : ascii) (s : string) :
  braceFree (String c s) = true ->
  Ascii.eqb c "{" = false /\ Ascii.eqb c "}" = false /\ braceFree s = true.
Proof.
  unfold braceFree. cbn [includesChar].
  intros [H1 H2]%andb_prop. rewrite negb_true_iff in H1, H2.
  apply orb_false_elim in H1 as [H1 H1'], H2 as [H2 H2'].
  now rewrite H1, H2, H1', H2'.
Qed.

Lemma parserLoop_literal (template : string) (matchers : gmap string ParameterMatcher)
    (ps : list TemplatePart) (i : nat) (s : string) :
  braceFree s = true ->
  forall index v,
    parserLoop template matchers s index
      {| parts := ps; currentPart := Some (OpenLiteral i v) |}
    = OK {| parts := ps; currentPart := Some (OpenLiteral i (v ++ s)) |}.
Proof.
  induction s as [|c s IH]; intros Hs index v.
  - cbn [parserLoop]. now rewrite append_nil_r.
  - destruct (braceFree_cons c s Hs) as (Hopen & Hclose & Hs').
    cbn [parserLoop]. unfold parserStep. rewrite Hopen, Hclose.
    cbn [currentPart parts bind]. rewrite (IH Hs'). now rewrite append_assoc.
Qed.

Lemma parserLoop_text (template : string) (matchers : gmap string ParameterMatcher)
    (ps : list TemplatePart) (s : string) (index : nat) :
  braceFree s = true ->
  parserLoop template matchers s index {| parts := ps; currentPart := None |}
  = OK {| parts := ps; currentPart := afterLiteral index s |}.
Proof.
  destruct s as [|c s]; intros Hs; [reflexivity |].
  destruct (braceFree_cons c s Hs) as (Hopen & Hclose & Hs').
  cbn [parserLoop]. unfold parserStep. rewrite Hopen, Hclose.
  cbn [currentPart parts bind]. now rewrite (parserLoop_literal _ _ _ _ s Hs').
Qed.

(** A text without brace, then an opening brace. *)
Lemma parserLoop_open (template : string) (matchers : gmap string ParameterMatcher)
    (ps : list TemplatePart) (lit rest : string) (index : nat) :
  braceFree lit = true ->
  parserLoop template matchers (lit ++ String "{" rest) index
             {| parts := ps; currentPart := None |}
  = parserLoop template matchers rest (S (index + String.length lit))
      {| parts := (ps ++ literalParts index lit)%list;
         currentPart :=
           Some (OpenSubstitution (index + String.length lit) [newVariable] None) |}.
Proof.
  intros Hlit. rewrite parserLoop_append, parserLoop_text by exact Hlit.
  cbn [bind parserLoop]. unfold parserStep. cbn [Ascii.eqb Bool.eqb currentPart parts].
  destruct lit as [|c lit]; cbn [afterLiteral literalParts bind].
  - now rewrite app_nil_r.
  - reflexivity.
Qed.

(** A text without brace, then a closing brace. *)
Lemma parserLoop_close (template : string) (matchers : gmap string ParameterMatcher)
    (ps : list TemplatePart) (lit rest : string) (index : nat) :
  braceFree lit = true ->
  parserLoop template matchers (lit ++ String "}" rest) index
             {| parts := ps; currentPart := None |}
  = throwAt E_UNEXPECTED_SUBSTITUTION_CLOSING template [(index + String.length lit)%nat].
Proof.
  intros Hlit. rewrite parserLoop_append, parserLoop_text by exact Hlit.
  cbn [bind parserLoop]. unfold parserStep. cbn [Ascii.eqb Bool.eqb currentPart parts].
  destruct lit as [|c lit]; reflexivity.
Qed.

Lemma modifierOfChar_plain (c : ascii) (m : Modifier) :
  modifierOfChar c = Some m -> plainChar c = true.
Proof.
  destruct c as [[|] [|] [|] [|] [|] [|] [|] [|]]; vm_compute;
    intros Hc; try discriminate Hc; reflexivity.
Qed.


(** The body of a substitution, without brace and comma: its first code
    unit is the modifier when it is one, the rest is the name. *)
Lemma parserLoop_plain_body (template : string)
    (matchers : gmap string ParameterMatcher) (ps : list TemplatePart)
    (start : nat) (body : string) (index : nat) :
  forallb plainChar (list_ascii_of_string body) = true ->
  parserLoop template matchers body index
    {| parts := ps; currentPart := Some (OpenSubstitution start [newVariable] None) |}
  = OK {| parts := ps;
          currentPart :=
            Some (OpenSubstitution start [rawNamed (snd (splitModifier body))]
                                   (fst (splitModifier body))) |}.
Proof.
  intros Hplain. destruct body as [|c body]; [reflexivity |].
  cbn [list_ascii_of_string forallb] in Hplain.
  apply andb_prop in Hplain as [Hc Hbody].
  destruct (plainChar_eqb c Hc) as (Hopen & Hclose & Hcomma).
  cbn [parserLoop splitModifier]. unfold parserStep at 1. rewrite Hopen, Hclose.
  cbn [currentPart parts modifierHere firstVariable bind name newVariable String.eqb].
  destruct (modifierOfChar c) as [m|] eqn:Hm; cbn [fst snd bind].
  - rewrite (parserLoop_name template matchers ps start (Some m) body Hbody
               (S index) newVariable ltac:(left; discriminate)).
    reflexivity.
  - rewrite Hcomma. cbn [appendToLastName bind].
    rewrite (parserLoop_name template matchers ps start None body Hbody (S index)
               {| name := name newVariable ++ String c EmptyString;
                  explode := explode newVariable; truncate := truncate newVariable |}
               ltac:(right; discriminate)).
    reflexivity.
Qed.

Lemma templateParser_text (matchers : gmap string ParameterMatcher) (s : string) :
  braceFree s = true -> templateParser s matchers = OK (literalParts 0 s).
Proof.
  intros Hs. unfold templateParser. rewrite parserLoop_text by exact Hs.
  cbn [bind currentPart parts]. now destruct s.
Qed.

(** X2: a template without brace is one literal part at offset 0 (no part
    when it is empty), and it expands to itself whatever the parameters
    are. *)
Theorem literal_template (matchers : gmap string ParameterMatcher) (s : string) :
  braceFree s = true ->
  templateParser s matchers = OK (literalParts 0 s)
  /\ (forall params, compileAndSerialize s matchers params = OK s).
Proof.
  intros Hs. split; [now apply templateParser_text |].
  intros params. unfold compileAndSerialize, newURITemplate.
  rewrite templateParser_text by exact Hs. cbn [bind].
  unfold URITemplate_serialize. cbn [_parts]. now destruct s.
Qed.

Lemma modifierText_plain (modifier : option Modifier) :
  forallb plainChar (list_ascii_of_string (modifierText modifier)) = true.
Proof. destruct modifier as [[]|]; reflexivity. Qed.

Lemma splitModifier_modifierText (modifier : option Modifier) :
  splitModifier (modifierText modifier) = (modifier, EmptyString).
Proof. destruct modifier as [[]|]; reflexivity. Qed.

(** The scanner after [lit{body], with [body] without brace and comma. *)
Lemma parserLoop_open_body (template : string)
    (matchers : gmap string ParameterMatcher) (lit body rest : string) :
  braceFree lit = true ->
  forallb plainChar (list_ascii_of_string body) = true ->
  parserLoop template matchers (lit ++ String "{" (body ++ rest)) 0
             {| parts := []; currentPart := None |}
  = parserLoop template matchers rest (S (String.length lit + String.length body))
      {| parts := literalParts 0 lit;
         currentPart :=
           Some (OpenSubstitution (String.length lit)
                   [rawNamed (snd (splitModifier body))] (fst (splitModifier body))) |}.
Proof.
  intros Hlit Hbody. rewrite parserLoop_open by exact Hlit.
  rewrite parserLoop_append, parserLoop_plain_body by exact Hbody.
  cbn [bind Nat.add app]. reflexivity.
Qed.

(** X3: the three faults of braces, each with the offsets it reports: a
    closing brace in a literal, an opening brace inside a substitution, and
    the end of the template inside a substitution. *)
Theorem brace_errors (matchers : gmap string ParameterMatcher) (lit : string) :
  braceFree lit = true ->
  (forall rest,
      templateParser (lit ++ String "}" rest) matchers
      = throwAt E_UNEXPECTED_SUBSTITUTION_CLOSING (lit ++ String "}" rest)
                [String.length lit])
  /\ (forall body rest,
         forallb plainChar (list_ascii_of_string body) = true ->
         templateParser (lit ++ String "{" (body ++ String "{" rest)) matchers
         = throwAt E_BAD_SUBSTITUTION_OPENING
                   (lit ++ String "{" (body ++ String "{" rest))
                   [S (String.length lit + String.length body)])
  /\ (forall body,
         forallb plainChar (list_ascii_of_string body) = true ->
         templateParser (lit ++ String "{" body) matchers
         = throwAt E_EXPECTED_SUBSTITUTION_CLOSING (lit ++ String "{" body)
                   [String.length lit; String.length (lit ++ String "{" body)]).
Proof.
  intros Hlit. split; [| split].
  - intros rest. unfold templateParser.
    now rewrite parserLoop_close by exact Hlit.
  - intros body rest Hbody. unfold templateParser.
    rewrite parserLoop_open_body by assumption. reflexivity.
  - intros body Hbody. unfold templateParser.
    rewrite <- (append_nil_r body) at 2.
    rewrite parserLoop_open_body by assumption. reflexivity.
Qed.

(** X4: a substitution without a name, with or without a modifier, is
    refused: with [E_BAD_SUBSTITUTION_NAME] at its closing brace and with
    [E_EMPTY_SUBSTITUTION_NAME] at a comma, the offsets being those of the
    opening brace and of the brace or comma. *)
Theorem empty_name_errors (matchers : gmap string ParameterMatcher)
    (lit rest : string) (modifier : option Modifier) :
  braceFree lit = true ->
  templateParser (lit ++ String "{" (modifierText modifier ++ String "}" rest)) matchers
  = throwAt E_BAD_SUBSTITUTION_NAME
            (lit ++ String "{" (modifierText modifier ++ String "}" rest))
            [String.length lit;
             S (String.length lit + String.length (modifierText modifier))]
  /\ templateParser (lit ++ String "{" (modifierText modifier ++ String "," rest)) matchers
     = throwAt E_EMPTY_SUBSTITUTION_NAME
               (lit ++ String "{" (modifierText modifier ++ String "," rest))
               [String.length lit;
                S (String.length lit + String.length (modifierText modifier))].
Proof.
  intros Hlit. split; unfold templateParser;
    rewrite parserLoop_open_body by (exact Hlit || apply modifierText_plain);
    rewrite splitModifier_modifierText; cbn [fst snd];
    destruct modifier as [m|]; reflexivity.
Qed.

(** ** A template with one substitution of one variable *)

Lemma nameChar_facts (c : ascii) :
  nameChar c = true ->
  plainChar c = true /\ modifierOfChar c = None
  /\ Ascii.eqb EXPLODE c = false /\ Ascii.eqb c TRUNCATE_SEPARATOR = false.
Proof.
  destruct c as [[|] [|] [|] [|] [|] [|] [|] [|]]; vm_compute;
    intros Hc; try discriminate Hc; repeat split.
Qed.

Lemma isDigit_nameChar (c : ascii) : isDigit c = true -> nameChar c = true.
Proof.
  intros Hc. unfold nameChar, isWordChar. rewrite Hc.
  now rewrite orb_true_r.
Qed.

Lemma matchNameUnits_chars (n : nat) :
  forall s, (String.length s <= n)%nat ->
            matchNameUnits s = true ->
            forallb nameChar (list_ascii_of_string s) = true.
Proof.
  induction n as [|n IH]; intros s Hlen.
  - destruct s; [reflexivity | cbn in Hlen; lia].
  - destruct s as [|c s]; [reflexivity |].
    cbn [String.length] in Hlen. cbn [matchNameUnits list_ascii_of_string forallb].
    unfold nameChar at 1. destruct (isWordChar c); cbn [orb andb].
    + apply IH. lia.
    + destruct (Ascii.eqb c "%"); [| discriminate].
      destruct s as [|d1 [|d2 s]]; try discriminate.
      intros [[H1 H2]%andb_prop Hs]%andb_prop.
      cbn [list_ascii_of_string forallb].
      rewrite (isDigit_nameChar _ H1), (isDigit_nameChar _ H2). cbn [andb].
      apply IH; [cbn [String.length] in Hlen; lia | exact Hs].
Qed.

Lemma matchVariableName_chars (s : string) :
  matchVariableName s = true ->
  s <> EmptyString /\ forallb nameChar (list_ascii_of_string s) = true.
Proof.
  destruct s as [|c s]; [discriminate |]. intros Hs. split; [discriminate |].
  now apply (matchNameUnits_chars (String.length (String c s))).
Qed.

Lemma forallb_not_included (f : ascii -> bool) (x : ascii) (s : string) :
  (forall c, f c = true -> Ascii.eqb c x = false) ->
  forallb f (list_ascii_of_string s) = true -> includesChar x s = false.
Proof.
  intros Hf. induction s as [|c s IH]; [reflexivity |].
  cbn [list_ascii_of_string forallb includesChar].
  intros [Hc Hs]%andb_prop. now rewrite (Hf c Hc), IH.
Qed.

Lemma forallb_lastChar (f : ascii -> bool) (s : string) (c : ascii) :
  forallb f (list_ascii_of_string s) = true -> lastChar s = Some c -> f c = true.
Proof.
  induction s as [|d s IH]; [discriminate |].
  cbn [list_ascii_of_string forallb]. intros [Hd Hs]%andb_prop.
  destruct s as [|d' s]; [now intros [= <-] |].
  intros Hlast. apply IH; [exact Hs | exact Hlast].
Qed.

Lemma forallb_string_append (f : ascii -> bool) (a b : string) :
  forallb f (list_ascii_of_string (a ++ b))
  = forallb f (list_ascii_of_string a) && forallb f (list_ascii_of_string b).
Proof.
  induction a as [|c a IH]; [reflexivity |].
  cbn [String.append list_ascii_of_string forallb]. now rewrite IH, andb_assoc.
Qed.

(** A name of the grammar, written alone, is the variable as it is. *)
Lemma hasMatcherProperty_own (matchers : gmap string ParameterMatcher) (n : string)
    (matcher : ParameterMatcher) :
  matchers !! n = Some matcher -> hasMatcherProperty matchers n = true.
Proof. intros Hm. unfold hasMatcherProperty. now rewrite Hm. Qed.

Lemma resolveVariable_name (template : string)
    (matchers : gmap string ParameterMatcher) (start index : nat) (n : string) :
  matchVariableName n = true ->
  hasMatcherProperty matchers n = true ->
  resolveVariable template matchers start index (rawNamed n) = OK (rawNamed n).
Proof.
  intros Hn Hm. destruct (matchVariableName_chars n Hn) as [Hne Hchars].
  unfold resolveVariable.
  assert (Hexp : applyExplode (rawNamed n) = rawNamed n).
  { unfold applyExplode. cbn [rawNamed name].
    destruct (lastChar n) as [c|] eqn:Hlast; [| reflexivity].
    apply (forallb_lastChar nameChar) in Hlast; [| exact Hchars].
    now rewrite (proj1 (proj2 (proj2 (nameChar_facts c Hlast)))). }
  rewrite Hexp. unfold applyTruncate. cbn [rawNamed name].
  rewrite (forallb_not_included nameChar TRUNCATE_SEPARATOR n
             (fun c Hc => proj2 (proj2 (proj2 (nameChar_facts c Hc)))) Hchars).
  cbn [bind]. change (name (rawNamed n)) with n.
  change (hasTruncate (rawNamed n) && explode (rawNamed n)) with false.
  rewrite Hn. cbn [negb]. now rewrite Hm.
Qed.



(** ** The offsets and the texts of the parts *)

Lemma substring_whole (v rest : string) : substring 0 (String.length v) (v ++ rest) = v.
Proof.
  induction v as [|c v IH]; cbn [String.length String.append substring].
  - now destruct rest.
  - now rewrite IH.
Qed.

Lemma substring_middle (pre v rest : string) :
  substring (String.length pre) (String.length v) (pre ++ v ++ rest) = v.
Proof.
  induction pre as [|c pre IH]; cbn [String.length String.append substring].
  - apply substring_whole.
  - exact IH.
Qed.

Lemma get_append_l (a b : string) (c : ascii) :
  forall i, String.get i a = Some c -> String.get i (a ++ b) = Some c.
Proof.
  induction a as [|d a IH]; intros i; [discriminate |].
  cbn [String.get String.append]. destruct i; [easy | apply IH].
Qed.

Lemma get_length (a b : string) (c : ascii) :
  String.get (String.length a) (a ++ String c b) = Some c.
Proof. induction a as [|d a IH]; [reflexivity | exact IH]. Qed.

Lemma includesChar_append (x : ascii) (a b : string) :
  includesChar x (a ++ b) = includesChar x a || includesChar x b.
Proof.
  induction a as [|d a IH]; [reflexivity |].
  cbn [String.append includesChar]. now rewrite IH, orb_assoc.
Qed.

Lemma braceFree_snoc (v : string) (c : ascii) :
  braceFree v = true -> Ascii.eqb c "{" = false -> Ascii.eqb c "}" = false ->
  braceFree (v ++ String c EmptyString) = true.
Proof.
  unfold braceFree. intros [H1 H2]%andb_prop Ho Hc.
  rewrite negb_true_iff in H1, H2.
  rewrite !includesChar_append, H1, H2. cbn [includesChar orb].
  now rewrite Ho, Hc.
Qed.

Lemma partInTemplate_literal (pre v rest : string) :
  braceFree v = true ->
  partInTemplate ((pre ++ v) ++ rest) (LiteralPart (String.length pre) v).
Proof.
  intros Hv. cbn [partInTemplate]. split; [| exact Hv].
  rewrite append_assoc. apply substring_middle.
Qed.

Lemma parserStep_content (template : string) (matchers : gmap string ParameterMatcher)
    (full consumed rest : string) (c : ascii) (st st' : ParserState) :
  full = consumed ++ String c rest ->
  contentInv full consumed st ->
  parserStep template matchers (String.length consumed) c st = OK st' ->
  contentInv full (consumed ++ String c EmptyString) st'.
Proof.
  intros Hfull [Hps Hcur]. unfold parserStep, contentInv.
  destruct (Ascii.eqb c "{") eqn:Hopen; [| destruct (Ascii.eqb c "}") eqn:Hclose].
  - apply Ascii.eqb_eq in Hopen as ->.
    assert (Hget : String.get (String.length consumed) (consumed ++ String "{" EmptyString)
                   = Some "{"%char) by apply get_length.
    destruct (currentPart st) as [[i v | i variables modifier]|];
      cbn [bind]; try discriminate; intros [= <-]; cbn [parts currentPart].
    + split; [| exact Hget]. destruct Hcur as (pre & Hpre & Hi & Hv).
      apply Forall_app. split; [exact Hps |]. constructor; [| constructor].
      subst full consumed i. now apply partInTemplate_literal.
    + split; [exact Hps | exact Hget].
  - destruct (currentPart st) as [[i v | i variables modifier]|]; try discriminate.
    intros (lastV & _ & Hrest)%bind_OK.
    destruct (String.eqb (name lastV) EmptyString); [discriminate |].
    apply bind_OK in Hrest as (variables' & _ & [= <-]). cbn [parts currentPart].
    split; [| exact I]. apply Forall_app. split; [exact Hps |].
    constructor; [| constructor]. cbn [partInTemplate]. subst full.
    now apply get_append_l.
  - destruct (currentPart st) as [[i v | i variables modifier]|].
    + intros [= <-]. cbn [parts currentPart]. split; [exact Hps |].
      destruct Hcur as (pre & Hpre & Hi & Hv). exists pre.
      split; [subst consumed; now rewrite append_assoc |].
      split; [exact Hi | now apply braceFree_snoc].
    + assert (Hkeep : Forall (partInTemplate full) (parts st)
                      /\ String.get i (consumed ++ String c EmptyString)
                         = Some "{"%char).
      { split; [exact Hps | now apply get_append_l]. }
      intros (found & _ & Hrest)%bind_OK. destruct found as [m|].
      { injection Hrest as <-. cbn [parts currentPart]. exact Hkeep. }
      destruct (Ascii.eqb c ",").
      * apply bind_OK in Hrest as (lastV & _ & Hpush).
        destruct (String.eqb (name lastV) EmptyString); [discriminate |].
        injection Hpush as <-. cbn [parts currentPart]. exact Hkeep.
      * injection Hrest as <-. cbn [parts currentPart]. exact Hkeep.
    + intros [= <-]. cbn [parts currentPart]. split; [exact Hps |].
      exists consumed. split; [reflexivity |]. split; [reflexivity |].
      unfold braceFree. cbn [includesChar]. now rewrite Hopen, Hclose.
Qed.

Lemma parserLoop_content (template : string) (matchers : gmap string ParameterMatcher)
    (full : string) (chars : string) :
  forall consumed st st',
    full = consumed ++ chars ->
    contentInv full consumed st ->
    parserLoop template matchers chars (String.length consumed) st = OK st' ->
    contentInv full full st'.
Proof.
  induction chars as [|c chars IH]; intros consumed st st' Hfull Hinv; cbn [parserLoop].
  - intros [= <-]. rewrite append_nil_r in Hfull. now subst.
  - intros (st1 & Hstep & Hloop)%bind_OK.
    apply (IH (consumed ++ String c EmptyString) st1).
    + now rewrite append_assoc.
    + eapply parserStep_content; eassumption.
    + rewrite length_append. cbn [String.length].
      now rewrite Nat.add_1_r.
Qed.

(** X7: the offset of a part is its place in the template: the text of a
    literal part is the text of the template from its offset on, over its
    length, and holds no brace; the offset of a substitution part is that
    of its opening brace. *)
Theorem parts_in_template (template : string)
    (matchers : gmap string ParameterMatcher) (ps : list TemplatePart) :
  templateParser template matchers = OK ps ->
  (forall i value,
      In (LiteralPart i value) ps ->
      substring i (String.length value) template = value
      /\ includesChar "{" value = false /\ includesChar "}" value = false)
  /\ (forall i variables ms modifier,
         In (SubstitutionPart i variables ms modifier) ps ->
         String.get i template = Some "{"%char).
Proof.
  unfold templateParser. intros (st & Hloop & Hend)%bind_OK.
  apply (parserLoop_content template matchers template template EmptyString) in Hloop;
    [| reflexivity | split; [constructor | exact I]].
  destruct Hloop as [Hps Hcur].
  assert (Hall : Forall (partInTemplate template) ps).
  { destruct (currentPart st) as [[i v | i variables modifier]|]; try discriminate;
      injection Hend as <-; [| exact Hps].
    apply Forall_app. split; [exact Hps |]. constructor; [| constructor].
    destruct Hcur as (pre & Hpre & Hi & Hv). subst i.
    rewrite <- (append_nil_r template), Hpre. now apply partInTemplate_literal. }
  rewrite List.Forall_forall in Hall. split.
  - intros i value Hin. destruct (Hall _ Hin) as [Hsub Hfree]. split; [exact Hsub |].
    unfold braceFree in Hfree. apply andb_prop in Hfree as [H1 H2].
    now rewrite negb_true_iff in H1, H2.
  - intros i variables ms modifier Hin. exact (Hall _ Hin).
Qed.

(** * Further properties of the expansion engine *)

(** ** The shape of a value and the validity of its elements *)

Lemma matcherHasType_eq (matcher : ParameterMatcher) (t : MatcherType) :
  matcherHasType matcher t = true <-> type matcher = t.
Proof. unfold matcherHasType. destruct (type matcher), t; split; congruence. Qed.

(** X8: a value that is not nullish and whose shape is not the one of its
    matcher stops the expansion, with the error of the expected shape, the
    name of the variable and the value; and where the expansion of a
    variable succeeds on such a value, a record matcher has an object, a
    list matcher an array, and a value matcher a value that is no object: a
    string, a number, a boolean or a function. *)
Theorem shape_errors (spec : ModifierSpec) (params : gmap string JsValue)
    (ms : list (option ParameterMatcher)) (variable : TemplateVariable)
    (index : nat) (matcher : ParameterMatcher) (param : JsValue) :
  params !! name variable = Some param ->
  isNullOrUndefined param = false ->
  matcherAt ms index = OK matcher ->
  (type matcher = type_record -> (forall kvs, param <> JsObject kvs) ->
   serializeVariable spec params ms variable index
   = throw E_EXPECTED_A_RECORD [ArgString (name variable); ArgValue param])
  /\ (type matcher = type_list -> (forall l, param <> JsArray l) ->
      serializeVariable spec params ms variable index
      = throw E_EXPECTED_A_LIST [ArgString (name variable); ArgValue param])
  /\ (type matcher = type_value -> isPrimitive param = false ->
      serializeVariable spec params ms variable index
      = throw E_EXPECTED_A_LITERAL_VALUE [ArgString (name variable); ArgValue param])
  /\ (forall r, serializeVariable spec params ms variable index = OK r ->
                match type matcher with
                | type_record => exists kvs, param = JsObject kvs
                | type_list => exists l, param = JsArray l
                | type_value => isPrimitive param = true
                end).
Proof.
  intros Hparam Hnull Hm.
  assert (Hp : paramOf params (name variable) = param)
    by (unfold paramOf; now rewrite Hparam).
  unfold serializeVariable.
  rewrite Hp, Hnull, (matcherAt_inheritedAt _ _ _ Hm), Hm. cbn [bind].
  split; [| split; [| split]].
  - intros Ht Hnot. unfold matcherHasType. rewrite Ht.
    destruct param; try discriminate Hnull; try reflexivity.
    now destruct (Hnot l).
  - intros Ht Hnot. unfold matcherHasType. rewrite Ht. cbn [andb].
    destruct param; try discriminate Hnull; try reflexivity.
    now destruct (Hnot l).
  - intros Ht Hprim. unfold matcherHasType. rewrite Ht. cbn [andb].
    destruct param; try discriminate Hnull; try discriminate Hprim; reflexivity.
  - intros r. unfold matcherHasType.
    destruct (type matcher); destruct param; cbn; try discriminate; eauto.
Qed.

Lemma mapi_result_first_throw {E A B} (f : A -> nat -> result E B) (e : E)
    (pre : list A) (x : A) (post : list A) :
  forall i,
    (forall k y, pre !! k = Some y -> exists z, f y (i + k)%nat = OK z) ->
    f x (i + length pre)%nat = Throw e ->
    mapi_result f i (pre ++ x :: post) = Throw e.
Proof.
  induction pre as [|y pre IH]; intros i Hpre Hx; cbn [app mapi_result].
  - cbn [length] in Hx. rewrite Nat.add_0_r in Hx. now rewrite Hx.
  - destruct (Hpre 0%nat y eq_refl) as [z Hz]. rewrite Nat.add_0_r in Hz.
    rewrite Hz. cbn [bind]. rewrite (IH (S i)); [reflexivity | |].
    + intros k y' Hk. destruct (Hpre (S k) y' Hk) as [z' Hz']. exists z'.
      now replace (S i + k)%nat with (i + S k)%nat by lia.
    + cbn [length] in Hx.
      now replace (S i + length pre)%nat with (i + S (length pre))%nat by lia.
Qed.

Lemma serializeValues_first_invalid (matcher : ParameterMatcher)
    (variable : TemplateVariable) (pre : list JsValue) (v : JsValue)
    (post : list JsValue) :
  Forall (fun x => isValid matcher x = true) pre ->
  isValid matcher v = false ->
  serializeValues matcher variable (pre ++ v :: post)
  = throw E_INVALID_VARIABLE_VALUE
          [ArgString (name variable); ArgIndex (length pre); ArgValue v].
Proof.
  intros Hpre Hv. unfold serializeValues. apply mapi_result_first_throw.
  - intros k y Hk. rewrite (Forall_lookup_1 _ _ _ _ Hpre Hk). cbn [negb]. eauto.
  - now rewrite Hv.
Qed.

(** X9: the elements of a list are checked in order, and the first one
    that its matcher does not take for valid stops the expansion with
    [E_INVALID_VARIABLE_VALUE], the name of the variable, the index of that
    element and the element; a single value is the element of index 0. *)
Theorem first_invalid_element (spec : ModifierSpec) (params : gmap string JsValue)
    (ms : list (option ParameterMatcher)) (variable : TemplateVariable)
    (index : nat) (matcher : ParameterMatcher) :
  matcherAt ms index = OK matcher ->
  (forall pre v post,
      params !! name variable = Some (JsArray (pre ++ v :: post)) ->
      type matcher = type_list ->
      Forall (fun x => isValid matcher x = true) pre ->
      isValid matcher v = false ->
      serializeVariable spec params ms variable index
      = throw E_INVALID_VARIABLE_VALUE
              [ArgString (name variable); ArgIndex (length pre); ArgValue v])
  /\ (forall v,
         params !! name variable = Some v ->
         type matcher = type_value ->
         isPrimitive v = true ->
         isValid matcher v = false ->
         serializeVariable spec params ms variable index
         = throw E_INVALID_VARIABLE_VALUE
                 [ArgString (name variable); ArgIndex 0; ArgValue v]).
Proof.
  intros Hm. split.
  - intros pre v post Hparam Ht Hpre Hv.
    assert (Hp : paramOf params (name variable) = JsArray (pre ++ v :: post))
      by (unfold paramOf; now rewrite Hparam).
    unfold serializeVariable.
    rewrite Hp, (matcherAt_inheritedAt _ _ _ Hm), Hm. cbn [isNullOrUndefined bind].
    unfold matcherHasType. rewrite Ht. cbn [andb].
    change (valueIsAnArray (JsArray (pre ++ v :: post))) with true. cbn [negb].
    change (valuesOf (JsArray (pre ++ v :: post))) with (pre ++ v :: post)%list.
    now rewrite serializeValues_first_invalid.
  - intros v Hparam Ht Hprim Hv.
    assert (Hp : paramOf params (name variable) = v)
      by (unfold paramOf; now rewrite Hparam).
    assert (Hnull : isNullOrUndefined v = false) by (destruct v; easy).
    assert (Hobj : valueIsAnObject v = false) by (destruct v; easy).
    unfold serializeVariable.
  rewrite Hp, Hnull, (matcherAt_inheritedAt _ _ _ Hm), Hm. cbn [bind].
    unfold matcherHasType. rewrite Ht. cbn [andb].
    rewrite Hobj. unfold valuesOf. rewrite Hobj.
    pose proof (serializeValues_first_invalid matcher variable [] v []
                  (List.Forall_nil _) Hv) as Hthrow.
    cbn [app length] in Hthrow. now rewrite Hthrow.
Qed.

(** ** Closed forms of the expansion of a variable *)

Lemma serializeVariable_scalar (spec : ModifierSpec) (params : gmap string JsValue)
    (ms : list (option ParameterMatcher)) (variable : TemplateVariable)
    (index : nat) (matcher : ParameterMatcher) (param : JsValue) :
  params !! name variable = Some param ->
  isPrimitive param = true ->
  matcherAt ms index = OK matcher ->
  type matcher = type_value ->
  isValid matcher param = true ->
  serializeVariable spec params ms variable index
  = OK (Some
          ((if named spec
            then escapeWith spec (name variable)
                 ++ (if trimEmptyString spec
                        && String.eqb (truncateOne variable (serialize matcher param))
                                      EmptyString
                     then EmptyString else "=")
            else EmptyString)
           ++ escapeWith spec (truncateOne variable (serialize matcher param)))).
Proof.
  intros Hparam Hprim Hm Ht Hvalid.
  assert (Hp : paramOf params (name variable) = param)
    by (unfold paramOf; now rewrite Hparam).
  assert (Hnull : isNullOrUndefined param = false) by (destruct param; easy).
  assert (Hobj : valueIsAnObject param = false) by (destruct param; easy).
  assert (Hrec : valueIsARecord param = false)
    by (unfold valueIsARecord; now rewrite Hobj).
  unfold serializeVariable.
  rewrite Hp, Hnull, (matcherAt_inheritedAt _ _ _ Hm), Hm. cbn [bind].
  unfold matcherHasType. rewrite Ht. cbn [andb]. rewrite Hobj.
  unfold valuesOf. rewrite Hobj. unfold serializeValues. cbn [mapi_result].
  rewrite Hvalid. cbn [negb bind truncateValues map].
  set (t := truncateOne variable (serialize matcher param)).
  unfold isEmptyValues, escapeValues, variableNamesOf, joinValues, reduce.
  rewrite Hrec. cbn [andb length Nat.eqb orb forallb map imap reduce_from nth
                     Nat.ltb Nat.leb String.append].
  rewrite !andb_false_r, andb_true_r, orb_false_r. cbn [andb].
  change (isEmptyValues [t]) with (String.eqb t EmptyString && true).
  rewrite andb_true_r. reflexivity.
Qed.

(** X10: a string, a number or a boolean that its value matcher takes for
    valid expands, under every operator, to its serialized form cut at the
    truncate length and then escaped, after the escaped name and the sign
    when the operator is named; the sign is left out where the operator
    trims and the cut text is empty.  (Strings, the serialized form among
    them, are sequences of code units up to U+00FF, on which the escaping
    does not throw.) *)
Theorem scalar_expansion (modifier : option Modifier) (params : gmap string JsValue)
    (ms : list (option ParameterMatcher)) (variable : TemplateVariable)
    (index : nat) (matcher : ParameterMatcher) (param : JsValue) :
  params !! name variable = Some param ->
  isPrimitive param = true ->
  matcherAt ms index = OK matcher ->
  type matcher = type_value ->
  isValid matcher param = true ->
  let spec := specsOf modifier in
  let text := truncateOne variable (serialize matcher param) in
  serializeVariable spec params ms variable index
  = OK (Some
          ((if named spec
            then escape (name variable)
                 ++ (if trimEmptyString spec && String.eqb text EmptyString
                     then EmptyString else "=")
            else EmptyString)
           ++ escapeWith spec text)).
Proof.
  intros Hparam Hprim Hm Ht Hvalid spec text.
  rewrite (serializeVariable_scalar spec params ms variable index matcher param)
    by assumption.
  fold text. destruct modifier as [[]|]; reflexivity.
Qed.

Lemma variableNamesOf_unnamed (spec : ModifierSpec) (variable : TemplateVariable)
    (param : JsValue) (truncatedValues : list string) (k : nat) :
  named spec = false ->
  valueIsARecord param && explode variable = false ->
  nth k (variableNamesOf spec variable param truncatedValues) EmptyString = EmptyString.
Proof.
  intros Hnamed Hcase. rewrite nth_lookup. unfold variableNamesOf.
  rewrite list_lookup_imap. destruct (truncatedValues !! k); [| reflexivity].
  cbn. rewrite Hnamed, (andb_comm (explode variable)), Hcase. reflexivity.
Qed.

Lemma imap_identity (h : nat -> string -> string) (l : list string) :
  (forall k x, h k x = x) -> imap h l = l.
Proof.
  intros Hh. rewrite (imap_constant (fun x => x) l h Hh). apply List.map_id.
Qed.

(** X11: under an operator that is not named, the elements of a variable
    are joined bare, with a comma when the variable does not explode and
    with the separator of the operator when it does; an exploded record
    gives its pairs, key, [=] and value, joined with the separator. *)
Theorem unnamed_expansion (spec : ModifierSpec) (params : gmap string JsValue)
    (ms : list (option ParameterMatcher)) (variable : TemplateVariable)
    (index : nat) (matcher : ParameterMatcher) (out : string) :
  named spec = false ->
  matcherAt ms index = OK matcher ->
  serializeVariable spec params ms variable index = OK (Some out) ->
  let param := paramOf params (name variable) in
  let truncatedValues :=
    truncateValues variable (map (serialize matcher) (valuesOf param)) in
  (valueIsARecord param && explode variable = false ->
   out = join (if explode variable then separator spec else ",")
              (escapeValues spec variable param truncatedValues))
  /\ (valueIsARecord param && explode variable = true ->
      out = join (separator spec)
                 (imap (fun k value =>
                          escapeWith spec (keyAt (objectKeys param) k)
                          ++ "=" ++ escapeWith spec value)
                       truncatedValues)).
Proof.
  intros Hnamed Hm Hout.
  apply serializeVariable_Some in Hout as (matcher' & Hm' & _ & Hempty & ->);
    [| exact (matcherAt_inheritedAt _ _ _ Hm)].
  rewrite Hm in Hm'. injection Hm' as <-. cbn zeta in *.
  set (param := paramOf params (name variable)) in *.
  set (tv := truncateValues variable (map (serialize matcher) (valuesOf param))) in *.
  split.
  - intros Hcase. destruct (explode variable) eqn:He.
    + rewrite joinValues_each by exact He. f_equal.
      apply imap_identity. intros k x.
      now rewrite variableNamesOf_unnamed by (assumption || now rewrite He).
    + destruct (escapeValues spec variable param tv) as [|e es] eqn:Hev; [reflexivity |].
      rewrite joinValues_once by exact He.
      now rewrite variableNamesOf_unnamed by (assumption || now rewrite He).
  - intros [Hrec He]%andb_prop. rewrite Hrec, andb_true_r in Hempty.
    rewrite joinValues_each by exact He.
    rewrite escapeValues_exploded by exact He.
    rewrite imap_map. f_equal. apply imap_ext_lt. intros k t Hk.
    rewrite variableNamesOf_nth by exact Hk.
    rewrite Hrec, He, Hempty, !andb_true_r, !orb_true_r, andb_false_r. cbn [andb].
    now rewrite append_assoc.
Qed.

(** ** Expansion without parameters *)

Lemma serializePart_null (params : gmap string JsValue) (part : TemplatePart) :
  Forall (fun v => isNullOrUndefined (paramOf params (name v)) = true)
         (partVariables part) ->
  serializePart params part = OK (literalText part).
Proof.
  destruct part as [i value | i variables ms modifier]; [reflexivity |].
  cbn [partVariables serializePart literalText]. intros Hnull.
  rewrite mapi_result_all_null by exact Hnull. cbn [bind].
  now rewrite omap_all_none.
Qed.

Lemma serializeParts_null (params : gmap string JsValue) (ps : list TemplatePart) :
  Forall (fun part =>
            Forall (fun v => isNullOrUndefined (paramOf params (name v)) = true)
                   (partVariables part)) ps ->
  forall i, mapi_result (fun part _ => serializePart params part) i ps
            = OK (map literalText ps).
Proof.
  induction 1 as [|part ps Hpart Hps IH]; intros i; cbn [mapi_result map]; [reflexivity |].
  rewrite serializePart_null by exact Hpart. cbn [bind]. now rewrite IH.
Qed.

(** X12: where the parameter of every variable of a template reads as
    [null] or [undefined], the expansion does not throw and is the texts of
    the literal parts, one after the other.  A parameter that is missing
    reads as [undefined] unless its name is a property of
    [Object.prototype]. *)
Theorem expansion_without_parameters (t : URITemplate) (params : gmap string JsValue) :
  (forall part v, In part (_parts t) -> In v (partVariables part) ->
                  isNullOrUndefined (paramOf params (name v)) = true) ->
  URITemplate_serialize t params
  = OK (String.concat EmptyString (map literalText (_parts t))).
Proof.
  intros Hnull. unfold URITemplate_serialize.
  rewrite serializeParts_null; [reflexivity |].
  apply List.Forall_forall. intros part Hpart.
  apply List.Forall_forall. intros v Hv. exact (Hnull part v Hpart Hv).
Qed.

(** ** A template with one substitution, expanded *)



(** * Further properties of the escaping and of the matchers *)

Lemma replaceChar_append (c : ascii) (r a b : string) :
  replaceChar c r (a ++ b) = replaceChar c r a ++ replaceChar c r b.
Proof.
  induction a as [|d a IH]; [reflexivity |].
  cbn [String.append replaceChar]. rewrite IH.
  destruct (Ascii.eqb d c); [now rewrite append_assoc | reflexivity].
Qed.

Lemma escape_cons (c : ascii) (s : string) :
  escape (String c s) = escapeChar c ++ escape s.
Proof.
  unfold escape, encodeURIComponent, escapeChar. cbn [encodeWith].
  destruct (uriUnescaped c).
  - now rewrite <- replaceChar_append.
  - now rewrite replaceChar_append.
Qed.

Lemma escapeChar_alphabet (c : ascii) :
  forallb escapeAlphabet (list_ascii_of_string (escapeChar c)) = true.
Proof. destruct c as [[|] [|] [|] [|] [|] [|] [|] [|]]; reflexivity. Qed.

Lemma escapeChar_decode (c : ascii) (r : string) :
  percentDecode (escapeChar c ++ r) = option_map (String c) (percentDecode r).
Proof. destruct c as [[|] [|] [|] [|] [|] [|] [|] [|]]; reflexivity. Qed.

Lemma percentDecode_escape (s : string) : percentDecode (escape s) = Some s.
Proof.
  induction s as [|c s IH]; [reflexivity |].
  now rewrite escape_cons, escapeChar_decode, IH.
Qed.

(** X14: [escape] writes letters, digits, the marks [- _ . ~ * ' ( )] and
    the percent sign only: none of [: / ? # [ ] @ ! $ & + , ; =] and no
    space is in its output. *)
Theorem escape_alphabet (s : string) :
  forallb escapeAlphabet (list_ascii_of_string (escape s)) = true
  /\ (forall c, includesChar c ":/?#[]@!$&+,;= " = true ->
                includesChar c (escape s) = false).
Proof.
  assert (Hall : forallb escapeAlphabet (list_ascii_of_string (escape s)) = true).
  { induction s as [|c s IH]; [reflexivity |].
    now rewrite escape_cons, forallb_string_append, escapeChar_alphabet, IH. }
  split; [exact Hall |]. intros c Hc.
  apply (forallb_not_included escapeAlphabet c (escape s)); [| exact Hall].
  intros d Hd. destruct (Ascii.eqb d c) eqn:E; [| reflexivity].
  apply Ascii.eqb_eq in E as ->. exfalso. revert Hc Hd. clear.
  destruct c as [[|] [|] [|] [|] [|] [|] [|] [|]]; vm_compute; congruence.
Qed.

(** X15: the value comes back from its escaped form by percent-decoding,
    so that two values with the same escaped form are the same value. *)
Theorem escape_roundtrip :
  (forall s, percentDecode (escape s) = Some s)
  /\ (forall a b, escape a = escape b -> a = b).
Proof.
  split; [exact percentDecode_escape |].
  intros a b Hab. apply (f_equal percentDecode) in Hab.
  rewrite !percentDecode_escape in Hab. now injection Hab.
Qed.

(** X16: what a matcher of [src/matchers.ts] parses, it takes for valid,
    and it is a string, a number or a boolean; the three string matchers
    parse every text, and serialize what they parsed to the text itself. *)
Theorem builtin_matchers_parse :
  (forall m s v, In m builtinMatchers -> parse m s = OK v ->
                 isValid m v = true /\ isPrimitive v = true)
  /\ (forall m s, In m [asString; asStrings; asKeyedStrings] ->
                  exists v, parse m s = OK v /\ serialize m v = s).
Proof.
  split.
  - intros m s v Hin. cbn [builtinMatchers In] in Hin.
    assert (Hstr : parse asString s = OK v ->
                   isValid asString v = true /\ isPrimitive v = true)
      by (cbn; now intros [= <-]).
    assert (Hnum : parse asNumber s = OK v ->
                   isValid asNumber v = true /\ isPrimitive v = true).
    { rewrite asNumber_parse_eq. destruct (Number_isNaN (parseFloat s)); [discriminate |].
      now intros [= <-]. }
    assert (Hbool : parse asBoolean s = OK v ->
                    isValid asBoolean v = true /\ isPrimitive v = true).
    { rewrite asBoolean_parse_eq.
      destruct (String.eqb s "true" || String.eqb s "false"); [discriminate |].
      now intros [= <-]. }
    destruct Hin as [<- | [<- | [<- | [<- | [<- | [<- | [<- | [<- | [<- | []]]]]]]]]];
      assumption.
  - intros m s Hin. exists (JsString s).
    destruct Hin as [<- | [<- | [<- | []]]]; split; reflexivity.
Qed.

(** * Templates as they are written, compiled *)

Lemma variableChar_facts (c : ascii) :
  variableChar c = true ->
  Ascii.eqb c "{" = false /\ Ascii.eqb c "}" = false /\ Ascii.eqb c "," = false
  /\ modifierOfChar c = None.
Proof.
  destruct c as [[|] [|] [|] [|] [|] [|] [|] [|]]; vm_compute;
    intros Hc; try discriminate Hc; repeat split.
Qed.

Lemma nameChar_variableChar (c : ascii) : nameChar c = true -> variableChar c = true.
Proof. intros Hc. unfold variableChar. now rewrite Hc. Qed.

Lemma appendToLastName_snoc (c : ascii) (vs : list TemplateVariable)
    (v : TemplateVariable) :
  appendToLastName c (vs ++ [v])
  = (vs ++ [{| name := name v ++ String c EmptyString; explode := explode v;
               truncate := truncate v |}])%list.
Proof.
  induction vs as [|x vs IH]; [reflexivity |].
  cbn [app appendToLastName]. rewrite IH.
  destruct (vs ++ [v])%list eqn:E; [| reflexivity].
  now destruct vs.
Qed.

Lemma lastVariable_snoc (vs : list TemplateVariable) (v : TemplateVariable) :
  lastVariable (vs ++ [v]) = OK v.
Proof. unfold lastVariable. now rewrite last_snoc. Qed.

Lemma modifierHere_none (c : ascii) (vs : list TemplateVariable)
    (v : TemplateVariable) (modifier : option Modifier) :
  Forall (fun x => name x <> EmptyString) vs ->
  modifierOfChar c = None ->
  modifierHere c (vs ++ [v]) modifier = OK None.
Proof.
  intros Hvs Hc. unfold modifierHere. destruct modifier as [m|]; [reflexivity |].
  destruct vs as [|x vs]; cbn [app firstVariable bind].
  - rewrite Hc. now destruct (String.eqb (name v) EmptyString).
  - apply Forall_cons in Hvs as [Hx _].
    destruct (String.eqb (name x) EmptyString) eqn:E; [| reflexivity].
    now apply String.eqb_eq in E.
Qed.

(** The code units of the text of a variable go to the last name. *)
Lemma parserLoop_variable_text (template : string)
    (matchers : gmap string ParameterMatcher) (ps : list TemplatePart)
    (start : nat) (modifier : option Modifier) (vs : list TemplateVariable)
    (s : string) :
  Forall (fun x => name x <> EmptyString) vs ->
  forallb variableChar (list_ascii_of_string s) = true ->
  forall index v,
    parserLoop template matchers s index
      {| parts := ps;
         currentPart := Some (OpenSubstitution start (vs ++ [v]) modifier) |}
    = OK {| parts := ps;
            currentPart :=
              Some (OpenSubstitution start
                      (vs ++ [{| name := name v ++ s; explode := explode v;
                                 truncate := truncate v |}]) modifier) |}.
Proof.
  intros Hvs. induction s as [|c s IH]; intros Hs index v.
  - cbn [parserLoop]. rewrite append_nil_r. now destruct v.
  - cbn [list_ascii_of_string forallb] in Hs. apply andb_prop in Hs as [Hc Hs].
    destruct (variableChar_facts c Hc) as (Hopen & Hclose & Hcomma & Hmod).
    cbn [parserLoop]. unfold parserStep. rewrite Hopen, Hclose.
    cbn [currentPart parts]. rewrite (modifierHere_none c vs v modifier Hvs Hmod).
    cbn [bind]. rewrite Hcomma, appendToLastName_snoc. cbn [bind].
    rewrite (IH Hs). cbn [name explode truncate]. now rewrite append_assoc.
Qed.

Lemma variableText_chars (matchers : gmap string ParameterMatcher)
    (w : WrittenVariable) :
  wellWrittenVariable matchers w ->
  variableText w <> EmptyString
  /\ forallb variableChar (list_ascii_of_string (variableText w)) = true.
Proof.
  intros (Hn & _ & Hs). destruct (matchVariableName_chars _ Hn) as [Hne Hchars].
  split.
  - unfold variableText. destruct (writtenName w); [contradiction | discriminate].
  - unfold variableText. rewrite forallb_string_append. apply andb_true_intro. split.
    + clear Hn Hne Hs. induction (writtenName w) as [|c s IH]; [reflexivity |].
      cbn [list_ascii_of_string forallb] in *.
      apply andb_prop in Hchars as [Hc Hchars].
      now rewrite (nameChar_variableChar c Hc), IH.
    + destruct (writtenSuffix w) as [| |digits]; try reflexivity.
      destruct Hs as [Hs _].
      cbn [suffixText list_ascii_of_string forallb]. cbn [andb].
      destruct digits as [|d digits]; [discriminate |]. cbn [matchDigits] in Hs.
      revert Hs. generalize (String d digits). clear.
      intros s. induction s as [|c s IH]; [reflexivity |].
      cbn [allDigits list_ascii_of_string forallb]. intros [Hc Hs]%andb_prop.
      rewrite (nameChar_variableChar c (isDigit_nameChar c Hc)). now apply IH.
Qed.

(** The texts of variables with commas between go to one variable each. *)
Lemma parserLoop_variables (template : string)
    (matchers : gmap string ParameterMatcher) (ps : list TemplatePart)
    (start : nat) (modifier : option Modifier) (ws : list WrittenVariable) :
  Forall (wellWrittenVariable matchers) ws ->
  forall w vs index,
    wellWrittenVariable matchers w ->
    Forall (fun x => name x <> EmptyString) vs ->
    parserLoop template matchers (join "," (map variableText (w :: ws))) index
      {| parts := ps;
         currentPart := Some (OpenSubstitution start (vs ++ [newVariable]) modifier) |}
    = OK {| parts := ps;
            currentPart :=
              Some (OpenSubstitution start
                      (vs ++ map (fun x => rawNamed (variableText x)) (w :: ws))
                      modifier) |}.
Proof.
  induction 1 as [|w2 ws Hw2 Hws IH]; intros w vs index Hw Hvs.
  - cbn [map join String.concat].
    destruct (variableText_chars matchers w Hw) as [_ Hchars].
    now rewrite (parserLoop_variable_text _ _ _ _ _ vs _ Hvs Hchars).
  - destruct (variableText_chars matchers w Hw) as [Hne Hchars].
    change (join "," (map variableText (w :: w2 :: ws)))
      with (variableText w ++ String "," (join "," (map variableText (w2 :: ws)))).
    rewrite parserLoop_append.
    rewrite (parserLoop_variable_text _ _ _ _ _ vs _ Hvs Hchars). cbn [bind parserLoop].
    unfold parserStep at 1. cbn [Ascii.eqb Bool.eqb currentPart parts].
    rewrite (modifierHere_none "," vs _ modifier Hvs eq_refl). cbn [bind].
    rewrite lastVariable_snoc. cbn [bind name newVariable String.append].
    assert (Hname : String.eqb (variableText w) EmptyString = false)
      by (destruct (variableText w); [contradiction | reflexivity]).
    rewrite Hname. cbn [bind].
    rewrite (IH w2 (vs ++ [rawNamed (variableText w)])%list).
    + cbn [map]. now rewrite <- List.app_assoc.
    + exact Hw2.
    + apply Forall_app. split; [exact Hvs |]. repeat constructor. exact Hne.
Qed.

(** *** The three written forms of a variable, resolved *)

Lemma lastChar_snoc (s : string) (c : ascii) :
  lastChar (s ++ String c EmptyString) = Some c.
Proof.
  induction s as [|d s IH]; [reflexivity |].
  cbn [String.append]. rewrite lastChar_cons; [exact IH | now destruct s].
Qed.

Lemma sliceInit_snoc (s : string) (c : ascii) :
  sliceInit (s ++ String c EmptyString) = s.
Proof.
  induction s as [|d s IH]; [reflexivity |].
  cbn [String.append sliceInit]. rewrite IH. now destruct s.
Qed.

Lemma lastChar_append (a b : string) :
  b <> EmptyString -> lastChar (a ++ b) = lastChar b.
Proof.
  intros Hb. induction a as [|d a IH]; [reflexivity |].
  cbn [String.append]. rewrite lastChar_cons; [exact IH |].
  destruct a; [exact Hb | discriminate].
Qed.

Lemma split_none (c : ascii) (s : string) :
  includesChar c s = false -> split c s = [s].
Proof.
  induction s as [|d s IH]; [reflexivity |]. cbn [includesChar split].
  intros [Hd Hs]%orb_false_elim. now rewrite Hd, IH.
Qed.

Lemma split_at (c : ascii) (a b : string) :
  includesChar c a = false -> split c (a ++ String c b) = a :: split c b.
Proof.
  induction a as [|d a IH]; cbn [String.append includesChar split].
  - intros _. now rewrite Ascii.eqb_refl.
  - intros [Hd Ha]%orb_false_elim. now rewrite Hd, IH.
Qed.

Lemma allDigits_chars (s : string) :
  allDigits s = true -> forallb nameChar (list_ascii_of_string s) = true.
Proof.
  induction s as [|c s IH]; [reflexivity |].
  cbn [allDigits list_ascii_of_string forallb]. intros [Hc Hs]%andb_prop.
  now rewrite (isDigit_nameChar c Hc), IH.
Qed.

Lemma name_no_separator (n : string) :
  forallb nameChar (list_ascii_of_string n) = true ->
  includesChar TRUNCATE_SEPARATOR n = false.
Proof.
  apply forallb_not_included. intros c Hc.
  exact (proj2 (proj2 (proj2 (nameChar_facts c Hc)))).
Qed.

Lemma resolveVariable_suffix (template : string)
    (matchers : gmap string ParameterMatcher) (start index : nat)
    (w : WrittenVariable) :
  matchVariableName (writtenName w) = true ->
  hasMatcherProperty matchers (writtenName w) = true ->
  match writtenSuffix w with
  | TruncateSuffix digits => matchDigits digits = true
  | _ => True
  end ->
  resolveVariable template matchers start index (rawNamed (variableText w))
  = OK (variableOf w).
Proof.
  intros Hn Hm Hs. destruct w as [n sfx]. cbn [writtenName writtenSuffix] in *.
  destruct (matchVariableName_chars n Hn) as [Hne Hchars].
  pose proof (name_no_separator n Hchars) as Hsep.
  unfold variableText, variableOf. cbn [writtenName writtenSuffix].
  destruct sfx as [| |digits]; cbn [suffixText].
  - rewrite append_nil_r. exact (resolveVariable_name _ _ _ _ n Hn Hm).
  - unfold resolveVariable, applyExplode. cbn [rawNamed name].
    rewrite lastChar_snoc, Ascii.eqb_refl, sliceInit_snoc.
    unfold applyTruncate. cbn [name explode truncate]. rewrite Hsep. cbn [bind].
    cbn [hasTruncate truncate explode andb name]. rewrite Hn. cbn [negb].
    now rewrite Hm.
  - assert (Hd : digits <> EmptyString) by (now destruct digits).
    assert (Hdchars : forallb nameChar (list_ascii_of_string digits) = true)
      by (apply allDigits_chars; now destruct digits).
    unfold resolveVariable, applyExplode. cbn [rawNamed name].
    rewrite (lastChar_append n (String ":" digits)) by discriminate.
    rewrite lastChar_cons by exact Hd.
    destruct (lastChar digits) as [c|] eqn:Hlast.
    2:{ destruct digits as [|d [|d' digits]]; [contradiction | discriminate |].
        exfalso. revert Hlast. generalize (String d' digits). clear.
        intros s. revert d. induction s as [|c s IH]; intros d; [discriminate |].
        destruct s; [discriminate | apply (IH c)]. }
    apply (forallb_lastChar nameChar) in Hlast; [| exact Hdchars].
    rewrite (proj1 (proj2 (proj2 (nameChar_facts c Hlast)))).
    unfold applyTruncate. cbn [name rawNamed].
    rewrite includesChar_append. cbn [includesChar].
    change (Ascii.eqb ":" TRUNCATE_SEPARATOR) with true. rewrite orb_true_r.
    change (String ":" digits) with (String TRUNCATE_SEPARATOR digits) at 1.
    unfold TRUNCATE_SEPARATOR in *.
    rewrite split_at by exact Hsep.
    rewrite split_none by (now apply name_no_separator).
    rewrite Hs. cbn [negb bind hasTruncate truncate explode andb name].
    rewrite Hn. cbn [negb]. now rewrite Hm.
Qed.

Lemma resolveVariable_written (template : string)
    (matchers : gmap string ParameterMatcher) (start index : nat)
    (w : WrittenVariable) :
  wellWrittenVariable matchers w ->
  resolveVariable template matchers start index (rawNamed (variableText w))
  = OK (variableOf w).
Proof.
  intros (Hn & Hm & Hs). apply resolveVariable_suffix; [exact Hn | exact Hm |].
  destruct (writtenSuffix w); try exact I. exact (proj1 Hs).
Qed.

Lemma resolveVariables_written (template : string)
    (matchers : gmap string ParameterMatcher) (start index : nat)
    (ws : list WrittenVariable) :
  Forall (wellWrittenVariable matchers) ws ->
  forall i,
    mapi_result (fun v _ => resolveVariable template matchers start index v) i
                (map (fun x => rawNamed (variableText x)) ws)
    = OK (map variableOf ws).
Proof.
  induction 1 as [|w ws Hw Hws IH]; intros i; cbn [map mapi_result]; [reflexivity |].
  rewrite resolveVariable_written by exact Hw. cbn [bind]. now rewrite IH.
Qed.

Lemma parserLoop_modifier (template : string)
    (matchers : gmap string ParameterMatcher) (ps : list TemplatePart)
    (start index : nat) (modifier : option Modifier) (rest : string) :
  parserLoop template matchers (modifierText modifier ++ rest) index
    {| parts := ps; currentPart := Some (OpenSubstitution start [newVariable] None) |}
  = parserLoop template matchers rest (index + String.length (modifierText modifier))
      {| parts := ps;
         currentPart := Some (OpenSubstitution start [newVariable] modifier) |}.
Proof.
  destruct modifier as [m|].
  - replace (index + String.length (modifierText (Some m)))%nat with (S index)
      by (destruct m; cbn; lia).
    destruct m; reflexivity.
  - cbn [modifierText String.append String.length]. now rewrite Nat.add_0_r.
Qed.

Lemma last_map_written (matchers : gmap string ParameterMatcher)
    (ws : list WrittenVariable) :
  ws <> [] ->
  Forall (wellWrittenVariable matchers) ws ->
  exists w,
    wellWrittenVariable matchers w
    /\ last (map (fun x => rawNamed (variableText x)) ws)
       = Some (rawNamed (variableText w)).
Proof.
  intros Hne Hws. destruct (last ws) as [w|] eqn:Hlast.
  - exists w. split.
    + apply last_Some in Hlast as [l' ->]. apply Forall_app in Hws as [_ Hw].
      now apply Forall_cons in Hw as [Hw _].
    + change (map (fun x => rawNamed (variableText x)) ws)
        with ((fun x => rawNamed (variableText x)) <$> ws).
      now rewrite fmap_last, Hlast.
  - now apply last_None in Hlast.
Qed.

(** The scanner over a literal text and a substitution as they are written:
    it adds their parts and leaves no part open. *)
Lemma parserLoop_written (template : string)
    (matchers : gmap string ParameterMatcher) (w : WrittenSubstitution)
    (rest : string) (ps : list TemplatePart) (index : nat) :
  wellWritten matchers w ->
  parserLoop template matchers ((textBefore w ++ substitutionText w) ++ rest) index
             {| parts := ps; currentPart := None |}
  = parserLoop template matchers rest
      (index + String.length (textBefore w ++ substitutionText w))
      {| parts := (ps ++ itemParts matchers index [w])%list; currentPart := None |}.
Proof.
  intros (Hlit & Hne & Hws). destruct w as [lit modifier ws].
  cbn [textBefore writtenModifier writtenVariables] in *.
  destruct ws as [|w ws]; [contradiction |].
  pose proof (proj1 (Forall_cons _ _ _) Hws) as [Hw Hws'].
  unfold substitutionText. cbn [textBefore writtenModifier writtenVariables itemParts].
  rewrite append_assoc. cbn [String.append].
  rewrite parserLoop_open by exact Hlit.
  rewrite !append_assoc, parserLoop_modifier.
  rewrite parserLoop_append.
  rewrite (parserLoop_variables _ _ _ _ _ ws Hws' w [] _ Hw (List.Forall_nil _)).
  cbn [bind app String.append parserLoop]. unfold parserStep.
  cbn [Ascii.eqb Bool.eqb currentPart parts]. unfold lastVariable.
  destruct (last_map_written matchers (w :: ws) Hne Hws) as (z & Hz & Hlast).
  rewrite Hlast. cbn [bind rawNamed name].
  destruct (variableText_chars matchers z Hz) as [Hzne _].
  assert (Hname : String.eqb (variableText z) EmptyString = false)
    by (destruct (variableText z); [contradiction | reflexivity]).
  rewrite Hname, (resolveVariables_written _ _ _ _ _ Hws). cbn [bind].
  rewrite map_map. cbn [variableOf name].
  rewrite <- List.app_assoc. cbn [app].
  replace (index + String.length
                     (lit ++ String "{" (modifierText modifier
                                         ++ join "," (map variableText (w :: ws))
                                         ++ "}")))%nat
    with (S (S (index + String.length lit) + String.length (modifierText modifier)
             + String.length (join "," (map variableText (w :: ws))))).
  - reflexivity.
  - rewrite length_append. cbn [String.length]. rewrite !length_append.
    cbn [String.length]. lia.
Qed.

Lemma itemParts_cons (matchers : gmap string ParameterMatcher) (index : nat)
    (w : WrittenSubstitution) (items : list WrittenSubstitution) :
  itemParts matchers index (w :: items)
  = (itemParts matchers index [w]
     ++ itemParts matchers
          (index + String.length (textBefore w ++ substitutionText w)) items)%list.
Proof. cbn [itemParts]. rewrite <- List.app_assoc. reflexivity. Qed.

Lemma parserLoop_items (template : string)
    (matchers : gmap string ParameterMatcher) (items : list WrittenSubstitution)
    (rest : string) :
  Forall (wellWritten matchers) items ->
  forall ps index,
    parserLoop template matchers (itemsText items ++ rest) index
               {| parts := ps; currentPart := None |}
    = parserLoop template matchers rest (index + String.length (itemsText items))
        {| parts := (ps ++ itemParts matchers index items)%list;
           currentPart := None |}.
Proof.
  induction 1 as [|w items Hw Hitems IH]; intros ps index.
  - cbn [itemsText itemParts String.append String.length].
    now rewrite Nat.add_0_r, app_nil_r.
  - rewrite (itemParts_cons matchers index w items), List.app_assoc.
    cbn [itemsText]. rewrite append_assoc, (parserLoop_written _ _ _ _ _ _ Hw), IH.
    rewrite (length_append (textBefore w ++ substitutionText w)), Nat.add_assoc.
    reflexivity.
Qed.

(** X6: a template written as literal texts without brace and substitutions
    in turn, each substitution an optional modifier and one or more
    variables separated by commas, each variable a name of the grammar
    under which the record of matchers has something, of its own or from
    [Object.prototype], alone, followed by the star or followed by a colon
    and one to fifteen digits, compiles to the parts that were written: the
    non-empty texts as literals, the substitutions with the names, the
    explode marks, the truncate lengths read in base ten, what the record
    owns under the names and the modifier, each at its offset in the
    template. *)
Theorem templateParser_written (matchers : gmap string ParameterMatcher)
    (items : list WrittenSubstitution) (final : string) :
  Forall (wellWritten matchers) items ->
  braceFree final = true ->
  templateParser (itemsText items ++ final) matchers
  = OK (itemParts matchers 0 items
        ++ literalParts (String.length (itemsText items)) final)%list.
Proof.
  intros Hitems Hfinal. unfold templateParser.
  rewrite (parserLoop_items _ _ _ _ Hitems), parserLoop_text by exact Hfinal.
  cbn [bind currentPart parts app Nat.add].
  destruct final as [|c final]; cbn [afterLiteral literalParts].
  - now rewrite app_nil_r.
  - reflexivity.
Qed.

(** * The faults of a variable, found at the closing brace *)

(** A substitution of one variable, up to its closing brace: the variable is
    resolved, and what resolving it throws is thrown. *)
Lemma templateParser_closing (matchers : gmap string ParameterMatcher)
    (lit body rest : string) (e : YError) :
  braceFree lit = true ->
  forallb plainChar (list_ascii_of_string body) = true ->
  snd (splitModifier body) <> EmptyString ->
  resolveVariable (lit ++ String "{" (body ++ String "}" rest)) matchers
                  (String.length lit) (S (String.length lit + String.length body))
                  (rawNamed (snd (splitModifier body)))
  = Throw e ->
  templateParser (lit ++ String "{" (body ++ String "}" rest)) matchers = Throw e.
Proof.
  intros Hlit Hbody Hne Hthrow. unfold templateParser.
  rewrite parserLoop_open_body by assumption.
  cbn [parserLoop]. unfold parserStep.
  cbn [Ascii.eqb Bool.eqb currentPart parts lastVariable last bind rawNamed name].
  assert (Hname : String.eqb (snd (splitModifier body)) EmptyString = false)
    by (destruct (snd (splitModifier body)); [contradiction | reflexivity]).
  rewrite Hname. cbn [mapi_result].
  fold (rawNamed (snd (splitModifier body))). rewrite Hthrow. reflexivity.
Qed.

Lemma applyExplode_same (v : TemplateVariable) :
  lastChar (name v) <> Some EXPLODE -> applyExplode v = v.
Proof.
  intros Hlast. unfold applyExplode. destruct (lastChar (name v)) as [c|]; [| reflexivity].
  destruct (Ascii.eqb EXPLODE c) eqn:E; [| reflexivity].
  apply Ascii.eqb_eq in E. now subst c.
Qed.

Lemma resolveVariable_bad_digits (template : string)
    (matchers : gmap string ParameterMatcher) (start index : nat) (a d : string) :
  includesChar TRUNCATE_SEPARATOR a = false ->
  includesChar TRUNCATE_SEPARATOR d = false ->
  matchDigits d = false ->
  resolveVariable template matchers start index (rawNamed (a ++ String ":" d))
  = throwAt E_BAD_SUBSTITUTION_TRUNCATE template [start; index].
Proof.
  intros Ha Hd Hdigits.
  assert (Hcolon : includesChar TRUNCATE_SEPARATOR (a ++ String ":" d) = true).
  { rewrite includesChar_append. cbn [includesChar].
    change (Ascii.eqb TRUNCATE_SEPARATOR ":") with true. now rewrite orb_true_r. }
  destruct (option_eq_dec (lastChar (a ++ String ":" d)) (Some EXPLODE)) as [Hstar|Hstar].
  - now apply resolveVariable_explode_truncate.
  - unfold resolveVariable. rewrite applyExplode_same by exact Hstar.
    unfold applyTruncate. cbn [rawNamed name]. rewrite Hcolon.
    unfold TRUNCATE_SEPARATOR in *. rewrite split_at by exact Ha.
    rewrite split_none by exact Hd. now rewrite Hdigits.
Qed.

Lemma resolveVariable_bad_name (template : string)
    (matchers : gmap string ParameterMatcher) (start index : nat) (x : string) :
  includesChar TRUNCATE_SEPARATOR x = false ->
  lastChar x <> Some EXPLODE ->
  matchVariableName x = false ->
  resolveVariable template matchers start index (rawNamed x)
  = throwAt E_BAD_SUBSTITUTION_NAME template [start; index].
Proof.
  intros Hcolon Hstar Hname. unfold resolveVariable.
  rewrite applyExplode_same by exact Hstar.
  unfold applyTruncate. cbn [rawNamed name]. rewrite Hcolon.
  cbn [bind hasTruncate truncate explode andb name rawNamed]. now rewrite Hname.
Qed.

Lemma resolveVariable_no_matcher (template : string)
    (matchers : gmap string ParameterMatcher) (start index : nat)
    (w : WrittenVariable) :
  matchVariableName (writtenName w) = true ->
  match writtenSuffix w with
  | TruncateSuffix digits => matchDigits digits = true
  | _ => True
  end ->
  hasMatcherProperty matchers (writtenName w) = false ->
  resolveVariable template matchers start index (rawNamed (variableText w))
  = throwAt E_NO_SUBSTITUTION_MATCHER_FOUND template [start; index].
Proof.
  intros Hn Hs Hm.
  pose proof (resolveVariable_suffix template (<[writtenName w := asString]> matchers)
                start index w Hn
                (hasMatcherProperty_own _ _ asString (lookup_insert_eq _ _ _)) Hs)
    as Hok.
  apply resolveVariable_OK in Hok as (Htrunc & Hboth & Hname & _).
  unfold resolveVariable. rewrite Htrunc. cbn [bind].
  rewrite Hboth, Hname. cbn [negb variableOf name]. now rewrite Hm.
Qed.

(** X5: the faults of the variable of a substitution, found at its closing
    brace and reported with the offsets of the two braces. With [x] the
    text between the operator, if any, and the closing brace: a colon in
    [x] with something else than one or more digits after it is
    [E_BAD_SUBSTITUTION_TRUNCATE]; without colon nor final star, a text
    that is not a name of the grammar is [E_BAD_SUBSTITUTION_NAME]; a name
    of the grammar, alone, with the star or with a colon and digits, under
    which the record of matchers has nothing, neither of its own nor from
    [Object.prototype], is [E_NO_SUBSTITUTION_MATCHER_FOUND]. *)
Theorem variable_errors (matchers : gmap string ParameterMatcher)
    (lit body rest : string) :
  braceFree lit = true ->
  forallb plainChar (list_ascii_of_string body) = true ->
  let x := snd (splitModifier body) in
  let template := lit ++ String "{" (body ++ String "}" rest) in
  let offsets := [String.length lit; S (String.length lit + String.length body)] in
  (forall a d,
      x = a ++ String ":" d ->
      includesChar ":" a = false -> includesChar ":" d = false ->
      matchDigits d = false ->
      templateParser template matchers
      = throwAt E_BAD_SUBSTITUTION_TRUNCATE template offsets)
  /\ (x <> EmptyString -> includesChar ":" x = false ->
      lastChar x <> Some "*"%char -> matchVariableName x = false ->
      templateParser template matchers
      = throwAt E_BAD_SUBSTITUTION_NAME template offsets)
  /\ (forall w,
         x = variableText w ->
         matchVariableName (writtenName w) = true ->
         match writtenSuffix w with
         | TruncateSuffix digits => matchDigits digits = true
         | _ => True
         end ->
         matchers !! writtenName w = None ->
         isInherited (writtenName w) = false ->
         templateParser template matchers
         = throwAt E_NO_SUBSTITUTION_MATCHER_FOUND template offsets).
Proof.
  intros Hlit Hbody x template offsets. repeat split.
  - intros a d Hx Ha Hd Hdigits. apply templateParser_closing; try assumption.
    + fold x. rewrite Hx. now destruct a.
    + fold x. rewrite Hx. now apply resolveVariable_bad_digits.
  - intros Hne Hcolon Hstar Hname. apply templateParser_closing; try assumption.
    now apply resolveVariable_bad_name.
  - intros w Hx Hn Hs Hm Hinh. apply templateParser_closing; try assumption.
    + fold x. rewrite Hx. unfold variableText.
      destruct (writtenName w); [discriminate Hn | discriminate].
    + fold x. rewrite Hx. apply resolveVariable_no_matcher; try assumption.
      unfold hasMatcherProperty. now rewrite Hm.
Qed.

(** * The errors that are thrown *)

Lemma mapi_result_throw {E A B} (f : A -> nat -> result E B) (e : E) (l : list A) :
  forall i,
    mapi_result f i l = Throw e ->
    exists k x, l !! k = Some x /\ f x (i + k)%nat = Throw e.
Proof.
  induction l as [|x l IH]; intros i; cbn [mapi_result]; [discriminate |].
  destruct (f x i) as [y|e'] eqn:Hx; cbn [bind].
  - destruct (mapi_result f (S i) l) as [ys|e'] eqn:Hl; cbn [bind]; [discriminate |].
    intros [= ->]. destruct (IH (S i) Hl) as (k & z & Hk & Hz).
    exists (S k), z. split; [exact Hk |].
    now replace (i + S k)%nat with (S i + k)%nat by lia.
  - intros [= ->]. exists 0%nat, x. split; [reflexivity |]. now rewrite Nat.add_0_r.
Qed.

#[local] Ltac parser_code :=
  match goal with
  | Hthrow : throwAt ?c ?t ?o = Throw ?e |- parseError ?t ?e =>
      injection Hthrow as <-; split; [cbn; tauto | now exists o]
  end.

Lemma resolveVariable_throw (template : string)
    (matchers : gmap string ParameterMatcher) (start index : nat)
    (v : TemplateVariable) (e : YError) :
  resolveVariable template matchers start index v = Throw e ->
  parseError template e.
Proof.
  unfold resolveVariable.
  destruct (applyTruncate template start index (applyExplode v)) as [w|e'] eqn:Htrunc;
    cbn [bind].
  - destruct (hasTruncate w && explode w); [intros Hthrow; parser_code |].
    destruct (negb (matchVariableName (name w))); [intros Hthrow; parser_code |].
    destruct (negb (hasMatcherProperty matchers (name w)));
      [intros Hthrow; parser_code | discriminate].
  - intros [= ->]. unfold applyTruncate in Htrunc.
    destruct (includesChar TRUNCATE_SEPARATOR (name (applyExplode v))) eqn:Hcolon;
      [| discriminate].
    destruct (split_includes _ _ Hcolon) as (first & second & rest & Hsplit).
    unfold TRUNCATE_SEPARATOR in Hsplit. rewrite Hsplit in Htrunc.
    destruct (negb (matchDigits second)); [parser_code | discriminate].
Qed.

Lemma last_is_Some {A} (l : list A) : l <> [] -> exists x, last l = Some x.
Proof.
  intros Hne. destruct (last l) as [x|] eqn:Hlast; [now exists x |].
  now apply last_None in Hlast.
Qed.

Lemma appendToLastName_nonempty (c : ascii) (variables : list TemplateVariable) :
  variables <> [] -> appendToLastName c variables <> [].
Proof.
  destruct variables as [|v [|v' vs]]; [contradiction | discriminate | discriminate].
Qed.

Lemma parserStep_nonempty (template : string)
    (matchers : gmap string ParameterMatcher) (index : nat) (c : ascii)
    (st st' : ParserState) :
  openNonEmpty st ->
  parserStep template matchers index c st = OK st' ->
  openNonEmpty st'.
Proof.
  unfold openNonEmpty, parserStep. intros Hst.
  destruct (Ascii.eqb c "{"); [| destruct (Ascii.eqb c "}")].
  - intros (ps & _ & [= <-])%bind_OK. discriminate.
  - destruct (currentPart st) as [[i v | i variables modifier]|]; try discriminate.
    intros (lastV & _ & Hrest)%bind_OK.
    destruct (String.eqb (name lastV) EmptyString); [discriminate |].
    now apply bind_OK in Hrest as (variables' & _ & [= <-]).
  - destruct (currentPart st) as [[i v | i variables modifier]|].
    + now intros [= <-].
    + intros (found & _ & Hrest)%bind_OK. destruct found as [m|].
      { now injection Hrest as <-. }
      destruct (Ascii.eqb c ",").
      * apply bind_OK in Hrest as (lastV & _ & Hpush).
        destruct (String.eqb (name lastV) EmptyString); [discriminate |].
        injection Hpush as <-. cbn [currentPart]. now destruct variables.
      * injection Hrest as <-. cbn [currentPart].
        now apply appendToLastName_nonempty.
    + now intros [= <-].
Qed.

Lemma parserStep_throw (template : string)
    (matchers : gmap string ParameterMatcher) (index : nat) (c : ascii)
    (st : ParserState) (e : YError) :
  openNonEmpty st ->
  parserStep template matchers index c st = Throw e ->
  parseError template e.
Proof.
  unfold openNonEmpty, parserStep. intros Hst.
  destruct (Ascii.eqb c "{"); [| destruct (Ascii.eqb c "}")].
  - destruct (currentPart st) as [[i v | i variables modifier]|];
      cbn [bind]; try discriminate.
    intros [= <-]. split; [cbn; tauto | now exists [index]].
  - destruct (currentPart st) as [[i v | i variables modifier]|].
    + intros [= <-]. split; [cbn; tauto | now exists [index]].
    + unfold lastVariable. destruct (last_is_Some variables Hst) as [lastV ->].
      cbn [bind]. destruct (String.eqb (name lastV) EmptyString).
      { intros [= <-]. split; [cbn; tauto | now exists [i; index]]. }
      destruct (mapi_result _ 0 variables) as [variables'|e'] eqn:Hmap;
        cbn [bind]; [discriminate |].
      intros [= ->]. apply mapi_result_throw in Hmap as (k & x & _ & Hx).
      exact (resolveVariable_throw _ _ _ _ _ _ Hx).
    + intros [= <-]. split; [cbn; tauto | now exists [index]].
  - destruct (currentPart st) as [[i v | i variables modifier]|]; try discriminate.
    assert (Hfound : exists found, modifierHere c variables modifier = OK found).
    { unfold modifierHere. destruct modifier; [eauto |].
      destruct variables as [|v vs]; [contradiction |]. cbn [firstVariable bind].
      destruct (String.eqb (name v) EmptyString); eauto. }
    destruct Hfound as [found ->]. cbn [bind]. destruct found; [discriminate |].
    destruct (Ascii.eqb c ","); [| discriminate].
    unfold lastVariable. destruct (last_is_Some variables Hst) as [lastV ->].
    cbn [bind]. destruct (String.eqb (name lastV) EmptyString); [| discriminate].
    intros [= <-]. split; [cbn; tauto | now exists [i; index]].
Qed.

Lemma parserLoop_throw (template : string)
    (matchers : gmap string ParameterMatcher) (chars : string) (e : YError) :
  forall index st,
    openNonEmpty st ->
    parserLoop template matchers chars index st = Throw e ->
    parseError template e.
Proof.
  induction chars as [|c chars IH]; intros index st Hst; cbn [parserLoop];
    [discriminate |].
  destruct (parserStep template matchers index c st) as [st1|e'] eqn:Hstep;
    cbn [bind].
  - apply (IH (S index) st1). exact (parserStep_nonempty _ _ _ _ _ _ Hst Hstep).
  - intros [= ->]. exact (parserStep_throw _ _ _ _ _ _ Hst Hstep).
Qed.

(** X17: what [templateParser] throws is one of its seven errors, with the
    template and offsets as parameters; it never fails on a variable or a
    truncate length that is not there. *)
Theorem templateParser_errors (template : string)
    (matchers : gmap string ParameterMatcher) (e : YError) :
  templateParser template matchers = Throw e ->
  In (code e) parserCodes
  /\ exists offsets, errorParams e = ArgString template :: map ArgIndex offsets.
Proof.
  unfold templateParser.
  destruct (parserLoop template matchers template 0
                       {| parts := []; currentPart := None |}) as [st|e'] eqn:Hloop;
    cbn [bind].
  - destruct (currentPart st) as [[i v | i variables modifier]|]; try discriminate.
    intros [= <-]. split; [cbn; tauto | now exists [i; String.length template]].
  - intros [= ->].
    refine (parserLoop_throw _ _ _ _ _ {| parts := []; currentPart := None |} _ Hloop).
    exact I.
Qed.

Lemma serializeValues_throw (matcher : ParameterMatcher) (variable : TemplateVariable)
    (values : list JsValue) (e : YError) :
  serializeValues matcher variable values = Throw e -> expansionError variable e.
Proof.
  unfold serializeValues. intros (k & x & _ & Hx)%mapi_result_throw.
  destruct (negb (isValid matcher x)); [| discriminate].
  injection Hx as <-. split; [cbn; tauto | eauto].
Qed.

Lemma serializeVariable_throw (spec : ModifierSpec) (params : gmap string JsValue)
    (ms : list (option ParameterMatcher)) (variable : TemplateVariable)
    (index : nat) (matcher : ParameterMatcher) (e : YError) :
  matcherAt ms index = OK matcher ->
  serializeVariable spec params ms variable index = Throw e ->
  expansionError variable e.
Proof.
  intros Hm. unfold serializeVariable.
  rewrite (matcherAt_inheritedAt _ _ _ Hm), Hm. cbn [bind].
  destruct (isNullOrUndefined _); [discriminate |].
  destruct (_ && _); [intros [= <-]; split; [cbn; tauto | eauto] |].
  destruct (_ && _); [intros [= <-]; split; [cbn; tauto | eauto] |].
  destruct (_ && _); [intros [= <-]; split; [cbn; tauto | eauto] |].
  destruct (serializeValues matcher variable _) as [vals|e'] eqn:Hvals; cbn [bind].
  - destruct (_ && _); discriminate.
  - intros [= ->]. exact (serializeValues_throw _ _ _ _ Hvals).
Qed.

(** Where the entry is a property of [Object.prototype], what is thrown is
    the [TypeError] of the call of its [isValid], on a parameter that is
    not nullish. *)
Lemma serializeVariable_inherited_throw (spec : ModifierSpec)
    (params : gmap string JsValue) (ms : list (option ParameterMatcher))
    (variable : TemplateVariable) (index : nat) (e : YError) :
  inheritedAt ms index = true ->
  serializeVariable spec params ms variable index = Throw e ->
  code e = TypeError
  /\ isNullOrUndefined (paramOf params (name variable)) = false.
Proof.
  intros Hinh. unfold serializeVariable. rewrite Hinh.
  destruct (isNullOrUndefined _); [discriminate |].
  destruct (mapi_result _ 0 _) as [vals|e'] eqn:Hvals; cbn [bind].
  - destruct (_ && _); discriminate.
  - intros [= ->]. apply mapi_result_throw in Hvals as (k & x & _ & [= <-]).
    split; reflexivity.
Qed.

Lemma serializePart_throw (matchers : gmap string ParameterMatcher)
    (params : gmap string JsValue) (part : TemplatePart) (e : YError) :
  substitutionWellFormed matchers part ->
  serializePart params part = Throw e ->
  exists v,
    In v (partVariables part)
    /\ (expansionError v e
        \/ (code e = TypeError
            /\ matchers !! name v = None /\ isInherited (name v) = true
            /\ isNullOrUndefined (paramOf params (name v)) = false)).
Proof.
  destruct part as [i value | i variables ms modifier]; [discriminate |].
  cbn [substitutionWellFormed serializePart partVariables].
  intros (_ & -> & Hvars).
  destruct (mapi_result _ 0 variables) as [mapped|e'] eqn:Hmap; cbn [bind].
  - destruct (_ =? _)%nat; discriminate.
  - intros [= ->]. apply mapi_result_throw in Hmap as (k & v & Hk & Hv).
    cbn [Nat.add] in Hv. exists v. split.
    + apply list_elem_of_In. eapply list_elem_of_lookup_2. exact Hk.
    + destruct (Forall_lookup_1 _ _ _ _ Hvars Hk) as [_ Hm].
      assert (Hentry : map (fun v0 => matchers !! name v0) variables !! k
                       = Some (matchers !! name v)).
      { change (map (fun v0 => matchers !! name v0) variables)
          with ((fun v0 => matchers !! name v0) <$> variables).
        now rewrite list_lookup_fmap, Hk. }
      unfold hasMatcherProperty in Hm.
      destruct (matchers !! name v) as [m|] eqn:Hown.
      * left. refine (serializeVariable_throw _ _ _ _ k m _ _ Hv).
        unfold matcherAt. now rewrite Hentry.
      * right.
        assert (Hinh : inheritedAt (map (fun v0 => matchers !! name v0) variables) k
                       = true)
          by (unfold inheritedAt; now rewrite Hentry).
        destruct (serializeVariable_inherited_throw _ _ _ _ _ _ Hinh Hv)
          as [Hcode Hnull].
        auto.
Qed.

(** X18: what [serialize] throws on a template that was accepted comes from
    a variable of the template.  It is one of the four errors of
    [serialize], with the name of the variable as its first parameter; or
    it is a [TypeError], for a variable whose name is a property of
    [Object.prototype] that the record of matchers does not own, and
    whose parameter is not nullish.  So where no name of the template is
    a property of [Object.prototype], only the four errors are thrown.
    (Strings are sequences of code units up to U+00FF, on which the
    escaping does not throw.) *)
Theorem serialize_errors (template : string)
    (matchers : gmap string ParameterMatcher) (t : URITemplate)
    (params : gmap string JsValue) (e : YError) :
  newURITemplate template matchers = OK t ->
  URITemplate_serialize t params = Throw e ->
  (exists part v,
      In part (_parts t) /\ In v (partVariables part)
      /\ ((In (code e) serializeCodes
           /\ exists rest, errorParams e = ArgString (name v) :: rest)
          \/ (code e = TypeError
              /\ matchers !! name v = None /\ isInherited (name v) = true
              /\ isNullOrUndefined (paramOf params (name v)) = false)))
  /\ ((forall part v, In part (_parts t) -> In v (partVariables part) ->
                      isInherited (name v) = false) ->
      In (code e) serializeCodes).
Proof.
  unfold newURITemplate. intros (ps & Hparse & [= <-])%bind_OK. cbn [_parts].
  pose proof (templateParser_Forall (substitutionWellFormed matchers) template matchers
                (fun _ _ => I) (resolved_substitutionWellFormed template matchers)
                ps Hparse) as Hall.
  unfold URITemplate_serialize. cbn [_parts].
  destruct (mapi_result _ 0 ps) as [strs|e'] eqn:Hmap; cbn [bind]; [discriminate |].
  intros [= ->]. apply mapi_result_throw in Hmap as (k & part & Hk & Hpart).
  pose proof (Forall_lookup_1 _ _ _ _ Hall Hk) as Hwf.
  destruct (serializePart_throw matchers params part e Hwf Hpart) as (v & Hv & Hcase).
  assert (Hin : In part ps)
    by (apply list_elem_of_In; eapply list_elem_of_lookup_2; exact Hk).
  split.
  - exists part, v. split; [exact Hin |]. split; [exact Hv |].
    destruct Hcase as [[Hcode Hrest] | Htype]; [left | right]; auto.
  - intros Hown. destruct Hcase as [[Hcode _] | (_ & _ & Hinh & _)]; [exact Hcode |].
    rewrite (Hown part v Hin Hv) in Hinh. discriminate Hinh.
Qed.
End Properties.

(** * Evaluations at concrete inputs *)

Section Evaluation.
#[local] Existing Instance decimalNumber.

Example decimal_samples :
  map (fun s => decimal_toString (decimal_parseFloat s))
      ["1024"; "1e3"; "007"; "1.50"; " -0.001"; "1e-7"; "12abc"; "abc"; "1e21";
       "123456e20"; ".5e1"; "1.e2x"]
  = ["1024"; "1000"; "7"; "1.5"; "-0.001"; "1e-7"; "12"; "NaN"; "1e+21";
     "1.23456e+25"; "5"; "100"].
Proof. reflexivity. Qed.

(** The expansions that the tests of the repository expect. *)
Example repository_expansions :
  map (fun template => compileAndSerialize template sampleMatchers sampleParams)
      ["{var}"; "{hello}"; "{+hello}"; "{var:3}"; "map?{x,y}"; "{;x,y,empty}";
       "{?x,y,empty}"; "{keys}"; "{+keys}"; "{;keys*}"; "{;list*}"; "X{.list*}"]
  = map OK
      ["value"; "Hello%20World%21"; "Hello%20World!"; "val"; "map?1024,768";
       ";x=1024;y=768;empty"; "?x=1024&y=768&empty="; "semi,%3B,dot,.,comma,%2C";
       "semi,;,dot,.,comma,,"; ";semi=%3B;dot=.;comma=%2C";
       ";list=red;list=green;list=blue"; "X.red.green.blue"].
Proof. reflexivity. Qed.

(** C2, at the inputs where the code departs from it: whatever the
    built-ins are, [asNumber.parse] throws [E_NOT_A_NUMBER] or returns the
    parsed number, and never compares its text with the text given; so
    [1e3] and [007] are accepted although they read back as [1000] and [7]. *)
Theorem asNumber_parse_accepts_noncanonical :
  (forall (N : JsNumber) (s : string),
      parse asNumber s
      = if Number_isNaN (parseFloat s)
        then throw E_NOT_A_NUMBER [ArgString s]
        else OK (JsNumberValue (parseFloat s)))
  /\ parse asNumber "1e3" = OK (JsNumberValue (DFinite false 1 3))
  /\ Number_toString (parseFloat "1e3") = "1000"
  /\ parse asNumber "007" = OK (JsNumberValue (DFinite false 7 0))
  /\ Number_toString (parseFloat "007") = "7"
  /\ parse asNumber "abc" = throw E_NOT_A_NUMBER [ArgString "abc"].
Proof.
  split; [intros N s; apply asNumber_parse_eq |].
  repeat split; reflexivity.
Qed.

(** C3, at the input where the code departs from it: of the name [a:1:2]
    only the segment between the first and the second colon is looked at,
    and the template is accepted with the length 1. *)
Theorem templateParser_two_colons :
  templateParser "{a:1:2}" {[ "a" := asString ]}
  = OK [SubstitutionPart 0 [{| name := "a"; explode := false; truncate := Some 1%Z |}]
                         [Some asString] None]
  /\ compileAndSerialize "{var:1:2}" sampleMatchers sampleParams = OK "v".
Proof. split; reflexivity. Qed.

(** C5 as it is written fails on the brackets, which are in its set. *)
Lemma doNotEscape_brackets_escaped :
  includesChar "[" ":/?#[]@!$&'()*+,;=" = true
  /\ doNotEscape "[" = "%5B"
  /\ includesChar "]" ":/?#[]@!$&'()*+,;=" = true
  /\ doNotEscape "]" = "%5D"
  /\ compileAndSerialize "{+var}" sampleMatchers {[ "var" := JsString "[a]" ]}
     = OK "%5Ba%5D".
Proof. repeat split; reflexivity. Qed.

(** A triplet with a hexadecimal letter stays double-encoded. *)
Example doNotEscape_hex_triplet : doNotEscape "%3B" = "%253B".
Proof. reflexivity. Qed.


(** A name that [Object.prototype] has needs no matcher to be accepted:
    the part holds a property of the prototype in the place of a matcher,
    and the expansion of a parameter under it is a [TypeError], except
    where there is no value to check. *)
Example inherited_names :
  templateParser "{constructor}" ∅
  = OK [SubstitutionPart 0 [{| name := "constructor"; explode := false;
                               truncate := None |}] [None] None]
  /\ compileAndSerialize "{constructor}" ∅ ∅ = throw TypeError []
  /\ compileAndSerialize "{constructor}" ∅ {[ "constructor" := JsNull ]}
     = OK EmptyString
  /\ compileAndSerialize "{constructor}" ∅ {[ "constructor" := JsArray [] ]}
     = OK EmptyString
  /\ compileAndSerialize "{__proto__}" ∅ ∅ = OK EmptyString
  /\ templateParser "{undef}" ∅
     = throwAt E_NO_SUBSTITUTION_MATCHER_FOUND "{undef}" [0%nat; 6%nat].
Proof. repeat split; reflexivity. Qed.

(** ** The theorems at concrete inputs *)

Lemma explode_truncate_exclusive_witness :
  resolveVariable "{hello:2*}" sampleMatchers 0 9
    {| name := "hello:2*"; explode := false; truncate := None |}
  = throwAt E_BAD_SUBSTITUTION_TRUNCATE "{hello:2*}" [0%nat; 9%nat]
  /\ templateParser (String "{" ("+var:12*" ++ "}")) sampleMatchers
     = throwAt E_BAD_SUBSTITUTION_TRUNCATE (String "{" ("+var:12*" ++ "}"))
               [0%nat; 9%nat]
  /\ (~ (explode truncatedVariable = true /\ truncate truncatedVariable <> None)
      /\ (forall n, truncate truncatedVariable = Some n -> (0 <= n)%Z)).
Proof.
  split; [| split].
  - apply (proj1 explode_truncate_exclusive); reflexivity.
  - apply (proj1 (proj2 explode_truncate_exclusive) sampleMatchers "+var:12*");
      reflexivity.
  - apply (proj2 (proj2 (proj2 explode_truncate_exclusive))
             "/test/{var:3}{?x,y}" sampleMatchers sampleParts
             6%nat [truncatedVariable] [Some asString] None truncatedVariable).
    + reflexivity.
    + right. left. reflexivity.
    + left. reflexivity.
Defined.

Lemma doNotEscape_reserved_witness :
  doNotEscape ("a b" ++ String "/" "c d")
  = doNotEscape "a b" ++ String "/" (doNotEscape "c d")
  /\ doNotEscape ("x y" ++ String "%" (String "4" (String "0" "z")))
     = doNotEscape "x y" ++ String "%" (String "4" (String "0" (doNotEscape "z"))).
Proof.
  split.
  - apply (proj1 doNotEscape_reserved). reflexivity.
  - apply (proj2 (proj2 (proj2 (proj2 doNotEscape_reserved)))); reflexivity.
Defined.

Lemma named_equals_sign_witness :
  equalsSign mod_question [EmptyString] = "="
  /\ "list=red,green,blue"
     = escape "list" ++ equalsSign mod_semicolon ["red"; "green"; "blue"]
       ++ join "," ["red"; "green"; "blue"]
  /\ "list=red;list=green;list=blue"
     = join ";" [escape "list" ++ "=" ++ "red"; escape "list" ++ "=" ++ "green";
                 escape "list" ++ "=" ++ "blue"].
Proof.
  split; [| split].
  - apply (proj2 (proj1 (proj2 (proj2 named_equals_sign)) mod_question [EmptyString])).
    discriminate.
  - exact (proj1 (proj1 (proj2 (proj2 (proj2 named_equals_sign)))
                        mod_semicolon sampleParams [Some asStrings] listVariable 0%nat
                        asStrings "list=red,green,blue" eq_refl eq_refl eq_refl)
                 eq_refl ltac:(discriminate)).
  - exact (proj2 (proj1 (proj2 (proj2 (proj2 named_equals_sign)))
                        mod_semicolon sampleParams [Some asStrings] listExploded 0%nat
                        asStrings "list=red;list=green;list=blue"
                        eq_refl eq_refl eq_refl)
                 eq_refl).
Defined.


Lemma toString_roundtrip_witness :
  toString pingTemplate
  = String "[" (String doubleQuote (escapeQuotes "/ping" ++ descriptionSuffix))
  /\ toString pingTemplate
     = String "[" (String doubleQuote ("/ping" ++ descriptionSuffix))
  /\ describedText (toString pingTemplate) = Some "/ping".
Proof.
  destruct (toString_roundtrip "/ping" ∅ pingTemplate eq_refl) as (H1 & H2 & H3).
  split; [exact H1 | split; [exact (H2 eq_refl) | exact H3]].
Defined.

Lemma nonexploded_name_once_witness :
  "list=red,green,blue"
  = escape "list" ++ equalsSign mod_semicolon ["red"; "green"; "blue"]
    ++ join "," [escape "red"; escape "green"; escape "blue"]
  /\ "keys=semi,%3B,dot,.,comma,%2C"
     = escape "keys" ++ "="
       ++ join "," [escape "semi"; escape ";"; escape "dot"; escape ".";
                    escape "comma"; escape ","].
Proof.
  split.
  - exact (proj1 (proj1 nonexploded_name_once
                        mod_semicolon sampleParams [Some asStrings] listVariable 0%nat
                        asStrings "list=red,green,blue"
                        eq_refl eq_refl eq_refl eq_refl)
                 [JsString "red"; JsString "green"; JsString "blue"]
                 eq_refl ltac:(discriminate)).
  - refine (proj2 (proj1 nonexploded_name_once
                         mod_question sampleParams [Some asKeyedStrings] keysVariable
                         0%nat asKeyedStrings "keys=semi,%3B,dot,.,comma,%2C"
                         eq_refl eq_refl eq_refl eq_refl)
                  [("semi", JsString ";"); ("dot", JsString "."); ("comma", JsString ",")]
                  eq_refl _).
    repeat constructor; cbn; intuition discriminate.
Defined.

Lemma templateParser_parts_shape_witness :
  (forall i j p q, (i < j)%nat -> sampleParts !! i = Some p -> sampleParts !! j = Some q ->
                   (partIndex p < partIndex q)%nat)
  /\ (forall index value, In (LiteralPart index value) sampleParts -> value <> EmptyString)
  /\ (forall i p q, sampleParts !! i = Some p -> sampleParts !! S i = Some q ->
                    ~ (isLiteral p = true /\ isLiteral q = true)).
Proof.
  apply (templateParser_parts_shape "/test/{var:3}{?x,y}" sampleMatchers sampleParts).
  reflexivity.
Defined.


(** ** The further properties, at the samples of the repository *)

Lemma templateParser_substitutions_witness :
  [{| name := "var"; explode := false; truncate := None |};
   {| name := "constructor"; explode := false; truncate := None |}] <> []
  /\ length [Some asString; None]
     = length [{| name := "var"; explode := false; truncate := None |};
               {| name := "constructor"; explode := false; truncate := None |}]
  /\ (forall k v,
         [{| name := "var"; explode := false; truncate := None |};
          {| name := "constructor"; explode := false; truncate := None |}] !! k
         = Some v ->
         matchVariableName (name v) = true
         /\ [Some asString; None] !! k = Some (sampleMatchers !! name v)
         /\ ((exists m, sampleMatchers !! name v = Some m
                        /\ matcherAt [Some asString; None] k = OK m)
             \/ (sampleMatchers !! name v = None
                 /\ isInherited (name v) = true
                 /\ inheritedAt [Some asString; None] k = true)))
  /\ ((forall v,
          In v [{| name := "var"; explode := false; truncate := None |};
                {| name := "constructor"; explode := false; truncate := None |}] ->
          isInherited (name v) = false) ->
      forall k v,
        [{| name := "var"; explode := false; truncate := None |};
         {| name := "constructor"; explode := false; truncate := None |}] !! k
        = Some v ->
        exists m, sampleMatchers !! name v = Some m
                  /\ matcherAt [Some asString; None] k = OK m).
Proof.
  apply (templateParser_substitutions "/test/{var,constructor}" sampleMatchers
           [LiteralPart 0 "/test/";
            SubstitutionPart 6
              [{| name := "var"; explode := false; truncate := None |};
               {| name := "constructor"; explode := false; truncate := None |}]
              [Some asString; None] None]
           6 _ _ None).
  - reflexivity.
  - right. left. reflexivity.
Defined.

Lemma literal_template_witness :
  templateParser "/ping" sampleMatchers = OK [LiteralPart 0 "/ping"]
  /\ (forall params, compileAndSerialize "/ping" sampleMatchers params = OK "/ping").
Proof. apply (literal_template sampleMatchers "/ping"). reflexivity. Defined.

Lemma brace_errors_witness :
  templateParser "/a}b" sampleMatchers
  = throwAt E_UNEXPECTED_SUBSTITUTION_CLOSING "/a}b" [2%nat]
  /\ templateParser "/a{var{b" sampleMatchers
     = throwAt E_BAD_SUBSTITUTION_OPENING "/a{var{b" [6%nat]
  /\ templateParser "/a{var" sampleMatchers
     = throwAt E_EXPECTED_SUBSTITUTION_CLOSING "/a{var" [2%nat; 6%nat].
Proof.
  pose proof (brace_errors sampleMatchers "/a" eq_refl) as (Hclose & Hopen & Hend).
  split; [exact (Hclose "b") |].
  split; [exact (Hopen "var" "b" eq_refl) | exact (Hend "var" eq_refl)].
Defined.

Lemma empty_name_errors_witness :
  templateParser "/a{?}b" sampleMatchers
  = throwAt E_BAD_SUBSTITUTION_NAME "/a{?}b" [2%nat; 4%nat]
  /\ templateParser "/a{?,b" sampleMatchers
     = throwAt E_EMPTY_SUBSTITUTION_NAME "/a{?,b" [2%nat; 4%nat].
Proof.
  apply (empty_name_errors sampleMatchers "/a" "b" (Some mod_question)). reflexivity.
Defined.

Lemma templateParser_written_witness :
  templateParser "/test/{var:3}{?x,y}#end" sampleMatchers
  = OK (sampleParts ++ [LiteralPart 19 "#end"])%list.
Proof.
  apply (templateParser_written sampleMatchers
           [{| textBefore := "/test/"; writtenModifier := None;
               writtenVariables :=
                 [{| writtenName := "var"; writtenSuffix := TruncateSuffix "3" |}] |};
            {| textBefore := EmptyString; writtenModifier := Some mod_question;
               writtenVariables :=
                 [{| writtenName := "x"; writtenSuffix := NoSuffix |};
                  {| writtenName := "y"; writtenSuffix := NoSuffix |}] |}]
           "#end").
  - repeat constructor; try discriminate; try reflexivity; cbn; lia.
  - reflexivity.
Defined.

Lemma parts_in_template_witness :
  (forall i value,
      In (LiteralPart i value) sampleParts ->
      substring i (String.length value) "/test/{var:3}{?x,y}" = value
      /\ includesChar "{" value = false /\ includesChar "}" value = false)
  /\ (forall i variables ms modifier,
         In (SubstitutionPart i variables ms modifier) sampleParts ->
         String.get i "/test/{var:3}{?x,y}" = Some "{"%char).
Proof.
  apply (parts_in_template "/test/{var:3}{?x,y}" sampleMatchers sampleParts).
  reflexivity.
Defined.

Lemma shape_errors_witness :
  serializeVariable DEFAULT_SPECS sampleParams [Some asStrings]
                    {| name := "var"; explode := false; truncate := None |} 0
  = throw E_EXPECTED_A_LIST [ArgString "var"; ArgValue (JsString "value")].
Proof.
  refine (proj1 (proj2 (shape_errors DEFAULT_SPECS sampleParams [Some asStrings]
                          {| name := "var"; explode := false; truncate := None |} 0
                          asStrings (JsString "value") _ _ _)) _ _).
  - reflexivity.
  - reflexivity.
  - reflexivity.
  - reflexivity.
  - intros l. discriminate.
Defined.

Lemma first_invalid_element_witness :
  serializeVariable DEFAULT_SPECS
    {[ "list" := JsArray [JsString "red"; JsBoolean true; JsString "blue"] ]}
    [Some asStrings] listVariable 0
  = throw E_INVALID_VARIABLE_VALUE
          [ArgString "list"; ArgIndex 1; ArgValue (JsBoolean true)].
Proof.
  refine (proj1 (first_invalid_element DEFAULT_SPECS
                   {[ "list" := JsArray [JsString "red"; JsBoolean true;
                                         JsString "blue"] ]}
                   [Some asStrings] listVariable 0 asStrings _)
            [JsString "red"] (JsBoolean true) [JsString "blue"] _ _ _ _).
  - reflexivity.
  - reflexivity.
  - reflexivity.
  - repeat constructor.
  - reflexivity.
Defined.

Lemma scalar_expansion_witness :
  serializeVariable (specsOf (Some mod_question)) sampleParams [Some asString]
                    truncatedVariable 0
  = OK (Some "var=val").
Proof.
  apply (scalar_expansion (Some mod_question) sampleParams [Some asString]
           truncatedVariable 0 asString (JsString "value")); reflexivity.
Defined.

Lemma unnamed_expansion_witness :
  "red,green,blue"
  = join ","
      (escapeValues DEFAULT_SPECS listVariable (paramOf sampleParams "list")
         (truncateValues listVariable
            (map (serialize asStrings) (valuesOf (paramOf sampleParams "list"))))).
Proof.
  refine (proj1 (unnamed_expansion DEFAULT_SPECS sampleParams [Some asStrings]
                   listVariable 0 asStrings "red,green,blue" _ _ _) _);
    reflexivity.
Defined.

Lemma expansion_without_parameters_witness :
  URITemplate_serialize
    {| _template := "/test/{var:3}{?x,y}"; _matchers := sampleMatchers;
       _parts := sampleParts |}
    {[ "var" := JsNull ]}
  = OK "/test/".
Proof.
  apply (expansion_without_parameters
           {| _template := "/test/{var:3}{?x,y}"; _matchers := sampleMatchers;
              _parts := sampleParts |}
           {[ "var" := JsNull ]}).
  intros part v [<- | [<- | [<- | []]]] Hv; cbn in Hv;
    repeat (destruct Hv as [<- | Hv]; [reflexivity |]); destruct Hv.
Defined.


Lemma variable_errors_witness :
  templateParser "/a{var:x}" sampleMatchers
  = throwAt E_BAD_SUBSTITUTION_TRUNCATE "/a{var:x}" [2%nat; 8%nat]
  /\ templateParser "/a{+va-r}" sampleMatchers
     = throwAt E_BAD_SUBSTITUTION_NAME "/a{+va-r}" [2%nat; 8%nat]
  /\ templateParser "/a{undef*}" sampleMatchers
     = throwAt E_NO_SUBSTITUTION_MATCHER_FOUND "/a{undef*}" [2%nat; 9%nat].
Proof.
  split; [| split].
  - refine (proj1 (variable_errors sampleMatchers "/a" "var:x" EmptyString _ _)
              "var" "x" _ _ _ _); reflexivity.
  - refine (proj1 (proj2 (variable_errors sampleMatchers "/a" "+va-r" EmptyString _ _))
              _ _ _ _); try reflexivity; discriminate.
  - refine (proj2 (proj2 (variable_errors sampleMatchers "/a" "undef*" EmptyString _ _))
              {| writtenName := "undef"; writtenSuffix := ExplodeSuffix |} _ _ _ _ _);
      reflexivity.
Defined.

Lemma templateParser_errors_witness :
  In E_BAD_SUBSTITUTION_TRUNCATE parserCodes
  /\ exists offsets,
       [ArgString "/a{var:3*}"; ArgIndex 2; ArgIndex 9]
       = ArgString "/a{var:3*}" :: map ArgIndex offsets.
Proof.
  apply (templateParser_errors "/a{var:3*}" sampleMatchers
           {| code := E_BAD_SUBSTITUTION_TRUNCATE;
              errorParams := [ArgString "/a{var:3*}"; ArgIndex 2; ArgIndex 9] |}).
  reflexivity.
Defined.

Lemma serialize_errors_witness :
  (exists part v,
      In part sampleParts /\ In v (partVariables part)
      /\ ((In E_INVALID_VARIABLE_VALUE serializeCodes
           /\ exists rest, [ArgString "x"; ArgIndex 0; ArgValue (JsString "a")]
                           = ArgString (name v) :: rest)
          \/ (E_INVALID_VARIABLE_VALUE = TypeError
              /\ sampleMatchers !! name v = None /\ isInherited (name v) = true
              /\ isNullOrUndefined (paramOf {[ "x" := JsString "a" ]} (name v)) = false)))
  /\ ((forall part v, In part sampleParts -> In v (partVariables part) ->
                      isInherited (name v) = false) ->
      In E_INVALID_VARIABLE_VALUE serializeCodes).
Proof.
  apply (serialize_errors "/test/{var:3}{?x,y}" sampleMatchers
           {| _template := "/test/{var:3}{?x,y}"; _matchers := sampleMatchers;
              _parts := sampleParts |}
           {[ "x" := JsString "a" ]}
           {| code := E_INVALID_VARIABLE_VALUE;
              errorParams := [ArgString "x"; ArgIndex 0; ArgValue (JsString "a")] |}).
  - reflexivity.
  - reflexivity.
Defined.
End Evaluation.
